(** * ThorlabsKinesisTCubeServo: the stage adapter between Micro-Manager and
      the Thorlabs Kinesis T-Cube DC servo library.

    The adapter class of [ThorlabsKinesisTCubeServo.cpp] is embedded as a
    record of its member variables and one function per member function.
    Member functions run in a small state monad that also records, in
    order, every call that leaves the adapter (vendor library and host
    framework).  C++ [double] and [float] values are IEEE 754 binary64 and
    binary32 numbers, modelled with the parametric operations of
    [SpecFloat]; where a property is about distances between positions,
    the numbers are read as real numbers. *)

From Stdlib Require Import ZArith List String Bool Lia.
From Stdlib Require Import Reals Lra.
From Stdlib Require Import Floats.SpecFloat.
Import ListNotations.
Local Open Scope Z_scope.

(** ** IEEE 754 numbers

    An expression of type [float] is evaluated in binary32 and one of type
    [double] in binary64, each operation rounding to nearest, ties to even;
    an [int] or [long] operand is converted to the type of the other
    operand first. *)

(** C++ [double]: binary64. *)
Definition double := spec_float.
(** C++ [float]: binary32. *)
Definition float := spec_float.

Module F64.
Definition prec := 53.
Definition emax := 1024.
Definition valid (x : double) : bool := valid_binary prec emax x.
(** Conversion of an integer ([int], [long]) to [double]. *)
Definition of_Z (z : Z) : double := binary_normalize prec emax z 0 false.
Definition mul (x y : double) : double := SFmul prec emax x y.
Definition div (x y : double) : double := SFdiv prec emax x y.
(** The C++ relational operators; every comparison with a NaN is false. *)
Definition ltb (x y : double) : bool := SFltb x y.
Definition gtb (x y : double) : bool := SFltb y x.
Definition leb (x y : double) : bool := SFleb x y.
End F64.

Module F32.
Definition prec := 24.
Definition emax := 128.
(** Conversion of an integer ([int], [long]) to [float]. *)
Definition of_Z (z : Z) : float := binary_normalize prec emax z 0 false.
Definition mul (x y : float) : float := SFmul prec emax x y.
Definition div (x y : float) : float := SFdiv prec emax x y.
End F32.

(** Narrowing conversion [double] to [float]: round to nearest, ties to
    even, overflow to an infinity. *)
Definition double_to_float (x : double) : float :=
  match x with
  | S754_finite s m e => binary_round F32.prec F32.emax s m e
  | _ => x
  end.

(** Widening conversion [float] to [double]: exact; the mantissa is
    re-aligned to the 53-bit format. *)
Definition float_to_double (x : float) : double :=
  match x with
  | S754_finite s m e => binary_round F64.prec F64.emax s m e
  | _ => x
  end.

(** The literal [0.1] of type [double]. *)
Definition double_0_1 : double := F64.div (F64.of_Z 1) (F64.of_Z 10).

(** ** Status codes and host-framework types

    The adapter is compiled against the Micro-Manager device interface
    ([MMDevice.h], [DeviceBase.h]); the two status codes it returns and the
    property action kinds it tests are that interface's. *)

(** [DEVICE_OK] and [DEVICE_UNSUPPORTED_COMMAND] of [MMDeviceConstants.h]. *)
Definition DEVICE_OK : Z := 0.
Definition DEVICE_UNSUPPORTED_COMMAND : Z := 11.

(** [MM::ActionType], as far as the handlers distinguish it. *)
Inductive ActionType := BeforeGet | AfterSet | OtherAction.

Inductive PropertyType := MM_String | MM_Float | MM_Integer.

(** The action handlers a property can be bound to. *)
Inductive Handler :=
| H_OnSerialNumber | H_OnChannelNumber | H_OnMinPosUm | H_OnMaxPosUm
| H_OnPosition | H_OnVelocity | H_OnHome.

(** A value streamed into [tmpMessage], or handed to the host as a property
    value; numbers are kept as numbers, their decimal rendering is the
    host's and the stream library's business. *)
Inductive LogItem :=
| LStr (s : string)
| LLong (z : Z)
| LFloat (f : float)
| LDouble (d : double).

Inductive PropValue :=
| PStr (s : string)
| PLong (z : Z)
| PDouble (d : double).

(** Property names and device names of the source file. *)
Definition g_ThorlabsDeviceNameTDC001 : string := "TDC001".
Definition g_Keyword_Position : string := "Set position (um)".
Definition g_Keyword_Velocity : string := "Velocity (mm/s)".
Definition g_Keyword_Home : string := "Go Home".
Definition g_SerialNumberProp : string := "Serial Number".
Definition g_ChannelProp : string := "Channel".
Definition g_MaxVelProp : string := "Maximum Velocity".
Definition g_MaxAccnProp : string := "Maximum Acceleration".
Definition g_MinPosProp : string := "Position Lower Limit (um)".
Definition g_MaxPosProp : string := "Position Upper Limit (um)".
Definition g_Keyword_Name : string := "Name".
Definition g_Keyword_Description : string := "Description".

(** ** Calls that leave the adapter

    One constructor per function of the Kinesis library or of the host
    framework that the adapter calls, with the arguments passed (the serial
    number, numbers and property values; message texts and output buffers
    are left out) and, for a call whose answer the adapter uses, the answer
    received.  [CC_MoveToPosition] and [CC_SetVelParams] carry the values of
    the argument expressions as the adapter computes them, before any
    conversion to the parameter types of the library. *)
Inductive Call :=
(* Kinesis library *)
| TLI_GetDeviceListSize
| TLI_BuildDeviceList (result : Z)
| TLI_GetDeviceListByTypeExt (size typeID : Z)
| TLI_GetDeviceInfo (serialNo : string)
| CC_Open (serialNo : string) (result : Z)
| CC_StartPolling (serialNo : string) (ms : Z)
| CC_LoadSettings (serialNo : string)
| CC_Close (serialNo : string)
| CC_GetMotorVelocityLimits (serialNo : string) (maxVelocity maxAcceleration : double)
| CC_GetPosition (serialNo : string) (result : Z)
| CC_RequestStatusBits (serialNo : string)
| CC_GetStatusBits (serialNo : string) (result : Z)
| CC_MoveToPosition (serialNo : string) (position : float)
| CC_Home (serialNo : string)
| CC_CanHome (serialNo : string) (result : bool)
| CC_SetVelParams (serialNo : string) (acceleration : Z) (maxVelocity : double)
(* platform *)
| Sleep (ms : Z)
(* host framework *)
| InitializeDefaultErrorMessages
| SetErrorText (code : Z)
| CreateProperty (name : string) (value : PropValue) (eType : PropertyType)
    (readOnly : bool) (pAct : option Handler) (isPreInitProperty : bool)
| CreateFloatProperty (name : string) (value : double) (readOnly : bool)
    (pAct : option Handler)
| SetPropertyLimits (name : string) (lowerLimit upperLimit : double)
| AddAllowedValue (name : string) (value : PropValue)
| UpdateStatus (result : Z)
| LogMessage (msg : list LogItem)
| OnStagePositionChanged (pos : double)
| CopyLimitedString (s : string)
| Prop_Set (v : PropValue).

(** ** The adapter object

    The member variables that some member function reads or writes (the
    header declares more, which no function body touches), together with the
    global [aptInitialized]. *)
Record ThorlabsKinesisTCubeServo := {
  tmpMessage : list LogItem;  (* the [std::stringstream] collecting the next log line *)
  deviceName_ : string;
  chNumber_ : Z;
  serialNumber_ : string;
  stepSizeUm_ : double;
  initialized_ : bool;
  homed_ : bool;
  minTravelUm_ : double;
  maxTravelUm_ : double;
  curPosUm_ : float;  (* cached current position *)
  pfPosition : float;
  newPosition : float;
  pfMaxVel : double;
  pfAccn : Z;
  pfMaxAccn : double;
  pfMinPos : float;
  pfMaxPos : float;
  posUm_ : double;
  aptInitialized : bool  (* the process-wide flag declared in the header *)
}.

(** Assignment to one member variable. *)
Definition set_tmpMessage (v : list LogItem) (a : ThorlabsKinesisTCubeServo) : ThorlabsKinesisTCubeServo :=
  {| tmpMessage := v; deviceName_ := deviceName_ a; chNumber_ := chNumber_ a;
     serialNumber_ := serialNumber_ a; stepSizeUm_ := stepSizeUm_ a;
     initialized_ := initialized_ a; homed_ := homed_ a;
     minTravelUm_ := minTravelUm_ a; maxTravelUm_ := maxTravelUm_ a;
     curPosUm_ := curPosUm_ a; pfPosition := pfPosition a;
     newPosition := newPosition a; pfMaxVel := pfMaxVel a;
     pfAccn := pfAccn a; pfMaxAccn := pfMaxAccn a; pfMinPos := pfMinPos a;
     pfMaxPos := pfMaxPos a; posUm_ := posUm_ a;
     aptInitialized := aptInitialized a |}.
Definition set_deviceName_ (v : string) (a : ThorlabsKinesisTCubeServo) : ThorlabsKinesisTCubeServo :=
  {| tmpMessage := tmpMessage a; deviceName_ := v; chNumber_ := chNumber_ a;
     serialNumber_ := serialNumber_ a; stepSizeUm_ := stepSizeUm_ a;
     initialized_ := initialized_ a; homed_ := homed_ a;
     minTravelUm_ := minTravelUm_ a; maxTravelUm_ := maxTravelUm_ a;
     curPosUm_ := curPosUm_ a; pfPosition := pfPosition a;
     newPosition := newPosition a; pfMaxVel := pfMaxVel a;
     pfAccn := pfAccn a; pfMaxAccn := pfMaxAccn a; pfMinPos := pfMinPos a;
     pfMaxPos := pfMaxPos a; posUm_ := posUm_ a;
     aptInitialized := aptInitialized a |}.
Definition set_chNumber_ (v : Z) (a : ThorlabsKinesisTCubeServo) : ThorlabsKinesisTCubeServo :=
  {| tmpMessage := tmpMessage a; deviceName_ := deviceName_ a;
     chNumber_ := v; serialNumber_ := serialNumber_ a;
     stepSizeUm_ := stepSizeUm_ a; initialized_ := initialized_ a;
     homed_ := homed_ a; minTravelUm_ := minTravelUm_ a;
     maxTravelUm_ := maxTravelUm_ a; curPosUm_ := curPosUm_ a;
     pfPosition := pfPosition a; newPosition := newPosition a;
     pfMaxVel := pfMaxVel a; pfAccn := pfAccn a; pfMaxAccn := pfMaxAccn a;
     pfMinPos := pfMinPos a; pfMaxPos := pfMaxPos a; posUm_ := posUm_ a;
     aptInitialized := aptInitialized a |}.
Definition set_serialNumber_ (v : string) (a : ThorlabsKinesisTCubeServo) : ThorlabsKinesisTCubeServo :=
  {| tmpMessage := tmpMessage a; deviceName_ := deviceName_ a;
     chNumber_ := chNumber_ a; serialNumber_ := v;
     stepSizeUm_ := stepSizeUm_ a; initialized_ := initialized_ a;
     homed_ := homed_ a; minTravelUm_ := minTravelUm_ a;
     maxTravelUm_ := maxTravelUm_ a; curPosUm_ := curPosUm_ a;
     pfPosition := pfPosition a; newPosition := newPosition a;
     pfMaxVel := pfMaxVel a; pfAccn := pfAccn a; pfMaxAccn := pfMaxAccn a;
     pfMinPos := pfMinPos a; pfMaxPos := pfMaxPos a; posUm_ := posUm_ a;
     aptInitialized := aptInitialized a |}.
Definition set_stepSizeUm_ (v : double) (a : ThorlabsKinesisTCubeServo) : ThorlabsKinesisTCubeServo :=
  {| tmpMessage := tmpMessage a; deviceName_ := deviceName_ a;
     chNumber_ := chNumber_ a; serialNumber_ := serialNumber_ a;
     stepSizeUm_ := v; initialized_ := initialized_ a; homed_ := homed_ a;
     minTravelUm_ := minTravelUm_ a; maxTravelUm_ := maxTravelUm_ a;
     curPosUm_ := curPosUm_ a; pfPosition := pfPosition a;
     newPosition := newPosition a; pfMaxVel := pfMaxVel a;
     pfAccn := pfAccn a; pfMaxAccn := pfMaxAccn a; pfMinPos := pfMinPos a;
     pfMaxPos := pfMaxPos a; posUm_ := posUm_ a;
     aptInitialized := aptInitialized a |}.
Definition set_initialized_ (v : bool) (a : ThorlabsKinesisTCubeServo) : ThorlabsKinesisTCubeServo :=
  {| tmpMessage := tmpMessage a; deviceName_ := deviceName_ a;
     chNumber_ := chNumber_ a; serialNumber_ := serialNumber_ a;
     stepSizeUm_ := stepSizeUm_ a; initialized_ := v; homed_ := homed_ a;
     minTravelUm_ := minTravelUm_ a; maxTravelUm_ := maxTravelUm_ a;
     curPosUm_ := curPosUm_ a; pfPosition := pfPosition a;
     newPosition := newPosition a; pfMaxVel := pfMaxVel a;
     pfAccn := pfAccn a; pfMaxAccn := pfMaxAccn a; pfMinPos := pfMinPos a;
     pfMaxPos := pfMaxPos a; posUm_ := posUm_ a;
     aptInitialized := aptInitialized a |}.
Definition set_homed_ (v : bool) (a : ThorlabsKinesisTCubeServo) : ThorlabsKinesisTCubeServo :=
  {| tmpMessage := tmpMessage a; deviceName_ := deviceName_ a;
     chNumber_ := chNumber_ a; serialNumber_ := serialNumber_ a;
     stepSizeUm_ := stepSizeUm_ a; initialized_ := initialized_ a;
     homed_ := v; minTravelUm_ := minTravelUm_ a;
     maxTravelUm_ := maxTravelUm_ a; curPosUm_ := curPosUm_ a;
     pfPosition := pfPosition a; newPosition := newPosition a;
     pfMaxVel := pfMaxVel a; pfAccn := pfAccn a; pfMaxAccn := pfMaxAccn a;
     pfMinPos := pfMinPos a; pfMaxPos := pfMaxPos a; posUm_ := posUm_ a;
     aptInitialized := aptInitialized a |}.
Definition set_minTravelUm_ (v : double) (a : ThorlabsKinesisTCubeServo) : ThorlabsKinesisTCubeServo :=
  {| tmpMessage := tmpMessage a; deviceName_ := deviceName_ a;
     chNumber_ := chNumber_ a; serialNumber_ := serialNumber_ a;
     stepSizeUm_ := stepSizeUm_ a; initialized_ := initialized_ a;
     homed_ := homed_ a; minTravelUm_ := v; maxTravelUm_ := maxTravelUm_ a;
     curPosUm_ := curPosUm_ a; pfPosition := pfPosition a;
     newPosition := newPosition a; pfMaxVel := pfMaxVel a;
     pfAccn := pfAccn a; pfMaxAccn := pfMaxAccn a; pfMinPos := pfMinPos a;
     pfMaxPos := pfMaxPos a; posUm_ := posUm_ a;
     aptInitialized := aptInitialized a |}.
Definition set_maxTravelUm_ (v : double) (a : ThorlabsKinesisTCubeServo) : ThorlabsKinesisTCubeServo :=
  {| tmpMessage := tmpMessage a; deviceName_ := deviceName_ a;
     chNumber_ := chNumber_ a; serialNumber_ := serialNumber_ a;
     stepSizeUm_ := stepSizeUm_ a; initialized_ := initialized_ a;
     homed_ := homed_ a; minTravelUm_ := minTravelUm_ a; maxTravelUm_ := v;
     curPosUm_ := curPosUm_ a; pfPosition := pfPosition a;
     newPosition := newPosition a; pfMaxVel := pfMaxVel a;
     pfAccn := pfAccn a; pfMaxAccn := pfMaxAccn a; pfMinPos := pfMinPos a;
     pfMaxPos := pfMaxPos a; posUm_ := posUm_ a;
     aptInitialized := aptInitialized a |}.
Definition set_curPosUm_ (v : float) (a : ThorlabsKinesisTCubeServo) : ThorlabsKinesisTCubeServo :=
  {| tmpMessage := tmpMessage a; deviceName_ := deviceName_ a;
     chNumber_ := chNumber_ a; serialNumber_ := serialNumber_ a;
     stepSizeUm_ := stepSizeUm_ a; initialized_ := initialized_ a;
     homed_ := homed_ a; minTravelUm_ := minTravelUm_ a;
     maxTravelUm_ := maxTravelUm_ a; curPosUm_ := v;
     pfPosition := pfPosition a; newPosition := newPosition a;
     pfMaxVel := pfMaxVel a; pfAccn := pfAccn a; pfMaxAccn := pfMaxAccn a;
     pfMinPos := pfMinPos a; pfMaxPos := pfMaxPos a; posUm_ := posUm_ a;
     aptInitialized := aptInitialized a |}.
Definition set_pfPosition (v : float) (a : ThorlabsKinesisTCubeServo) : ThorlabsKinesisTCubeServo :=
  {| tmpMessage := tmpMessage a; deviceName_ := deviceName_ a;
     chNumber_ := chNumber_ a; serialNumber_ := serialNumber_ a;
     stepSizeUm_ := stepSizeUm_ a; initialized_ := initialized_ a;
     homed_ := homed_ a; minTravelUm_ := minTravelUm_ a;
     maxTravelUm_ := maxTravelUm_ a; curPosUm_ := curPosUm_ a;
     pfPosition := v; newPosition := newPosition a; pfMaxVel := pfMaxVel a;
     pfAccn := pfAccn a; pfMaxAccn := pfMaxAccn a; pfMinPos := pfMinPos a;
     pfMaxPos := pfMaxPos a; posUm_ := posUm_ a;
     aptInitialized := aptInitialized a |}.
Definition set_newPosition (v : float) (a : ThorlabsKinesisTCubeServo) : ThorlabsKinesisTCubeServo :=
  {| tmpMessage := tmpMessage a; deviceName_ := deviceName_ a;
     chNumber_ := chNumber_ a; serialNumber_ := serialNumber_ a;
     stepSizeUm_ := stepSizeUm_ a; initialized_ := initialized_ a;
     homed_ := homed_ a; minTravelUm_ := minTravelUm_ a;
     maxTravelUm_ := maxTravelUm_ a; curPosUm_ := curPosUm_ a;
     pfPosition := pfPosition a; newPosition := v; pfMaxVel := pfMaxVel a;
     pfAccn := pfAccn a; pfMaxAccn := pfMaxAccn a; pfMinPos := pfMinPos a;
     pfMaxPos := pfMaxPos a; posUm_ := posUm_ a;
     aptInitialized := aptInitialized a |}.
Definition set_pfMaxVel (v : double) (a : ThorlabsKinesisTCubeServo) : ThorlabsKinesisTCubeServo :=
  {| tmpMessage := tmpMessage a; deviceName_ := deviceName_ a;
     chNumber_ := chNumber_ a; serialNumber_ := serialNumber_ a;
     stepSizeUm_ := stepSizeUm_ a; initialized_ := initialized_ a;
     homed_ := homed_ a; minTravelUm_ := minTravelUm_ a;
     maxTravelUm_ := maxTravelUm_ a; curPosUm_ := curPosUm_ a;
     pfPosition := pfPosition a; newPosition := newPosition a; pfMaxVel := v;
     pfAccn := pfAccn a; pfMaxAccn := pfMaxAccn a; pfMinPos := pfMinPos a;
     pfMaxPos := pfMaxPos a; posUm_ := posUm_ a;
     aptInitialized := aptInitialized a |}.
Definition set_pfMaxAccn (v : double) (a : ThorlabsKinesisTCubeServo) : ThorlabsKinesisTCubeServo :=
  {| tmpMessage := tmpMessage a; deviceName_ := deviceName_ a;
     chNumber_ := chNumber_ a; serialNumber_ := serialNumber_ a;
     stepSizeUm_ := stepSizeUm_ a; initialized_ := initialized_ a;
     homed_ := homed_ a; minTravelUm_ := minTravelUm_ a;
     maxTravelUm_ := maxTravelUm_ a; curPosUm_ := curPosUm_ a;
     pfPosition := pfPosition a; newPosition := newPosition a;
     pfMaxVel := pfMaxVel a; pfAccn := pfAccn a; pfMaxAccn := v;
     pfMinPos := pfMinPos a; pfMaxPos := pfMaxPos a; posUm_ := posUm_ a;
     aptInitialized := aptInitialized a |}.
Definition set_pfMinPos (v : float) (a : ThorlabsKinesisTCubeServo) : ThorlabsKinesisTCubeServo :=
  {| tmpMessage := tmpMessage a; deviceName_ := deviceName_ a;
     chNumber_ := chNumber_ a; serialNumber_ := serialNumber_ a;
     stepSizeUm_ := stepSizeUm_ a; initialized_ := initialized_ a;
     homed_ := homed_ a; minTravelUm_ := minTravelUm_ a;
     maxTravelUm_ := maxTravelUm_ a; curPosUm_ := curPosUm_ a;
     pfPosition := pfPosition a; newPosition := newPosition a;
     pfMaxVel := pfMaxVel a; pfAccn := pfAccn a; pfMaxAccn := pfMaxAccn a;
     pfMinPos := v; pfMaxPos := pfMaxPos a; posUm_ := posUm_ a;
     aptInitialized := aptInitialized a |}.
Definition set_pfMaxPos (v : float) (a : ThorlabsKinesisTCubeServo) : ThorlabsKinesisTCubeServo :=
  {| tmpMessage := tmpMessage a; deviceName_ := deviceName_ a;
     chNumber_ := chNumber_ a; serialNumber_ := serialNumber_ a;
     stepSizeUm_ := stepSizeUm_ a; initialized_ := initialized_ a;
     homed_ := homed_ a; minTravelUm_ := minTravelUm_ a;
     maxTravelUm_ := maxTravelUm_ a; curPosUm_ := curPosUm_ a;
     pfPosition := pfPosition a; newPosition := newPosition a;
     pfMaxVel := pfMaxVel a; pfAccn := pfAccn a; pfMaxAccn := pfMaxAccn a;
     pfMinPos := pfMinPos a; pfMaxPos := v; posUm_ := posUm_ a;
     aptInitialized := aptInitialized a |}.
Definition set_posUm_ (v : double) (a : ThorlabsKinesisTCubeServo) : ThorlabsKinesisTCubeServo :=
  {| tmpMessage := tmpMessage a; deviceName_ := deviceName_ a;
     chNumber_ := chNumber_ a; serialNumber_ := serialNumber_ a;
     stepSizeUm_ := stepSizeUm_ a; initialized_ := initialized_ a;
     homed_ := homed_ a; minTravelUm_ := minTravelUm_ a;
     maxTravelUm_ := maxTravelUm_ a; curPosUm_ := curPosUm_ a;
     pfPosition := pfPosition a; newPosition := newPosition a;
     pfMaxVel := pfMaxVel a; pfAccn := pfAccn a; pfMaxAccn := pfMaxAccn a;
     pfMinPos := pfMinPos a; pfMaxPos := pfMaxPos a; posUm_ := v;
     aptInitialized := aptInitialized a |}.
Definition set_aptInitialized (v : bool) (a : ThorlabsKinesisTCubeServo) : ThorlabsKinesisTCubeServo :=
  {| tmpMessage := tmpMessage a; deviceName_ := deviceName_ a;
     chNumber_ := chNumber_ a; serialNumber_ := serialNumber_ a;
     stepSizeUm_ := stepSizeUm_ a; initialized_ := initialized_ a;
     homed_ := homed_ a; minTravelUm_ := minTravelUm_ a;
     maxTravelUm_ := maxTravelUm_ a; curPosUm_ := curPosUm_ a;
     pfPosition := pfPosition a; newPosition := newPosition a;
     pfMaxVel := pfMaxVel a; pfAccn := pfAccn a; pfMaxAccn := pfMaxAccn a;
     pfMinPos := pfMinPos a; pfMaxPos := pfMaxPos a; posUm_ := posUm_ a;
     aptInitialized := v |}.

(** ** Member functions as state transformers

    A member function maps the object before the call to its result, the
    object after the call and the calls it made, in order. *)
Definition M (A : Type) : Type :=
  ThorlabsKinesisTCubeServo -> A * ThorlabsKinesisTCubeServo * list Call.

Definition ret {A : Type} (x : A) : M A := fun a => (x, a, []).

Definition bind {A B : Type} (c : M A) (k : A -> M B) : M B :=
  fun a =>
    let '(x, a1, t1) := c a in
    let '(y, a2, t2) := k x a1 in
    (y, a2, t1 ++ t2).

(** The object as it is now. *)
Definition this : M ThorlabsKinesisTCubeServo := fun a => (a, a, []).
(** An assignment to a member variable. *)
Definition assign (f : ThorlabsKinesisTCubeServo -> ThorlabsKinesisTCubeServo) : M unit :=
  fun a => (tt, f a, []).
(** A call out of the adapter. *)
Definition call (c : Call) : M unit := fun a => (tt, a, [c]).
(** [tmpMessage << x << y << ...] *)
Definition stream (items : list LogItem) : M unit :=
  assign (fun a => set_tmpMessage (tmpMessage a ++ items) a).

Declare Scope adapter_scope.
Delimit Scope adapter_scope with adapter.
Bind Scope adapter_scope with M.
Notation "x <- c1 ;; c2" := (bind c1 (fun x => c2))
  (at level 61, c1 at next level, right associativity) : adapter_scope.
Notation "' pat <- c1 ;; c2" := (bind c1 (fun x => match x with pat => c2 end))
  (at level 61, pat pattern, c1 at next level, right associativity) : adapter_scope.
Notation "c1 ;; c2" := (bind c1 (fun _ => c2))
  (at level 61, right associativity) : adapter_scope.
Local Open Scope adapter_scope.
Local Open Scope string_scope.

(** The three components of a finished call. *)
Definition value_of {A : Type} (r : A * ThorlabsKinesisTCubeServo * list Call) : A :=
  fst (fst r).
Definition object_of {A : Type} (r : A * ThorlabsKinesisTCubeServo * list Call)
  : ThorlabsKinesisTCubeServo := snd (fst r).
Definition calls_of {A : Type} (r : A * ThorlabsKinesisTCubeServo * list Call)
  : list Call := snd r.

(** What the Kinesis library and the host answer during one member-function
    call.  [CC_GetStatusBits] returns a [DWORD], [CC_GetPosition] an [int];
    [CC_GetMotorVelocityLimits] writes two [double]s through its pointer
    arguments. *)
Record Responses := {
  CC_GetMotorVelocityLimits_maxVelocity : double;
  CC_GetMotorVelocityLimits_maxAcceleration : double;
  CC_GetPosition_result : Z;
  CC_GetStatusBits_result : Z;
  CC_CanHome_result : bool;
  UpdateStatus_result : Z
}.

(** *** Logging helpers *)

Definition LogInit : M unit :=
  assign (fun a =>
    set_tmpMessage
      [LStr (deviceName_ a); LStr "-"; LStr (serialNumber_ a); LStr " "] a).

Definition LogIt : M unit :=
  a <- this ;;
  call (LogMessage (tmpMessage a)) ;;
  LogInit.

(** *** Device API *)

(** The reference parameters [min] and [max] are returned with the status. *)
Definition GetLimits : M (Z * double * double) :=
  a <- this ;;
  stream [LStr "In GetLimits(). chNumber:"; LLong (chNumber_ a);
          LStr " pfMinPos:"; LFloat (pfMinPos a);
          LStr " pfMaxPos:"; LFloat (pfMaxPos a)] ;;
  LogIt ;;
  a <- this ;;
  let min := minTravelUm_ a in
  let max := maxTravelUm_ a in
  ret (DEVICE_OK, min, max).

Definition SetLimits (min max : double) : M Z :=
  assign (set_minTravelUm_ min) ;;
  assign (set_maxTravelUm_ max) ;;
  ret DEVICE_OK.

Definition Shutdown : M Z :=
  a <- this ;;
  (if initialized_ a then assign (set_initialized_ false) else ret tt) ;;
  a <- this ;;
  call (CC_Close (serialNumber_ a)) ;;
  ret DEVICE_OK.

(** The destructor. *)
Definition destroy : M unit :=
  _ <- Shutdown ;; ret tt.

Definition GetName : M unit :=
  a <- this ;;
  call (CopyLimitedString (deviceName_ a)).

Definition IsStageSequenceable : M (Z * bool) :=
  let isSequenceable := false in
  ret (DEVICE_OK, isSequenceable).

Definition IsContinuousFocusDrive : M bool := ret false.

Definition Busy (w : Responses) : M bool :=
  a <- this ;;
  call (CC_RequestStatusBits (serialNumber_ a)) ;;
  call (Sleep 200) ;;
  let status := CC_GetStatusBits_result w in
  call (CC_GetStatusBits (serialNumber_ a) status) ;;
  let isMovingCW := (Z.land status 0x10) mod 2 ^ 16 in
  let isMovingCCW := (Z.land status 0x20) mod 2 ^ 16 in
  let isBusy := negb (Z.eqb isMovingCW 0) || negb (Z.eqb isMovingCCW 0) in
  ret isBusy.

(** The reference parameter [posUm] is returned with the status. *)
Definition GetPositionUm (w : Responses) : M (Z * double) :=
  a <- this ;;
  call (CC_GetPosition (serialNumber_ a) (CC_GetPosition_result w)) ;;
  assign (set_pfPosition (F32.of_Z (CC_GetPosition_result w))) ;;
  a <- this ;;
  assign (set_curPosUm_
            (double_to_float
               (F64.mul (F64.div (float_to_double (pfPosition a)) (F64.of_Z 34304))
                        (F64.of_Z 1000)))) ;;
  a <- this ;;
  let posUm := float_to_double (curPosUm_ a) in
  stream [LStr "GetPositionUm:"; LFloat (curPosUm_ a)] ;;
  LogIt ;;
  ret (DEVICE_OK, posUm).

Definition SetPositionUmFlag (posUm : double) (continuousFlag : Z) : M Z :=
  a <- this ;;
  let posUm :=
    if F64.ltb posUm (minTravelUm_ a) then minTravelUm_ a
    else if F64.gtb posUm (maxTravelUm_ a) then maxTravelUm_ a
    else posUm in
  assign (set_curPosUm_ (double_to_float posUm)) ;;
  a <- this ;;
  assign (set_newPosition
            (F32.mul (F32.div (curPosUm_ a) (F32.of_Z 1000)) (F32.of_Z 34304))) ;;
  a <- this ;;
  call (CC_MoveToPosition (serialNumber_ a) (newPosition a)) ;;
  call (OnStagePositionChanged (float_to_double (curPosUm_ a))) ;;
  stream [LStr "SetPositionUm:"; LDouble posUm;
          LStr " continuousFlag:"; LLong continuousFlag] ;;
  LogIt ;;
  ret DEVICE_OK.

Definition SetPositionUm (posUm : double) : M Z :=
  SetPositionUmFlag posUm 1.

Definition SetPositionUmContinuous (posUm : double) : M Z :=
  SetPositionUmFlag posUm 1.

Definition SetOrigin : M Z :=
  ret DEVICE_UNSUPPORTED_COMMAND.

(** [steps] is passed by value; the assignment [steps = (long)0.1] changes
    the local copy only. *)
Definition SetPositionSteps (steps : Z) : M Z :=
  let steps := 0 in
  ret DEVICE_OK.

(** The reference parameter [steps] is read, never written; its value is
    returned with the status. *)
Definition GetPositionSteps (steps : Z) : M (Z * Z) :=
  assign (set_stepSizeUm_ (F64.of_Z steps)) ;;
  ret (DEVICE_OK, steps).

(** *** Private methods *)

Definition Home (w : Responses) : M Z :=
  let ret_ := DEVICE_OK in
  a <- this ;;
  call (CC_Home (serialNumber_ a)) ;;
  if homed_ a then ret ret_
  else
    call (CC_CanHome (serialNumber_ a) (CC_CanHome_result w)) ;;
    (if CC_CanHome_result w
     then assign (set_homed_ false)
     else assign (set_homed_ true)) ;;
    ret ret_.

(** The reference parameter [vel] is returned with the status. *)
Definition GetVelParam (w : Responses) : M (Z * double) :=
  a <- this ;;
  call (CC_GetMotorVelocityLimits (serialNumber_ a)
          (CC_GetMotorVelocityLimits_maxVelocity w)
          (CC_GetMotorVelocityLimits_maxAcceleration w)) ;;
  assign (set_pfMaxVel (CC_GetMotorVelocityLimits_maxVelocity w)) ;;
  assign (set_pfMaxAccn (CC_GetMotorVelocityLimits_maxAcceleration w)) ;;
  a <- this ;;
  let vel := pfMaxVel a in
  ret (DEVICE_OK, vel).

Definition SetVelParam (vel : double) : M Z :=
  a <- this ;;
  call (CC_SetVelParams (serialNumber_ a) (pfAccn a) (pfMaxVel a)) ;;
  ret DEVICE_OK.

(** *** Action handlers

    [pProp->Get(x)] hands the handler the value the host holds for the
    property, here the argument [value]; [pProp->Set(v)] is recorded as the
    call [Prop_Set v]. *)

Definition OnSerialNumber (value : string) (eAct : ActionType) : M Z :=
  a <- this ;;
  (match eAct with
   | BeforeGet => call (Prop_Set (PStr (serialNumber_ a)))
   | AfterSet =>
       (if initialized_ a
        then let serialNumber := value in assign (set_serialNumber_ serialNumber)
        else ret tt) ;;
       let serialNumber := value in
       assign (set_serialNumber_ serialNumber)
   | OtherAction => ret tt
   end) ;;
  a <- this ;;
  (if aptInitialized a
   then stream [LStr "Serial number set to "; LStr (serialNumber_ a)]
   else ret tt) ;;
  LogIt ;;
  ret DEVICE_OK.

Definition OnChannelNumber (value : Z) (eAct : ActionType) : M Z :=
  a <- this ;;
  (match eAct with
   | BeforeGet => call (Prop_Set (PLong (chNumber_ a)))
   | AfterSet =>
       (if initialized_ a
        then let chNumber := value in assign (set_chNumber_ chNumber)
        else ret tt) ;;
       assign (set_chNumber_ value)
   | OtherAction => ret tt
   end) ;;
  a <- this ;;
  stream [LStr "Channel number set to "; LLong (chNumber_ a)] ;;
  LogIt ;;
  ret DEVICE_OK.

(** [pfMinPos * 1000] and [pfMaxPos * 1000] are products in [float]; they
    are widened where they are compared with or assigned to a [double]. *)
Definition pfMinPos_times_1000 (a : ThorlabsKinesisTCubeServo) : double :=
  float_to_double (F32.mul (pfMinPos a) (F32.of_Z 1000)).
Definition pfMaxPos_times_1000 (a : ThorlabsKinesisTCubeServo) : double :=
  float_to_double (F32.mul (pfMaxPos a) (F32.of_Z 1000)).

(** The [if / else if] that both branches of [OnMinPosUm] apply to
    [minTravelUm_]. *)
Definition limit_minTravelUm_ : M unit :=
  a <- this ;;
  if F64.gtb (minTravelUm_ a) (pfMaxPos_times_1000 a)
  then assign (set_minTravelUm_ (pfMaxPos_times_1000 a))
  else if F64.ltb (minTravelUm_ a) (pfMinPos_times_1000 a)
  then assign (set_minTravelUm_ (pfMinPos_times_1000 a))
  else ret tt.

(** The same for [maxTravelUm_] in [OnMaxPosUm]. *)
Definition limit_maxTravelUm_ : M unit :=
  a <- this ;;
  if F64.gtb (maxTravelUm_ a) (pfMaxPos_times_1000 a)
  then assign (set_maxTravelUm_ (pfMaxPos_times_1000 a))
  else if F64.ltb (maxTravelUm_ a) (pfMinPos_times_1000 a)
  then assign (set_maxTravelUm_ (pfMinPos_times_1000 a))
  else ret tt.

Definition OnMinPosUm (value : double) (eAct : ActionType) : M Z :=
  (match eAct with
   | BeforeGet =>
       limit_minTravelUm_ ;;
       a <- this ;;
       call (Prop_Set (PDouble (minTravelUm_ a)))
   | AfterSet =>
       a <- this ;;
       (if initialized_ a
        then let minTravelUm := value in assign (set_minTravelUm_ minTravelUm)
        else ret tt) ;;
       assign (set_minTravelUm_ value) ;;
       limit_minTravelUm_
   | OtherAction => ret tt
   end) ;;
  a <- this ;;
  stream [LStr "minTravelUm_ set to "; LDouble (minTravelUm_ a);
          LStr " pfMinPos:"; LFloat (pfMinPos a);
          LStr " pfMaxPos:"; LFloat (pfMaxPos a)] ;;
  LogIt ;;
  ret DEVICE_OK.

Definition OnMaxPosUm (value : double) (eAct : ActionType) : M Z :=
  (match eAct with
   | BeforeGet =>
       limit_maxTravelUm_ ;;
       a <- this ;;
       call (Prop_Set (PDouble (maxTravelUm_ a)))
   | AfterSet =>
       a <- this ;;
       (if initialized_ a
        then let maxTravelUm := value in assign (set_maxTravelUm_ maxTravelUm)
        else ret tt) ;;
       assign (set_maxTravelUm_ value) ;;
       limit_maxTravelUm_
   | OtherAction => ret tt
   end) ;;
  a <- this ;;
  stream [LStr "maxTravelUm_ set to "; LDouble (maxTravelUm_ a);
          LStr " pfMinPos:"; LFloat (pfMinPos a);
          LStr " pfMaxPos:"; LFloat (pfMaxPos a)] ;;
  LogIt ;;
  ret DEVICE_OK.

Definition OnPosition (w : Responses) (value : double) (eAct : ActionType) : M Z :=
  match eAct with
  | BeforeGet =>
      '(ret_, pos) <- GetPositionUm w ;;
      if negb (Z.eqb ret_ DEVICE_OK) then ret ret_
      else call (Prop_Set (PDouble pos)) ;; ret DEVICE_OK
  | AfterSet =>
      let pos := value in
      ret_ <- SetPositionUm pos ;;
      if negb (Z.eqb ret_ DEVICE_OK) then ret ret_
      else ret DEVICE_OK
  | OtherAction => ret DEVICE_OK
  end.

Definition OnVelocity (w : Responses) (value : double) (eAct : ActionType) : M Z :=
  match eAct with
  | BeforeGet =>
      '(ret_, vel) <- GetVelParam w ;;
      if negb (Z.eqb ret_ DEVICE_OK) then ret ret_
      else call (Prop_Set (PDouble vel)) ;; ret DEVICE_OK
  | AfterSet =>
      let vel := value in
      ret_ <- SetVelParam vel ;;
      if negb (Z.eqb ret_ DEVICE_OK) then ret ret_
      else ret DEVICE_OK
  | OtherAction => ret DEVICE_OK
  end.

Definition OnHome (w : Responses) (value : Z) (eAct : ActionType) : M Z :=
  match eAct with
  | BeforeGet =>
      a <- this ;;
      call (Prop_Set (PLong (if homed_ a then 1 else 0))) ;;
      ret DEVICE_OK
  | AfterSet =>
      ret_ <- Home w ;;
      if negb (Z.eqb ret_ DEVICE_OK) then ret ret_
      else ret DEVICE_OK
  | OtherAction => ret DEVICE_OK
  end.

(** *** The host's UpdateStatus

    [UpdateStatus] is inherited from the device base class of the host,
    which is not part of this repository.  It walks the properties of the
    device in the order of their names and runs the action of every
    property that has one with [MM::BeforeGet].  In that branch no handler
    reads the value of the property ([pProp->Get] is not called), so the
    handlers are given an empty one.  When [Initialize] reaches
    [UpdateStatus] seven properties have an action: the five [init]
    created and "Velocity (mm/s)" and "Go Home", which [Initialize] adds
    (a [CreateProperty] for a name that exists leaves the first
    registration in place).  The answers of the Kinesis library are those
    of the enclosing call; the status [UpdateStatus] returns is the host's
    and is taken from its answers. *)

Definition Update (w : Responses) (action : Handler) : M Z :=
  match action with
  | H_OnSerialNumber => OnSerialNumber "" BeforeGet
  | H_OnChannelNumber => OnChannelNumber 0 BeforeGet
  | H_OnMinPosUm => OnMinPosUm (F64.of_Z 0) BeforeGet
  | H_OnMaxPosUm => OnMaxPosUm (F64.of_Z 0) BeforeGet
  | H_OnPosition => OnPosition w (F64.of_Z 0) BeforeGet
  | H_OnVelocity => OnVelocity w (F64.of_Z 0) BeforeGet
  | H_OnHome => OnHome w 0 BeforeGet
  end.

(** "Channel", "Go Home", "Position Lower Limit (um)",
    "Position Upper Limit (um)", "Serial Number", "Set position (um)",
    "Velocity (mm/s)". *)
Definition registered_actions : list Handler :=
  [H_OnChannelNumber; H_OnHome; H_OnMinPosUm; H_OnMaxPosUm;
   H_OnSerialNumber; H_OnPosition; H_OnVelocity].

Fixpoint UpdateAll (w : Responses) (actions : list Handler) : M unit :=
  match actions with
  | [] => ret tt
  | action :: rest => _ <- Update w action ;; UpdateAll w rest
  end.

Definition CDeviceBase_UpdateStatus (w : Responses) : M Z :=
  UpdateAll w registered_actions ;;
  call (UpdateStatus (UpdateStatus_result w)) ;;
  ret (UpdateStatus_result w).

(** *** Initialize *)

Definition Initialize (w : Responses) : M Z :=
  (* GetLimits(minTravelUm_, maxTravelUm_): both references alias the
     members they are assigned from *)
  '(_, min, max) <- GetLimits ;;
  assign (set_minTravelUm_ min) ;;
  assign (set_maxTravelUm_ max) ;;
  assign (set_aptInitialized true) ;;
  LogInit ;;
  stream [LStr "InitHWDevice()"] ;;
  LogIt ;;
  a <- this ;;
  call (CC_GetMotorVelocityLimits (serialNumber_ a)
          (CC_GetMotorVelocityLimits_maxVelocity w)
          (CC_GetMotorVelocityLimits_maxAcceleration w)) ;;
  assign (set_pfMaxVel (CC_GetMotorVelocityLimits_maxVelocity w)) ;;
  assign (set_pfMaxAccn (CC_GetMotorVelocityLimits_maxAcceleration w)) ;;
  call (CC_GetPosition (serialNumber_ a) (CC_GetPosition_result w)) ;;
  assign (set_posUm_ (F64.of_Z (CC_GetPosition_result w))) ;;
  a <- this ;;
  stream [LStr "pfMaxAccn:"; LDouble (pfMaxAccn a);
          LStr " pfMaxVel:"; LDouble (pfMaxVel a)] ;;
  LogIt ;;
  call (CreateProperty g_SerialNumberProp (PStr (serialNumber_ a)) MM_String true None false) ;;
  call (CreateProperty g_MaxVelProp (PDouble (pfMaxVel a)) MM_String true None false) ;;
  call (CreateProperty g_MaxAccnProp (PDouble (pfMaxAccn a)) MM_String true None false) ;;
  call (CreateFloatProperty g_Keyword_Position (F64.of_Z 0) false (Some H_OnPosition)) ;;
  call (SetPropertyLimits g_Keyword_Position (minTravelUm_ a) (maxTravelUm_ a)) ;;
  call (CreateProperty g_Keyword_Velocity (PDouble (pfMaxVel a)) MM_Float false (Some H_OnVelocity) false) ;;
  call (CreateProperty g_Keyword_Home (PStr "0") MM_Integer false (Some H_OnHome) false) ;;
  call (SetPropertyLimits g_Keyword_Home (F64.of_Z 0) (F64.of_Z 1)) ;;
  call (CreateProperty g_MinPosProp (PDouble (minTravelUm_ a)) MM_Float false (Some H_OnMinPosUm) false) ;;
  call (SetPropertyLimits g_MinPosProp (pfMinPos_times_1000 a) (pfMaxPos_times_1000 a)) ;;
  call (CreateProperty g_MaxPosProp (PDouble (maxTravelUm_ a)) MM_Float false (Some H_OnMaxPosUm) false) ;;
  call (SetPropertyLimits g_MaxPosProp (pfMinPos_times_1000 a) (pfMaxPos_times_1000 a)) ;;
  ret_ <- CDeviceBase_UpdateStatus w ;;
  stream [LStr "all done"] ;;
  LogIt ;;
  if negb (Z.eqb ret_ DEVICE_OK) then ret ret_
  else
    assign (set_initialized_ true) ;;
    ret DEVICE_OK.

(** *** Construction *)

Definition ERR_UNRECOGNIZED_ANSWER : Z := 10009.
Definition ERR_UNSPECIFIED_ERROR : Z := 10010.
Definition ERR_RESPONSE_TIMEOUT : Z := 10013.
Definition ERR_BUSY : Z := 10014.
Definition ERR_STAGE_NOT_ZEROED : Z := 10016.

(** One entry of the serial-number list that [init] walks with [strtok_s]:
    the token, the serial number [TLI_GetDeviceInfo] reports for it, and
    what [CC_Open] answers. *)
Record DeviceEntry := {
  token : string;
  deviceInfo_serialNo : string;
  CC_Open_result : Z
}.

(** What the Kinesis library answers during [init]. *)
Record Enumeration := {
  TLI_BuildDeviceList_result : Z;
  serialNos : list DeviceEntry
}.

(** The body of the [while (p != NULL)] loop, once per token. *)
Fixpoint enumerate (l : list DeviceEntry) : M unit :=
  match l with
  | [] => ret tt
  | d :: rest =>
      call (TLI_GetDeviceInfo (token d)) ;;
      let serialNO := substring 0 8 (deviceInfo_serialNo d) in
      call (CC_Open serialNO (CC_Open_result d)) ;;
      (if Z.eqb (CC_Open_result d) 0
       then call (CC_StartPolling serialNO 200) ;; call (CC_LoadSettings serialNO)
       else ret tt) ;;
      (* [int i = 0; if (i == 0)] : the test holds in every iteration *)
      call (CreateProperty g_SerialNumberProp (PStr serialNO) MM_String false
              (Some H_OnSerialNumber) true) ;;
      call (AddAllowedValue g_SerialNumberProp (PStr serialNO)) ;;
      enumerate rest
  end.

(** [for (int i = 0; i < chNumber_; i++) AddAllowedValue(g_ChannelProp, i + 1)],
    the [n] iterations from [i] on. *)
Fixpoint add_channels (i : Z) (n : nat) : M unit :=
  match n with
  | O => ret tt
  | S n' =>
      call (AddAllowedValue g_ChannelProp (PLong (i + 1))) ;;
      add_channels (i + 1) n'
  end.

Definition init (e : Enumeration) (deviceName : string) (chNumber : Z) : M unit :=
  assign (set_deviceName_ deviceName) ;;
  assign (set_chNumber_ chNumber) ;;
  call InitializeDefaultErrorMessages ;;
  call (SetErrorText ERR_UNRECOGNIZED_ANSWER) ;;
  call (SetErrorText ERR_UNSPECIFIED_ERROR) ;;
  call (SetErrorText ERR_RESPONSE_TIMEOUT) ;;
  call (SetErrorText ERR_BUSY) ;;
  call (SetErrorText ERR_STAGE_NOT_ZEROED) ;;
  call (CreateProperty g_Keyword_Name (PStr deviceName) MM_String true None false) ;;
  call (CreateProperty g_Keyword_Description (PStr "Thorlabs Stage") MM_String true None false) ;;
  call (CreateFloatProperty g_Keyword_Position (F64.of_Z 0) false (Some H_OnPosition)) ;;
  a <- this ;;
  call (SetPropertyLimits g_Keyword_Position (minTravelUm_ a) (maxTravelUm_ a)) ;;
  call (CreateProperty g_SerialNumberProp (PStr "") MM_Integer false
          (Some H_OnSerialNumber) true) ;;
  call TLI_GetDeviceListSize ;;
  call (TLI_BuildDeviceList (TLI_BuildDeviceList_result e)) ;;
  (if Z.eqb (TLI_BuildDeviceList_result e) 0
   then
     call TLI_GetDeviceListSize ;;
     call (TLI_GetDeviceListByTypeExt 100 83) ;;
     enumerate (serialNos e)
   else ret tt) ;;
  call (CreateProperty g_ChannelProp (PStr "1") MM_Integer false
          (Some H_OnChannelNumber) true) ;;
  a <- this ;;
  add_channels 0 (Z.to_nat (chNumber_ a)) ;;
  assign (set_chNumber_ 1) ;;
  a <- this ;;
  assign (set_pfMinPos (double_to_float (minTravelUm_ a))) ;;
  assign (set_pfMaxPos (double_to_float (maxTravelUm_ a))) ;;
  call (CreateProperty g_MinPosProp (PDouble (minTravelUm_ a)) MM_Float false
          (Some H_OnMinPosUm) true) ;;
  call (CreateProperty g_MinPosProp (PDouble (minTravelUm_ a)) MM_Float false
          (Some H_OnMinPosUm) false) ;;
  call (CreateProperty g_MaxPosProp (PDouble (maxTravelUm_ a)) MM_Float false
          (Some H_OnMaxPosUm) true) ;;
  call (CreateProperty g_MaxPosProp (PDouble (maxTravelUm_ a)) MM_Float false
          (Some H_OnMaxPosUm) false) ;;
  ret tt.

(** The member initialiser list, shared by both constructors.  A member
    the list does not name keeps whatever the storage held ([junk]); so
    does the global [aptInitialized], which construction does not touch.
    [serialNumber_] and [tmpMessage] are default-constructed. *)
Definition initialiser_list (junk : ThorlabsKinesisTCubeServo)
  : ThorlabsKinesisTCubeServo :=
  {| tmpMessage := [];
     deviceName_ := "ThorlabsKinesisTCubeServo";
     chNumber_ := 1;
     serialNumber_ := "";
     stepSizeUm_ := double_0_1;
     initialized_ := false;
     homed_ := false;
     minTravelUm_ := F64.of_Z 0;
     maxTravelUm_ := F64.of_Z 50000;
     curPosUm_ := F32.of_Z 0;
     pfPosition := pfPosition junk;
     newPosition := newPosition junk;
     pfMaxVel := pfMaxVel junk;
     pfAccn := pfAccn junk;
     pfMaxAccn := pfMaxAccn junk;
     pfMinPos := pfMinPos junk;
     pfMaxPos := pfMaxPos junk;
     posUm_ := posUm_ junk;
     aptInitialized := aptInitialized junk |}.

(** [ThorlabsKinesisTCubeServo(std::string deviceName, long chNumber)] *)
Definition construct (junk : ThorlabsKinesisTCubeServo) (e : Enumeration)
    (deviceName : string) (chNumber : Z)
  : unit * ThorlabsKinesisTCubeServo * list Call :=
  init e deviceName chNumber (initialiser_list junk).

(** [ThorlabsKinesisTCubeServo()] *)
Definition construct_default (junk : ThorlabsKinesisTCubeServo) (e : Enumeration)
  : unit * ThorlabsKinesisTCubeServo * list Call :=
  let deviceName := g_ThorlabsDeviceNameTDC001 in
  let chNumber := 1 in
  init e deviceName chNumber (initialiser_list junk).

(** [CreateDevice] of the module interface builds every adapter with
    channel number 1; a null [deviceName] builds none. *)
Definition CreateDevice (junk : ThorlabsKinesisTCubeServo) (e : Enumeration)
    (deviceName : option string)
  : option (ThorlabsKinesisTCubeServo * list Call) :=
  let chNumber := 1 in
  match deviceName with
  | None => None
  | Some deviceName =>
      let r := construct junk e deviceName chNumber in
      Some (object_of r, calls_of r)
  end.

(** ** The operations a host can invoke on a constructed adapter

    The public member functions, and the private [Home], [GetVelParam] and
    [SetVelParam] that the handlers reach. *)
Inductive Operation :=
| op_Initialize
| op_Shutdown
| op_destroy
| op_GetName
| op_Busy
| op_SetPositionUm (posUm : double)
| op_SetPositionUmContinuous (posUm : double)
| op_GetPositionUm
| op_SetPositionSteps (steps : Z)
| op_GetPositionSteps (steps : Z)
| op_SetOrigin
| op_GetLimits
| op_SetLimits (min max : double)
| op_IsStageSequenceable
| op_IsContinuousFocusDrive
| op_OnSerialNumber (value : string) (eAct : ActionType)
| op_OnChannelNumber (value : Z) (eAct : ActionType)
| op_OnMinPosUm (value : double) (eAct : ActionType)
| op_OnMaxPosUm (value : double) (eAct : ActionType)
| op_OnPosition (value : double) (eAct : ActionType)
| op_OnVelocity (value : double) (eAct : ActionType)
| op_OnHome (value : Z) (eAct : ActionType)
| op_Home
| op_GetVelParam
| op_SetVelParam (vel : double).

(** Running one operation: the object afterwards and the calls made. *)
Definition run (w : Responses) (o : Operation) (a : ThorlabsKinesisTCubeServo)
  : ThorlabsKinesisTCubeServo * list Call :=
  let drop {A : Type} (r : A * ThorlabsKinesisTCubeServo * list Call) :=
    (object_of r, calls_of r) in
  match o with
  | op_Initialize => drop (Initialize w a)
  | op_Shutdown => drop (Shutdown a)
  | op_destroy => drop (destroy a)
  | op_GetName => drop (GetName a)
  | op_Busy => drop (Busy w a)
  | op_SetPositionUm posUm => drop (SetPositionUm posUm a)
  | op_SetPositionUmContinuous posUm => drop (SetPositionUmContinuous posUm a)
  | op_GetPositionUm => drop (GetPositionUm w a)
  | op_SetPositionSteps steps => drop (SetPositionSteps steps a)
  | op_GetPositionSteps steps => drop (GetPositionSteps steps a)
  | op_SetOrigin => drop (SetOrigin a)
  | op_GetLimits => drop (GetLimits a)
  | op_SetLimits min max => drop (SetLimits min max a)
  | op_IsStageSequenceable => drop (IsStageSequenceable a)
  | op_IsContinuousFocusDrive => drop (IsContinuousFocusDrive a)
  | op_OnSerialNumber value eAct => drop (OnSerialNumber value eAct a)
  | op_OnChannelNumber value eAct => drop (OnChannelNumber value eAct a)
  | op_OnMinPosUm value eAct => drop (OnMinPosUm value eAct a)
  | op_OnMaxPosUm value eAct => drop (OnMaxPosUm value eAct a)
  | op_OnPosition value eAct => drop (OnPosition w value eAct a)
  | op_OnVelocity value eAct => drop (OnVelocity w value eAct a)
  | op_OnHome value eAct => drop (OnHome w value eAct a)
  | op_Home => drop (Home w a)
  | op_GetVelParam => drop (GetVelParam w a)
  | op_SetVelParam vel => drop (SetVelParam vel a)
  end.

(** A history: operations in order, each with the answers it received. *)
Fixpoint run_all (h : list (Responses * Operation)) (a : ThorlabsKinesisTCubeServo)
  : ThorlabsKinesisTCubeServo :=
  match h with
  | [] => a
  | (w, o) :: rest => run_all rest (fst (run w o a))
  end.

(** The states a constructed adapter can be in. *)
Inductive reachable : ThorlabsKinesisTCubeServo -> Prop :=
| reachable_construct junk e deviceName chNumber :
    reachable (object_of (construct junk e deviceName chNumber))
| reachable_construct_default junk e :
    reachable (object_of (construct_default junk e))
| reachable_run w o a :
    reachable a -> reachable (fst (run w o a)).

Local Close Scope string_scope.

(** * Vocabulary of the properties *)

(** ** Concrete adapters and answers, for evaluation *)

(** Storage holding zeros and empty strings before construction. *)
Definition zeroed : ThorlabsKinesisTCubeServo :=
  {| tmpMessage := []; deviceName_ := EmptyString; chNumber_ := 0;
     serialNumber_ := EmptyString; stepSizeUm_ := S754_zero false;
     initialized_ := false; homed_ := false;
     minTravelUm_ := S754_zero false; maxTravelUm_ := S754_zero false;
     curPosUm_ := S754_zero false; pfPosition := S754_zero false;
     newPosition := S754_zero false; pfMaxVel := S754_zero false;
     pfAccn := 0; pfMaxAccn := S754_zero false;
     pfMinPos := S754_zero false; pfMaxPos := S754_zero false;
     posUm_ := S754_zero false; aptInitialized := false |}.

(** No device attached. *)
Definition no_devices : Enumeration :=
  {| TLI_BuildDeviceList_result := 0; serialNos := [] |}.

(** The adapter right after its default constructor. *)
Definition fresh : ThorlabsKinesisTCubeServo :=
  object_of (construct_default zeroed no_devices).

(** A device at position [counts] that reports [canHome]. *)
Definition device_at (counts : Z) (canHome : bool) : Responses :=
  {| CC_GetMotorVelocityLimits_maxVelocity := F64.of_Z 2;
     CC_GetMotorVelocityLimits_maxAcceleration := F64.of_Z 1;
     CC_GetPosition_result := counts;
     CC_GetStatusBits_result := 0;
     CC_CanHome_result := canHome;
     UpdateStatus_result := DEVICE_OK |}.

(** The adapter after [SetLimits(10, 5)]: lower limit above upper limit. *)
Definition inverted : ThorlabsKinesisTCubeServo :=
  object_of (SetLimits (F64.of_Z 10) (F64.of_Z 5) fresh).

(** The adapter after [SetLimits(10, 100)]. *)
Definition narrowed : ThorlabsKinesisTCubeServo :=
  object_of (SetLimits (F64.of_Z 10) (F64.of_Z 100) fresh).

(** The adapter after a [Home] during which the device reported that it
    cannot home: the flag is set. *)
Definition homed_adapter : ThorlabsKinesisTCubeServo :=
  object_of (Home (device_at 0 false) fresh).

(** ** Home *)

(** The sentence of the specification about [Home()]: afterwards the homed
    flag is true if the device reports that it cannot home and false if it
    reports that it can. *)
Definition Home_as_specified (w : Responses) (a : ThorlabsKinesisTCubeServo) : Prop :=
  (CC_CanHome_result w = false -> homed_ (object_of (Home w a)) = true) /\
  (CC_CanHome_result w = true -> homed_ (object_of (Home w a)) = false).

(** ** SetPositionUm *)

(** The position in micrometres that [SetPositionUmFlag] hands on: the
    argument after the [if / else if] on the two limits. *)
Definition clamped (a : ThorlabsKinesisTCubeServo) (p : double) : double :=
  if F64.ltb p (minTravelUm_ a) then minTravelUm_ a
  else if F64.gtb p (maxTravelUm_ a) then maxTravelUm_ a
  else p.

(** The sentence of the specification, read on the code: the target in
    micrometres of the move is the cached position [curPosUm_], from which
    the encoder counts of the move are computed; it is compared with the
    [double] limits and argument after widening, as C++ compares a [float]
    with a [double]. *)
Definition SetPositionUm_as_specified (a : ThorlabsKinesisTCubeServo) (p : double) : Prop :=
  let r := SetPositionUm p a in
  let target := float_to_double (curPosUm_ (object_of r)) in
  (F64.ltb p (minTravelUm_ a) = true -> target = minTravelUm_ a) /\
  (F64.gtb p (maxTravelUm_ a) = true -> target = maxTravelUm_ a) /\
  (F64.leb (minTravelUm_ a) p = true /\ F64.leb p (maxTravelUm_ a) = true ->
   target = p) /\
  In (CC_MoveToPosition (serialNumber_ a) (newPosition (object_of r))) (calls_of r) /\
  value_of r = DEVICE_OK.

(** What the code does: the argument is clamped in [double], the cached
    position is the clamped value narrowed to [float], and the move is
    issued at that value divided by 1000 and multiplied by 34304 in
    [float]. *)
Definition SetPositionUm_by_design (a : ThorlabsKinesisTCubeServo) (p : double) : Prop :=
  let r := SetPositionUm p a in
  exists c : double,
    (F64.ltb p (minTravelUm_ a) = true -> c = minTravelUm_ a) /\
    (F64.gtb p (maxTravelUm_ a) = true -> c = maxTravelUm_ a) /\
    (F64.leb (minTravelUm_ a) p = true /\ F64.leb p (maxTravelUm_ a) = true ->
     c = p) /\
    curPosUm_ (object_of r) = double_to_float c /\
    newPosition (object_of r) =
      F32.mul (F32.div (double_to_float c) (F32.of_Z 1000)) (F32.of_Z 34304) /\
    (exists msg,
       calls_of r =
       [CC_MoveToPosition (serialNumber_ a) (newPosition (object_of r));
        OnStagePositionChanged (float_to_double (double_to_float c));
        LogMessage msg]) /\
    minTravelUm_ (object_of r) = minTravelUm_ a /\
    maxTravelUm_ (object_of r) = maxTravelUm_ a /\
    value_of r = DEVICE_OK.

(** ** Unit conversion *)

(** Micrometres to encoder counts, the expression
    [(float)curPosUm_ / 1000 * 34304] of [SetPositionUmFlag]. *)
Definition um_to_counts (posUm : float) : float :=
  F32.mul (F32.div posUm (F32.of_Z 1000)) (F32.of_Z 34304).

(** Encoder counts to micrometres, the expression
    [(double)pfPosition / 34304 * 1000] of [GetPositionUm], as stored in the
    [float] member [curPosUm_]. *)
Definition counts_to_um (pfPosition : float) : float :=
  double_to_float
    (F64.mul (F64.div (float_to_double pfPosition) (F64.of_Z 34304)) (F64.of_Z 1000)).

(** Micrometres to counts and back, from a [double] position: the two
    expressions composed as the specification composes them, the counts
    staying a [float].  In the adapter the counts leave through
    [CC_MoveToPosition] and come back from [CC_GetPosition] as an [int];
    that path is [GetPositionUm] on the count the device reports. *)
Definition round_trip (p : double) : double :=
  float_to_double (counts_to_um (um_to_counts (double_to_float p))).

(** The distance between the round trip of [p] and [p], in [double]. *)
Definition round_trip_error (p : double) : double :=
  SFabs (SFsub F64.prec F64.emax (round_trip p) p).

(** [round_trip_error] is at most [tol] at each of the [n] positions
    [z], [z + step], [z + 2 * step], ... micrometres. *)
Fixpoint within_on_grid (tol : double) (step : Z) (n : nat) (z : Z) : bool :=
  match n with
  | O => true
  | S n' => F64.leb (round_trip_error (F64.of_Z z)) tol
            && within_on_grid tol step n' (z + step)
  end.

(** 10^38, a [double] below the largest [float]. *)
Definition double_1e38 : double := F64.of_Z (10 ^ 38).

(** The adapter after [SetLimits(0, 1e38)]. *)
Definition widened : ThorlabsKinesisTCubeServo :=
  object_of (SetLimits (F64.of_Z 0) double_1e38 fresh).

(** ** Properties that member functions keep *)

(** [keeps P c]: if the object satisfies [P] before the call [c], it does
    after it. *)
Definition keeps (P : ThorlabsKinesisTCubeServo -> Prop) {A : Type} (c : M A) : Prop :=
  forall a, P a -> P (object_of (c a)).

(** Both limits have given values. *)
Definition limits_are (min max : double) (a : ThorlabsKinesisTCubeServo) : Prop :=
  minTravelUm_ a = min /\ maxTravelUm_ a = max.

(** [minTravelUm_ <= maxTravelUm_], with the comparison of C++. *)
Definition limits_ordered (a : ThorlabsKinesisTCubeServo) : Prop :=
  F64.leb (minTravelUm_ a) (maxTravelUm_ a) = true.

(** The operations that assign a travel limit: [SetLimits], the handlers
    of the two limit properties, and [Initialize], whose [UpdateStatus]
    runs these handlers. *)
Definition writes_limits (o : Operation) : bool :=
  match o with
  | op_SetLimits _ _ | op_OnMinPosUm _ _ | op_OnMaxPosUm _ _ | op_Initialize => true
  | _ => false
  end.

(** The homed flag is set. *)
Definition homed (a : ThorlabsKinesisTCubeServo) : Prop := homed_ a = true.

(** The flag has a given value. *)
Definition homed_is (v : bool) (a : ThorlabsKinesisTCubeServo) : Prop :=
  homed_ a = v.

(** The operations that reach the private [Home]. *)
Definition invokes_Home (o : Operation) : bool :=
  match o with
  | op_Home | op_OnHome _ AfterSet => true
  | _ => false
  end.


(** ** Vocabulary of the further properties *)

(** The value is a NaN. *)
Definition is_nan (x : spec_float) : bool :=
  match x with
  | S754_nan => true
  | _ => false
  end.

(** The status code an operation returns, for the operations that return
    one ([GetName], [Busy], [IsContinuousFocusDrive] and the destructor do
    not). *)
Definition status (w : Responses) (o : Operation) (a : ThorlabsKinesisTCubeServo)
  : option Z :=
  match o with
  | op_Initialize => Some (value_of (Initialize w a))
  | op_Shutdown => Some (value_of (Shutdown a))
  | op_destroy => None
  | op_GetName => None
  | op_Busy => None
  | op_SetPositionUm posUm => Some (value_of (SetPositionUm posUm a))
  | op_SetPositionUmContinuous posUm => Some (value_of (SetPositionUmContinuous posUm a))
  | op_GetPositionUm => Some (fst (value_of (GetPositionUm w a)))
  | op_SetPositionSteps steps => Some (value_of (SetPositionSteps steps a))
  | op_GetPositionSteps steps => Some (fst (value_of (GetPositionSteps steps a)))
  | op_SetOrigin => Some (value_of (SetOrigin a))
  | op_GetLimits => Some (fst (fst (value_of (GetLimits a))))
  | op_SetLimits min max => Some (value_of (SetLimits min max a))
  | op_IsStageSequenceable => Some (fst (value_of (IsStageSequenceable a)))
  | op_IsContinuousFocusDrive => None
  | op_OnSerialNumber value eAct => Some (value_of (OnSerialNumber value eAct a))
  | op_OnChannelNumber value eAct => Some (value_of (OnChannelNumber value eAct a))
  | op_OnMinPosUm value eAct => Some (value_of (OnMinPosUm value eAct a))
  | op_OnMaxPosUm value eAct => Some (value_of (OnMaxPosUm value eAct a))
  | op_OnPosition value eAct => Some (value_of (OnPosition w value eAct a))
  | op_OnVelocity value eAct => Some (value_of (OnVelocity w value eAct a))
  | op_OnHome value eAct => Some (value_of (OnHome w value eAct a))
  | op_Home => Some (value_of (Home w a))
  | op_GetVelParam => Some (fst (value_of (GetVelParam w a)))
  | op_SetVelParam vel => Some (value_of (SetVelParam vel a))
  end.

(** The [if / else if] of the two limit handlers on a value [v]: the
    hardware bounds [pfMinPos * 1000] and [pfMaxPos * 1000] of the adapter
    [a], upper bound first. *)
Definition limited (a : ThorlabsKinesisTCubeServo) (v : double) : double :=
  if F64.gtb v (pfMaxPos_times_1000 a) then pfMaxPos_times_1000 a
  else if F64.ltb v (pfMinPos_times_1000 a) then pfMinPos_times_1000 a
  else v.

(** [leads P Q c]: if the object satisfies [P] before the call [c], it
    satisfies [Q] after it. *)
Definition leads (P Q : ThorlabsKinesisTCubeServo -> Prop) {A : Type} (c : M A) : Prop :=
  forall a, P a -> Q (object_of (c a)).

(** The hardware bounds and the travel limits have given values. *)
Definition limits_and_bounds (lo hi : float) (min max : double)
    (a : ThorlabsKinesisTCubeServo) : Prop :=
  pfMinPos a = lo /\ pfMaxPos a = hi /\ minTravelUm_ a = min /\ maxTravelUm_ a = max.

(** The members no operation assigns have given values: the two hardware
    position bounds and the acceleration. *)
Definition hardware_is (lo hi : float) (accn : Z) (a : ThorlabsKinesisTCubeServo) : Prop :=
  pfMinPos a = lo /\ pfMaxPos a = hi /\ pfAccn a = accn.

(** The serial number has a given value. *)
Definition serial_is (s : string) (a : ThorlabsKinesisTCubeServo) : Prop :=
  serialNumber_ a = s.

(** The operations that assign the serial number. *)
Definition writes_serial (o : Operation) : bool :=
  match o with
  | op_OnSerialNumber _ AfterSet => true
  | _ => false
  end.

(** [returns Q c]: whatever the object, the value the call [c] returns
    satisfies [Q]. *)
Definition returns {A : Type} (Q : A -> Prop) (c : M A) : Prop :=
  forall a, Q (value_of (c a)).

(** The calls that address one device of the enumeration. *)
Definition is_device_call (c : Call) : bool :=
  match c with
  | TLI_GetDeviceInfo _ | CC_Open _ _ | CC_StartPolling _ _ | CC_LoadSettings _ => true
  | _ => false
  end.

(** [emits Q c]: whatever the object, every call the member function [c]
    makes satisfies [Q]. *)
Definition emits {A : Type} (Q : Call -> Prop) (c : M A) : Prop :=
  forall a, Forall Q (calls_of (c a)).

(** ** Concrete inputs of the further properties *)

(** One attached device, whose reported serial number has twelve
    characters and which opens. *)
Definition one_device : Enumeration :=
  {| TLI_BuildDeviceList_result := 0;
     serialNos := [ {| token := "83841234"%string;
                       deviceInfo_serialNo := "838412345678"%string;
                       CC_Open_result := 0 |} ] |}.

(** The adapter after [SetLimits(-10, 100)]. *)
Definition lowered : ThorlabsKinesisTCubeServo :=
  fst (run (device_at 0 true) (op_SetLimits (F64.of_Z (-10)) (F64.of_Z 100)) fresh).

(** The adapter after [SetLimits(-50000, 50000)]. *)
Definition symmetric : ThorlabsKinesisTCubeServo :=
  object_of (SetLimits (F64.of_Z (-50000)) (F64.of_Z 50000) fresh).

(** ** Real values of the numbers *)

(** [2 ^ e] as a real number. *)
Definition bpow (e : Z) : R := powerRZ 2 e.

(** The real number a finite [float] or [double] stands for; a zero stands
    for 0. *)
Definition real_value (x : spec_float) : R :=
  match x with
  | S754_finite s m e => ((if s then -1 else 1) * IZR (Zpos m) * bpow e)%R
  | _ => 0%R
  end.

(** [x] with the sign [s]. *)
Definition signed (s : bool) (x : R) : R := if s then (- x)%R else x.

(** A zero, or a finite number whose mantissa has at least the digits of
    the format, unless its exponent is the smallest one: the numbers the
    operations of the format produce. *)
Definition well_formed (prec emax : Z) (x : spec_float) : Prop :=
  match x with
  | S754_zero _ => True
  | S754_finite _ m e => e <= fexp prec emax (Zdigits2 (Zpos m) + e)
  | _ => False
  end.

(** [r] is a number of the format near the real number [X]: within
    [6 * 2^-prec] of it in proportion, or within [3 * 2^emin]. *)
Definition rounds_to (prec emax : Z) (X : R) (r : spec_float) : Prop :=
  well_formed prec emax r /\
  (Rabs (real_value r - X)
   <= 6 * bpow (- prec) * Rabs X + 3 * bpow (emin prec emax))%R.

(** Neither an infinity nor a NaN. *)
Definition is_finite (x : spec_float) : bool :=
  match x with
  | S754_zero _ | S754_finite _ _ _ => true
  | _ => false
  end.

(** The sentence of the specification about the round trip, for a
    tolerance that may be read as absolute or as relative: in every
    reachable state, every position within the limits is recovered within
    the tolerance by the conversion to counts of [SetPositionUmFlag]
    followed by the conversion to micrometres of [GetPositionUm]. *)
Definition round_trip_as_specified (tolerance : R) : Prop :=
  forall (a : ThorlabsKinesisTCubeServo) (p : double),
    reachable a ->
    F64.valid p = true ->
    F64.leb (minTravelUm_ a) p = true ->
    F64.leb p (maxTravelUm_ a) = true ->
    is_finite (round_trip p) = true /\
    (Rabs (real_value (round_trip p) - real_value p)
     <= tolerance * (1 + Rabs (real_value p)))%R.

(** * Properties *)

(** ** The order of the C++ comparison operators *)

(** Exchanging the operands of a comparison reverses its outcome. *)
Lemma SFcompare_swap (x y : spec_float) :
  SFcompare y x = option_map CompOpp (SFcompare x y).
Proof.
  destruct x as [sx|sx| |sx mx ex], y as [sy|sy| |sy my ey]; simpl;
    try reflexivity;
    try (destruct sx; reflexivity);
    try (destruct sy; reflexivity);
    try (destruct sx, sy; reflexivity).
  change (Pos.compare_cont Eq my mx) with (Pos.compare my mx).
  change (Pos.compare_cont Eq mx my) with (Pos.compare mx my).
  rewrite (Z.compare_antisym ex ey), (Pos.compare_antisym mx my).
  destruct sx, sy; simpl; try reflexivity;
    destruct (ex ?= ey); simpl; try reflexivity;
    destruct (mx ?= my)%positive; reflexivity.
Qed.

(** [x <= y] excludes [y < x]. *)
Lemma leb_not_gtb (x y : double) :
  F64.leb x y = true -> F64.ltb y x = false.
Proof.
  unfold F64.leb, F64.ltb, SFleb, SFltb.
  rewrite (SFcompare_swap x y).
  destruct (SFcompare x y) as [[ | | ]|]; simpl; congruence.
Qed.

(** [x <= y] excludes [x > y]. *)
Lemma leb_not_above (x y : double) :
  F64.leb x y = true -> F64.gtb x y = false.
Proof. exact (leb_not_gtb x y). Qed.

(** Comparison outcomes compose: [x <= y] and [y < z] give [x < z]. *)
Lemma leb_ltb_trans (x y z : double) :
  F64.leb x y = true -> F64.ltb y z = true -> F64.ltb x z = true.
Proof.
  unfold F64.leb, F64.ltb, SFleb, SFltb.
  destruct x as [sx|sx| |sx mx ex], y as [sy|sy| |sy my ey],
           z as [sz|sz| |sz mz ez]; simpl;
    try discriminate; try reflexivity;
    try (destruct sx; simpl; congruence);
    try (destruct sy; simpl; congruence);
    try (destruct sz; simpl; congruence);
    try (destruct sx, sy; simpl; congruence);
    try (destruct sx, sz; simpl; congruence);
    try (destruct sy, sz; simpl; congruence);
    try (destruct sx, sy, sz; simpl; congruence).
  change (Pos.compare_cont Eq mx my) with (Pos.compare mx my).
  change (Pos.compare_cont Eq my mz) with (Pos.compare my mz).
  change (Pos.compare_cont Eq mx mz) with (Pos.compare mx mz).
  destruct sx, sy, sz; simpl; try congruence;
    destruct (Z.compare_spec ex ey), (Z.compare_spec ey ez),
             (Z.compare_spec ex ez); try lia; try congruence;
    destruct (Pos.compare_spec mx my), (Pos.compare_spec my mz),
             (Pos.compare_spec mx mz); simpl; try lia; congruence.
Qed.

(** With [min <= max], a value above [max] is not below [min]. *)
Lemma above_max_not_below_min (min max p : double) :
  F64.leb min max = true -> F64.gtb p max = true -> F64.ltb p min = false.
Proof.
  intros Hle Hgt. unfold F64.gtb in Hgt.
  pose proof (leb_ltb_trans _ _ _ Hle Hgt) as Hlt.
  destruct (F64.ltb p min) eqn:E; [|reflexivity].
  unfold F64.ltb, SFltb in *. rewrite (SFcompare_swap min p) in E.
  destruct (SFcompare min p) as [[ | | ]|]; simpl in *; congruence.
Qed.

(** [x < y] and [y <= z] give [x < z]. *)
Lemma ltb_leb_trans (x y z : double) :
  F64.ltb x y = true -> F64.leb y z = true -> F64.ltb x z = true.
Proof.
  unfold F64.leb, F64.ltb, SFleb, SFltb.
  destruct x as [sx|sx| |sx mx ex], y as [sy|sy| |sy my ey],
           z as [sz|sz| |sz mz ez]; simpl;
    try discriminate; try reflexivity;
    try (destruct sx; simpl; congruence);
    try (destruct sy; simpl; congruence);
    try (destruct sz; simpl; congruence);
    try (destruct sx, sy; simpl; congruence);
    try (destruct sx, sz; simpl; congruence);
    try (destruct sy, sz; simpl; congruence);
    try (destruct sx, sy, sz; simpl; congruence).
  change (Pos.compare_cont Eq mx my) with (Pos.compare mx my).
  change (Pos.compare_cont Eq my mz) with (Pos.compare my mz).
  change (Pos.compare_cont Eq mx mz) with (Pos.compare mx mz).
  destruct sx, sy, sz; simpl; try congruence;
    destruct (Z.compare_spec ex ey), (Z.compare_spec ey ez),
             (Z.compare_spec ex ez); try lia; try congruence;
    destruct (Pos.compare_spec mx my), (Pos.compare_spec my mz),
             (Pos.compare_spec mx mz); simpl; try lia; congruence.
Qed.

(** ** Reading the outcome of a call *)

Lemma bind_run {A B : Type} (c : M A) (k : A -> M B) (a : ThorlabsKinesisTCubeServo) :
  bind c k a =
  (value_of (k (value_of (c a)) (object_of (c a))),
   object_of (k (value_of (c a)) (object_of (c a))),
   calls_of (c a) ++ calls_of (k (value_of (c a)) (object_of (c a)))).
Proof.
  unfold bind, value_of, object_of, calls_of.
  destruct (c a) as [[x a1] t1]; simpl.
  destruct (k x a1) as [[y a2] t2]; reflexivity.
Qed.

Lemma object_of_bind {A B : Type} (c : M A) (k : A -> M B) (a : ThorlabsKinesisTCubeServo) :
  object_of (bind c k a) = object_of (k (value_of (c a)) (object_of (c a))).
Proof. rewrite bind_run. reflexivity. Qed.

(** ** SetPositionUm: clamping into the travel range *)

(** Everything [SetPositionUm] does, in terms of [clamped]. *)
Lemma SetPositionUm_run (a : ThorlabsKinesisTCubeServo) (p : double) :
  let c := double_to_float (clamped a p) in
  let counts := F32.mul (F32.div c (F32.of_Z 1000)) (F32.of_Z 34304) in
  SetPositionUm p a =
  (DEVICE_OK,
   set_tmpMessage
     [LStr (deviceName_ a); LStr "-"; LStr (serialNumber_ a); LStr " "]
     (set_newPosition counts (set_curPosUm_ c a)),
   [CC_MoveToPosition (serialNumber_ a) counts;
    OnStagePositionChanged (float_to_double c);
    LogMessage (tmpMessage a ++
                [LStr "SetPositionUm:"; LDouble (clamped a p);
                 LStr " continuousFlag:"; LLong 1])]).
Proof. reflexivity. Qed.

(** C1, as stated, fails twice.  With limits [10, 5] the position 7 is
    above the upper limit, yet the move goes to the lower limit 10, which
    the first test of the [if / else if] selects.  With the constructor's
    limits [0, 50000] the position 0.1 is in range, yet the cached position
    is the [float] nearest to 0.1, which is not 0.1. *)
Lemma SetPositionUm_as_specified_fails :
  ~ SetPositionUm_as_specified inverted (F64.of_Z 7) /\
  ~ SetPositionUm_as_specified fresh double_0_1.
Proof.
  split.
  - intros (_ & Hmax & _).
    specialize (Hmax eq_refl). vm_compute in Hmax. discriminate Hmax.
  - intros (_ & _ & Hin & _).
    specialize (Hin (conj eq_refl eq_refl)). vm_compute in Hin. discriminate Hin.
Qed.

(** C1, amended: when the limits are ordered, [SetPositionUm p] clamps [p]
    to the lower limit if it is below it, to the upper limit if it is above
    it, and leaves it if it is within; the cached position becomes the
    clamped value narrowed to single precision, the move is issued at the
    encoder counts computed from it, the limits are unchanged and the call
    returns [DEVICE_OK]. *)
Theorem SetPositionUm_clamps (a : ThorlabsKinesisTCubeServo) (p : double) :
  F64.leb (minTravelUm_ a) (maxTravelUm_ a) = true ->
  SetPositionUm_by_design a p.
Proof.
  intros Hord. unfold SetPositionUm_by_design.
  rewrite SetPositionUm_run. cbv zeta.
  unfold value_of, object_of, calls_of; simpl.
  exists (clamped a p). unfold clamped.
  repeat split.
  - intros ->. reflexivity.
  - intros Hgt. rewrite (above_max_not_below_min _ _ _ Hord Hgt), Hgt.
    reflexivity.
  - intros [Hlo Hhi].
    rewrite (leb_not_gtb _ _ Hlo), (leb_not_above _ _ Hhi). reflexivity.
  - eexists. reflexivity.
Qed.

Lemma SetPositionUm_clamps_witness :
  F64.leb (minTravelUm_ fresh) (maxTravelUm_ fresh) = true /\
  SetPositionUm_by_design fresh (F64.of_Z 60000).
Proof.
  split; [reflexivity | apply (SetPositionUm_clamps fresh (F64.of_Z 60000)); reflexivity].
Defined.

(** ** Home: the homed flag *)

(** A first [Home]: the library is asked whether the device can home, and
    the flag becomes the negation of its answer. *)
Lemma Home_not_yet_homed (w : Responses) (a : ThorlabsKinesisTCubeServo) :
  homed_ a = false ->
  Home w a =
  (DEVICE_OK, set_homed_ (negb (CC_CanHome_result w)) a,
   [CC_Home (serialNumber_ a);
    CC_CanHome (serialNumber_ a) (CC_CanHome_result w)]).
Proof.
  intros H. unfold Home, bind, this, call, assign, ret; simpl. rewrite H.
  destruct (CC_CanHome_result w); reflexivity.
Qed.

(** [Home] on a homed adapter: the home command is sent, nothing is asked,
    nothing changes. *)
Lemma Home_already_homed (w : Responses) (a : ThorlabsKinesisTCubeServo) :
  homed_ a = true ->
  Home w a = (DEVICE_OK, a, [CC_Home (serialNumber_ a)]).
Proof.
  intros H. unfold Home, bind, this, call, assign, ret; simpl. rewrite H.
  reflexivity.
Qed.

(** C3, as stated, fails on an adapter that is already homed: [Home()]
    returns before it asks the library, so the flag stays true although the
    device reports that it can home.  The state is reached from a new
    adapter by one [Home()] on a device that cannot home. *)
Lemma Home_as_specified_fails :
  reachable homed_adapter /\
  homed_ homed_adapter = true /\
  CC_CanHome_result (device_at 0 true) = true /\
  homed_ (object_of (Home (device_at 0 true) homed_adapter)) = true /\
  ~ Home_as_specified (device_at 0 true) homed_adapter.
Proof.
  split; [ | split; [reflexivity | split; [reflexivity | split; [reflexivity | ]]]].
  - exact (reachable_run (device_at 0 false) op_Home fresh
             (reachable_construct_default zeroed no_devices)).
  - intros [_ H]. specialize (H eq_refl). discriminate H.
Qed.

(** C3, amended: on an adapter whose homed flag is false, [Home()] sends
    the home command, asks the library once whether the device can home,
    and leaves the flag at the negation of the answer: true if [CC_CanHome]
    returned false, false if it returned true.  On an adapter whose flag is
    true, [Home()] sends the home command, does not ask, and leaves the
    flag true whatever the device would answer.  It returns [DEVICE_OK] in
    both cases. *)
Theorem Home_flag_policy (w : Responses) (a : ThorlabsKinesisTCubeServo) :
  (homed_ a = false ->
   (CC_CanHome_result w = false -> homed_ (object_of (Home w a)) = true) /\
   (CC_CanHome_result w = true -> homed_ (object_of (Home w a)) = false) /\
   calls_of (Home w a) =
     [CC_Home (serialNumber_ a);
      CC_CanHome (serialNumber_ a) (CC_CanHome_result w)]) /\
  (homed_ a = true ->
   homed_ (object_of (Home w a)) = true /\
   calls_of (Home w a) = [CC_Home (serialNumber_ a)]) /\
  value_of (Home w a) = DEVICE_OK.
Proof.
  destruct (homed_ a) eqn:Hh.
  - rewrite (Home_already_homed w a Hh).
    split; [discriminate | split; [ | reflexivity]].
    intros _. split; [exact Hh | reflexivity].
  - rewrite (Home_not_yet_homed w a Hh).
    split; [ | split; [discriminate | reflexivity]].
    intros _. unfold object_of, calls_of; simpl.
    repeat split; intros ->; reflexivity.
Qed.

Lemma Home_flag_policy_witness :
  homed_ fresh = false /\
  CC_CanHome_result (device_at 0 true) = true /\
  homed_ (object_of (Home (device_at 0 true) fresh)) = false.
Proof.
  split; [reflexivity | split; [reflexivity | ]].
  exact (proj1 (proj2 (proj1 (Home_flag_policy (device_at 0 true) fresh) eq_refl))
           eq_refl).
Defined.

(** ** Limits *)

(** C4: [GetLimits] after [SetLimits(a, b)] returns exactly [(a, b)], and
    both calls return [DEVICE_OK]. *)
Theorem GetLimits_after_SetLimits (a : ThorlabsKinesisTCubeServo) (min max : double) :
  value_of (SetLimits min max a) = DEVICE_OK /\
  value_of (GetLimits (object_of (SetLimits min max a))) = (DEVICE_OK, min, max).
Proof. split; reflexivity. Qed.

(** ** Shutdown *)

Lemma Shutdown_run (a : ThorlabsKinesisTCubeServo) :
  Shutdown a = (DEVICE_OK, set_initialized_ false a, [CC_Close (serialNumber_ a)]).
Proof.
  unfold Shutdown, bind, this, call, assign, ret; simpl.
  destruct a as [? ? ? ? ? ini ? ? ? ? ? ? ? ? ? ? ? ? ?]; simpl.
  destruct ini; reflexivity.
Qed.

(** C6: [Shutdown()] returns [DEVICE_OK] and leaves [initialized_] false,
    whatever the state it starts in, and so does a second [Shutdown()]
    right after it. *)
Theorem Shutdown_twice (a : ThorlabsKinesisTCubeServo) :
  value_of (Shutdown a) = DEVICE_OK /\
  initialized_ (object_of (Shutdown a)) = false /\
  value_of (Shutdown (object_of (Shutdown a))) = DEVICE_OK /\
  initialized_ (object_of (Shutdown (object_of (Shutdown a)))) = false.
Proof. rewrite !Shutdown_run. repeat split. Qed.

(** ** Unsupported operations *)

(** C7 on the code: [SetOrigin] returns [DEVICE_UNSUPPORTED_COMMAND], but
    [SetPositionSteps] and [GetPositionSteps] return [DEVICE_OK], a
    different status; [SetPositionSteps] changes nothing, and
    [GetPositionSteps] stores its argument in [stepSizeUm_] and returns
    the argument as it came. *)
Theorem steps_operations_report_success (a : ThorlabsKinesisTCubeServo) (steps : Z) :
  SetOrigin a = (DEVICE_UNSUPPORTED_COMMAND, a, []) /\
  SetPositionSteps steps a = (DEVICE_OK, a, []) /\
  GetPositionSteps steps a =
    ((DEVICE_OK, steps), set_stepSizeUm_ (F64.of_Z steps) a, []) /\
  DEVICE_OK <> DEVICE_UNSUPPORTED_COMMAND.
Proof. repeat split. discriminate. Qed.

(** ** Velocity *)

(** C8: [SetVelParam] does not depend on its argument: for any two
    arguments and one starting state it makes the same call, with the
    cached [pfAccn] and [pfMaxVel], leaves the same state (the one it
    started in) and returns [DEVICE_OK]. *)
Theorem SetVelParam_ignores_vel (a : ThorlabsKinesisTCubeServo) (vel1 vel2 : double) :
  SetVelParam vel1 a = SetVelParam vel2 a /\
  SetVelParam vel1 a =
    (DEVICE_OK, a, [CC_SetVelParams (serialNumber_ a) (pfAccn a) (pfMaxVel a)]).
Proof. split; reflexivity. Qed.

(** ** Continuous positioning *)

(** C9: [SetPositionUmContinuous(p)] and [SetPositionUm(p)] are the same
    function of the state: same return value, same state afterwards, same
    calls (the move, the position notification and the log line). *)
Theorem SetPositionUmContinuous_is_SetPositionUm
    (a : ThorlabsKinesisTCubeServo) (p : double) :
  SetPositionUmContinuous p a = SetPositionUm p a.
Proof. reflexivity. Qed.

(** ** Rules for [keeps]

    The rules follow the structure of the monad; a member function is
    handled by unfolding it, unless a lemma about it is in the hint
    database [keeps]. *)

Section Keeps.

Variable P : ThorlabsKinesisTCubeServo -> Prop.

Lemma keeps_ret {A : Type} (x : A) : keeps P (ret x).
Proof. intros a H. exact H. Qed.

Lemma keeps_this : keeps P this.
Proof. intros a H. exact H. Qed.

Lemma keeps_call (c : Call) : keeps P (call c).
Proof. intros a H. exact H. Qed.

Lemma keeps_assign (g : ThorlabsKinesisTCubeServo -> ThorlabsKinesisTCubeServo) :
  (forall a, P a -> P (g a)) -> keeps P (assign g).
Proof. intros Hg a H. exact (Hg a H). Qed.

Lemma keeps_bind {A B : Type} (c : M A) (k : A -> M B) :
  keeps P c -> (forall x, keeps P (k x)) -> keeps P (bind c k).
Proof.
  intros Hc Hk a H. rewrite object_of_bind. apply Hk, Hc, H.
Qed.

End Keeps.

(** The actions [UpdateStatus] runs keep what each of them keeps. *)
Lemma UpdateAll_keeps (P : ThorlabsKinesisTCubeServo -> Prop) (w : Responses)
    (actions : list Handler) :
  (forall action, keeps P (Update w action)) -> keeps P (UpdateAll w actions).
Proof.
  intros H. induction actions as [|action rest IH]; simpl.
  - apply keeps_ret.
  - apply keeps_bind; [apply H | intros _; exact IH].
Qed.

Create HintDb keeps.

Ltac head_of t :=
  lazymatch t with
  | ?g _ => head_of g
  | _ => t
  end.

(** One step of a [keeps] proof. *)
Ltac keeps_step :=
  lazymatch goal with
  | |- keeps _ (bind _ _) => apply keeps_bind; [ | intro ]
  | |- keeps _ (ret _) => apply keeps_ret
  | |- keeps _ this => apply keeps_this
  | |- keeps _ (call _) => apply keeps_call
  | |- keeps _ (assign _) =>
      apply keeps_assign;
      let a := fresh in
      let H := fresh in
      intros a H;
      first [ exact H | solve [destruct H; split; simpl; congruence] ]
  | |- keeps _ (if ?b then _ else _) => destruct b
  | |- keeps _ (match ?e with BeforeGet => _ | AfterSet => _ | OtherAction => _ end) =>
      destruct e
  | |- keeps _ (match ?x with pair _ _ => _ end) => destruct x
  | |- keeps _ (UpdateAll _ _) =>
      apply UpdateAll_keeps;
      let action := fresh in
      intro action; destruct action; unfold Update
  | |- keeps _ ?c =>
      first [ solve [auto with keeps]
            | let h := head_of c in unfold h ]
  end.

Ltac keeps_auto := repeat keeps_step.

(** *** The travel limits *)

(** From one operation of [run] to the member function behind it. *)
Ltac run_to_keeps a H :=
  cbv beta iota zeta delta [run fst];
  lazymatch goal with
  | |- ?P (object_of (?c a)) => revert a H; change (keeps P c)
  end.

(** Apart from [SetLimits], the two limit handlers and [Initialize], which
    runs them, no operation changes a travel limit. *)
Lemma run_keeps_limits (w : Responses) (o : Operation) (min max : double)
    (a : ThorlabsKinesisTCubeServo) :
  writes_limits o = false ->
  limits_are min max a -> limits_are min max (fst (run w o a)).
Proof.
  intros Hw H.
  destruct o; try discriminate Hw; clear Hw; run_to_keeps a H; keeps_auto.
Qed.

(** *** The homed flag *)

Lemma Home_keeps_homed (w : Responses) : keeps homed (Home w).
Proof.
  intros a H. rewrite (Home_already_homed w a H). exact H.
Qed.

#[local] Hint Resolve Home_keeps_homed : keeps.

Lemma run_keeps_homed (w : Responses) (o : Operation) (a : ThorlabsKinesisTCubeServo) :
  homed a -> homed (fst (run w o a)).
Proof.
  intros H. destruct o; run_to_keeps a H; keeps_auto.
Qed.

(** Apart from [Home], directly or through the "Go Home" handler, no
    operation assigns the homed flag. *)
Lemma run_keeps_homed_is (w : Responses) (o : Operation) (v : bool)
    (a : ThorlabsKinesisTCubeServo) :
  invokes_Home o = false ->
  homed_is v a -> homed_is v (fst (run w o a)).
Proof.
  intros Hw H.
  destruct o; try discriminate Hw;
    try (destruct eAct; try discriminate Hw);
    clear Hw; run_to_keeps a H; keeps_auto.
Qed.

(** *** Construction *)

Lemma enumerate_keeps (P : ThorlabsKinesisTCubeServo -> Prop) (l : list DeviceEntry) :
  keeps P (enumerate l).
Proof.
  induction l as [|d rest IH]; simpl; keeps_auto.
Qed.

Lemma add_channels_keeps (P : ThorlabsKinesisTCubeServo -> Prop) (n : nat) :
  forall i, keeps P (add_channels i n).
Proof.
  induction n as [|n IH]; intros i; simpl; keeps_auto.
Qed.

#[local] Hint Resolve enumerate_keeps add_channels_keeps : keeps.

Lemma init_keeps_limits (e : Enumeration) (deviceName : string) (chNumber : Z)
    (min max : double) :
  keeps (limits_are min max) (init e deviceName chNumber).
Proof. keeps_auto. Qed.

(** Both constructors leave the limits at 0 and 50000 micrometres. *)
Lemma construct_limits (junk : ThorlabsKinesisTCubeServo) (e : Enumeration)
    (deviceName : string) (chNumber : Z) :
  limits_are (F64.of_Z 0) (F64.of_Z 50000)
    (object_of (construct junk e deviceName chNumber)).
Proof.
  unfold construct. apply init_keeps_limits. split; reflexivity.
Qed.

Lemma construct_default_limits (junk : ThorlabsKinesisTCubeServo) (e : Enumeration) :
  limits_are (F64.of_Z 0) (F64.of_Z 50000) (object_of (construct_default junk e)).
Proof.
  unfold construct_default. cbv zeta. apply init_keeps_limits. split; reflexivity.
Qed.

(** ** The travel limits can be put out of order *)

(** C5, as stated, fails: [SetLimits(10, 5)] on a new adapter gives a
    reachable state with the lower limit above the upper one; and with
    limits [10, 100], setting the upper-limit property to 5 lowers the
    upper limit below the lower one. *)
Lemma limits_ordered_broken :
  (limits_ordered fresh /\
   reachable (fst (run (device_at 0 true) (op_SetLimits (F64.of_Z 10) (F64.of_Z 5)) fresh)) /\
   ~ limits_ordered
       (fst (run (device_at 0 true) (op_SetLimits (F64.of_Z 10) (F64.of_Z 5)) fresh))) /\
  (limits_ordered narrowed /\
   ~ limits_ordered
       (fst (run (device_at 0 true) (op_OnMaxPosUm (F64.of_Z 5) AfterSet) narrowed))).
Proof.
  split; [split; [|split] | split].
  - reflexivity.
  - apply reachable_run. apply (reachable_construct_default zeroed no_devices).
  - intros H. vm_compute in H. discriminate H.
  - reflexivity.
  - intros H. vm_compute in H. discriminate H.
Qed.

(** ** The homed flag never falls back *)

(** C10: once [homed_] is true it stays true through every history of
    operations; [Home()] on a homed adapter returns [DEVICE_OK] after the
    home command alone, with the object untouched; and an operation that
    does not reach [Home] leaves the flag as it finds it. *)
Theorem homed_is_monotone (h : list (Responses * Operation))
    (a : ThorlabsKinesisTCubeServo) :
  homed_ a = true ->
  homed_ (run_all h a) = true /\
  (forall w, Home w a = (DEVICE_OK, a, [CC_Home (serialNumber_ a)])) /\
  (forall w o b, invokes_Home o = false -> homed_ (fst (run w o b)) = homed_ b).
Proof.
  intros H. repeat apply conj.
  - revert a H. induction h as [|[w o] rest IH]; intros a H; simpl.
    + exact H.
    + apply IH. apply run_keeps_homed. exact H.
  - intros w. apply Home_already_homed. exact H.
  - intros w o b Ho. apply (run_keeps_homed_is w o (homed_ b) b Ho). reflexivity.
Qed.

Lemma homed_is_monotone_witness :
  homed_ homed_adapter = true /\
  homed_ (run_all [(device_at 0 true, op_Home);
                   (device_at 0 true, op_Initialize);
                   (device_at 0 true, op_OnHome 1 AfterSet);
                   (device_at 0 true, op_Shutdown)] homed_adapter) = true.
Proof.
  split; [reflexivity | ].
  refine (proj1 (homed_is_monotone
           [(device_at 0 true, op_Home);
            (device_at 0 true, op_Initialize);
            (device_at 0 true, op_OnHome 1 AfterSet);
            (device_at 0 true, op_Shutdown)] homed_adapter _)).
  reflexivity.
Defined.

(** ** Unit conversion, evaluated

    Micrometres to encoder counts in [SetPositionUmFlag] is computed in
    [float], counts to micrometres in [GetPositionUm] in [double] and then
    narrowed to [float]. *)

(** The inputs used above are well-formed binary64 numbers. *)
Example inputs_are_doubles :
  F64.valid (F64.of_Z 5) = true /\ F64.valid (F64.of_Z 7) = true /\
  F64.valid (F64.of_Z 10) = true /\ F64.valid (F64.of_Z 100) = true /\
  F64.valid double_0_1 = true /\ F64.valid (F64.of_Z 50000) = true /\
  F64.valid double_1e38 = true.
Proof. repeat split. Qed.

(** The two conversions are the ones the member functions apply. *)
Lemma SetPositionUm_counts (a : ThorlabsKinesisTCubeServo) (p : double) :
  newPosition (object_of (SetPositionUm p a)) =
  um_to_counts (curPosUm_ (object_of (SetPositionUm p a))).
Proof. reflexivity. Qed.

Lemma GetPositionUm_um (w : Responses) (a : ThorlabsKinesisTCubeServo) :
  curPosUm_ (object_of (GetPositionUm w a)) =
  counts_to_um (F32.of_Z (CC_GetPosition_result w)).
Proof. reflexivity. Qed.

(** A move to 1000 micrometres is issued at 34304 counts. *)
Example SetPositionUm_1000 :
  newPosition (object_of (SetPositionUm (F64.of_Z 1000) fresh)) = F32.of_Z 34304.
Proof. reflexivity. Qed.

(** A device at 34304 counts is read as 1000 micrometres. *)
Example GetPositionUm_34304 :
  value_of (GetPositionUm (device_at 34304 true) fresh) = (DEVICE_OK, F64.of_Z 1000).
Proof. reflexivity. Qed.

(** The cached position after a move to 0.1 micrometres is the [float]
    nearest to 0.1, 13421773 / 2^27. *)
Example SetPositionUm_0_1 :
  curPosUm_ (object_of (SetPositionUm double_0_1 fresh)) =
  S754_finite false 13421773 (-27).
Proof. reflexivity. Qed.

(** At every multiple of 10 micrometres from 0 to 50000 the round trip is
    within 2^-8 micrometres of the position. *)
Example round_trip_on_grid :
  within_on_grid (S754_finite false 4503599627370496 (-60)) 10 (Z.to_nat 5001) 0 = true.
Proof. vm_compute. reflexivity. Qed.

(** With the upper limit widened to 10^38 micrometres, the move to that
    position is within the limits, and is issued at infinitely many
    counts: the product with 34304 exceeds the largest [float]. *)
Example SetPositionUm_1e38 :
  clamped widened double_1e38 = double_1e38 /\
  newPosition (object_of (SetPositionUm double_1e38 widened)) = S754_infinity false /\
  round_trip double_1e38 = S754_infinity false.
Proof. repeat split. Qed.

(** * Further properties of the adapter *)

(** ** Comparison of numbers that are not NaN *)

Lemma leb_not_nan (x y : double) :
  F64.leb x y = true -> is_nan x = false /\ is_nan y = false.
Proof.
  unfold F64.leb, SFleb.
  destruct x as [sx|sx| |sx mx ex], y as [sy|sy| |sy my ey]; simpl;
    try discriminate; auto.
Qed.

Lemma leb_refl (x : double) : is_nan x = false -> F64.leb x x = true.
Proof.
  unfold F64.leb, SFleb.
  destruct x as [sx|sx| |sx mx ex]; simpl; try discriminate; intros _.
  - reflexivity.
  - destruct sx; reflexivity.
  - change (Pos.compare_cont Eq mx mx) with (Pos.compare mx mx).
    rewrite Z.compare_refl, Pos.compare_refl. destruct sx; reflexivity.
Qed.

(** Of two numbers that are not NaN, one is below the other or the other
    is at most the one. *)
Lemma not_ltb_leb (x y : double) :
  is_nan x = false -> is_nan y = false ->
  F64.ltb x y = false -> F64.leb y x = true.
Proof.
  unfold F64.leb, F64.ltb, SFleb, SFltb. intros Hx Hy.
  rewrite (SFcompare_swap x y).
  destruct x as [sx|sx| |sx mx ex], y as [sy|sy| |sy my ey];
    try discriminate Hx; try discriminate Hy; simpl;
    try (destruct sx; simpl; congruence);
    try (destruct sy; simpl; congruence);
    try (destruct sx, sy; simpl; congruence);
    try congruence.
  destruct sx, sy; simpl; try congruence;
    destruct (ex ?= ey); simpl; try congruence;
    destruct (Pos.compare_cont Eq mx my); simpl; congruence.
Qed.

(** ** SetPositionUm: range and NaN *)

(** X1: when the limits are ordered and the target is not a NaN (an
    infinite target included), the position [SetPositionUm] hands on lies
    within the two limits, and the cached position is that value narrowed
    to [float]. *)
Theorem clamped_within_limits (a : ThorlabsKinesisTCubeServo) (p : double) :
  F64.leb (minTravelUm_ a) (maxTravelUm_ a) = true ->
  is_nan p = false ->
  F64.leb (minTravelUm_ a) (clamped a p) = true /\
  F64.leb (clamped a p) (maxTravelUm_ a) = true /\
  curPosUm_ (object_of (SetPositionUm p a)) = double_to_float (clamped a p).
Proof.
  intros Hord Hp.
  destruct (leb_not_nan _ _ Hord) as [Hmin Hmax].
  unfold clamped.
  destruct (F64.ltb p (minTravelUm_ a)) eqn:Hlo.
  - repeat split; auto using leb_refl.
    rewrite SetPositionUm_run. unfold clamped. rewrite Hlo. reflexivity.
  - destruct (F64.gtb p (maxTravelUm_ a)) eqn:Hhi.
    + repeat split; auto using leb_refl.
      rewrite SetPositionUm_run. unfold clamped. rewrite Hlo, Hhi. reflexivity.
    + repeat split.
      * apply not_ltb_leb; assumption.
      * apply not_ltb_leb; assumption.
      * rewrite SetPositionUm_run. unfold clamped. rewrite Hlo, Hhi. reflexivity.
Qed.

Lemma clamped_within_limits_witness :
  F64.leb (minTravelUm_ narrowed) (maxTravelUm_ narrowed) = true /\
  is_nan (S754_infinity false) = false /\
  F64.leb (minTravelUm_ narrowed) (clamped narrowed (S754_infinity false)) = true /\
  F64.leb (clamped narrowed (S754_infinity false)) (maxTravelUm_ narrowed) = true /\
  curPosUm_ (object_of (SetPositionUm (S754_infinity false) narrowed)) =
    double_to_float (clamped narrowed (S754_infinity false)).
Proof.
  split; [reflexivity | split; [reflexivity | ]].
  apply (clamped_within_limits narrowed (S754_infinity false)); reflexivity.
Defined.


(** X2: a NaN target is not rejected and not clamped, whatever the limits:
    both comparisons of [SetPositionUmFlag] are false, the cached position
    and the encoder counts become NaN, and the move is issued at NaN;
    the call still returns [DEVICE_OK]. *)
Theorem SetPositionUm_nan (a : ThorlabsKinesisTCubeServo) :
  curPosUm_ (object_of (SetPositionUm S754_nan a)) = S754_nan /\
  newPosition (object_of (SetPositionUm S754_nan a)) = S754_nan /\
  exists msg,
    calls_of (SetPositionUm S754_nan a) =
    [CC_MoveToPosition (serialNumber_ a) S754_nan;
     OnStagePositionChanged S754_nan;
     LogMessage msg] /\
  value_of (SetPositionUm S754_nan a) = DEVICE_OK.
Proof.
  assert (Hc : clamped a S754_nan = S754_nan).
  { unfold clamped, F64.ltb, F64.gtb, SFltb. simpl.
    destruct (maxTravelUm_ a); reflexivity. }
  rewrite SetPositionUm_run. cbv zeta. rewrite Hc.
  repeat split. eexists. split; reflexivity.
Qed.

(** ** Symbolic execution of member functions *)

(** Unfolds the monad, leaving member variables and setters folded. *)
Ltac exec :=
  cbv beta iota zeta delta
    [value_of object_of calls_of fst snd bind this assign call ret stream
     LogIt LogInit].

(** ** The limit handlers *)







(** ** Construction *)

Lemma enumerate_object (l : list DeviceEntry) (a : ThorlabsKinesisTCubeServo) :
  object_of (enumerate l a) = a.
Proof.
  revert a. induction l as [|d rest IH]; intros a; [reflexivity|].
  simpl enumerate. repeat (rewrite object_of_bind; cbv beta).
  destruct (CC_Open_result d =? 0); rewrite ?object_of_bind; cbv beta;
    rewrite IH; reflexivity.
Qed.

Lemma add_channels_object (n : nat) (i : Z) (a : ThorlabsKinesisTCubeServo) :
  object_of (add_channels i n a) = a.
Proof.
  revert i a. induction n as [|n IH]; intros i a; [reflexivity|].
  simpl add_channels. rewrite object_of_bind. cbv beta. rewrite IH. reflexivity.
Qed.

(** The object [init] leaves: name and channel assigned, channel reset to
    1, the hardware bounds copied from the travel limits. *)
Lemma init_object (e : Enumeration) (deviceName : string) (chNumber : Z)
    (a : ThorlabsKinesisTCubeServo) :
  object_of (init e deviceName chNumber a) =
  set_pfMaxPos (double_to_float (maxTravelUm_ a))
    (set_pfMinPos (double_to_float (minTravelUm_ a))
       (set_chNumber_ 1 (set_chNumber_ chNumber (set_deviceName_ deviceName a)))).
Proof.
  unfold init.
  repeat (rewrite object_of_bind; cbv beta).
  destruct (TLI_BuildDeviceList_result e =? 0);
    repeat (rewrite object_of_bind; cbv beta);
    rewrite ?enumerate_object, ?add_channels_object; reflexivity.
Qed.

(** The members of a constructed adapter that the invariants start from. *)
Lemma construct_fields (junk : ThorlabsKinesisTCubeServo) (e : Enumeration)
    (deviceName : string) (chNumber : Z) :
  let a := object_of (construct junk e deviceName chNumber) in
  serialNumber_ a = EmptyString /\
  pfMinPos a = S754_zero false /\ pfMaxPos a = F32.of_Z 50000 /\
  pfAccn a = pfAccn junk.
Proof.
  cbv zeta. unfold construct. rewrite init_object. repeat split.
Qed.

(** X3: the object either constructor leaves.  The device name is the
    argument, the channel number is 1 whatever [chNumber] was passed, the
    serial number is empty whatever devices the enumeration found, the
    limits are 0 and 50000, the hardware bounds [pfMinPos] and [pfMaxPos]
    are the limits narrowed to [float], both flags are false, and the
    members the initialiser list omits ([pfAccn] among them) keep what the
    storage held. *)
Theorem construct_object (junk : ThorlabsKinesisTCubeServo) (e : Enumeration)
    (deviceName : string) (chNumber : Z) :
  object_of (construct junk e deviceName chNumber) =
  {| tmpMessage := [];
     deviceName_ := deviceName;
     chNumber_ := 1;
     serialNumber_ := EmptyString;
     stepSizeUm_ := double_0_1;
     initialized_ := false;
     homed_ := false;
     minTravelUm_ := F64.of_Z 0;
     maxTravelUm_ := F64.of_Z 50000;
     curPosUm_ := S754_zero false;
     pfPosition := pfPosition junk;
     newPosition := newPosition junk;
     pfMaxVel := pfMaxVel junk;
     pfAccn := pfAccn junk;
     pfMaxAccn := pfMaxAccn junk;
     pfMinPos := S754_zero false;
     pfMaxPos := F32.of_Z 50000;
     posUm_ := posUm_ junk;
     aptInitialized := aptInitialized junk |} /\
  construct_default junk e = construct junk e g_ThorlabsDeviceNameTDC001 1.
Proof.
  split; [ | reflexivity].
  unfold construct. rewrite init_object. reflexivity.
Qed.


(** ** Members that no operation assigns *)

Lemma run_keeps_hardware (w : Responses) (o : Operation) (lo hi : float) (accn : Z)
    (a : ThorlabsKinesisTCubeServo) :
  hardware_is lo hi accn a -> hardware_is lo hi accn (fst (run w o a)).
Proof.
  intros H. destruct o; run_to_keeps a H; keeps_auto.
Qed.

Lemma run_all_keeps_hardware (h : list (Responses * Operation)) (lo hi : float)
    (accn : Z) (a : ThorlabsKinesisTCubeServo) :
  hardware_is lo hi accn a -> hardware_is lo hi accn (run_all h a).
Proof.
  revert a. induction h as [|[w o] rest IH]; intros a H; simpl.
  - exact H.
  - apply IH, run_keeps_hardware, H.
Qed.

Lemma reachable_hardware (a : ThorlabsKinesisTCubeServo) :
  reachable a ->
  pfMinPos a = S754_zero false /\ pfMaxPos a = F32.of_Z 50000.
Proof.
  induction 1 as [junk e deviceName chNumber | junk e | w o a _ IH].
  - destruct (construct_fields junk e deviceName chNumber) as (_ & H1 & H2 & _).
    split; assumption.
  - change (construct_default junk e)
      with (construct junk e g_ThorlabsDeviceNameTDC001 1).
    destruct (construct_fields junk e g_ThorlabsDeviceNameTDC001 1) as (_ & H1 & H2 & _).
    split; assumption.
  - destruct IH as [Hlo Hhi].
    destruct (run_keeps_hardware w o _ _ _ a (conj Hlo (conj Hhi eq_refl)))
      as (H1 & H2 & _).
    split; assumption.
Qed.

(** ** Status codes *)

Lemma value_of_bind {A B : Type} (c : M A) (k : A -> M B) (a : ThorlabsKinesisTCubeServo) :
  value_of (bind c k a) = value_of (k (value_of (c a)) (object_of (c a))).
Proof. rewrite bind_run. reflexivity. Qed.

Lemma returns_ret {A : Type} (Q : A -> Prop) (x : A) : Q x -> returns Q (ret x).
Proof. intros H a. exact H. Qed.

Lemma returns_bind {A B : Type} (R : A -> Prop) (Q : B -> Prop) (c : M A) (k : A -> M B) :
  returns R c -> (forall x, R x -> returns Q (k x)) -> returns Q (bind c k).
Proof.
  intros Hc Hk a. rewrite value_of_bind. apply Hk, Hc.
Qed.

Lemma returns_anything {A : Type} (c : M A) : returns (fun _ => True) c.
Proof. intros a. exact I. Qed.

(** The status is [DEVICE_OK]. *)
Ltac returns_ok :=
  repeat lazymatch goal with
         | |- returns _ (bind _ _) =>
             eapply returns_bind; [ apply returns_anything | intros ? _ ]
         | |- returns _ (ret _) => apply returns_ret; reflexivity
         | |- returns _ (if ?b then _ else _) => destruct b
         | |- returns _ (match ?e with BeforeGet => _ | AfterSet => _ | OtherAction => _ end) =>
             destruct e
         | |- returns _ (match ?x with pair _ _ => _ end) => destruct x
         end.

Lemma SetPositionUmFlag_returns (p : double) (flag : Z) :
  returns (fun z => z = DEVICE_OK) (SetPositionUmFlag p flag).
Proof. unfold SetPositionUmFlag. returns_ok. Qed.

Lemma GetPositionUm_returns (w : Responses) :
  returns (fun v => fst v = DEVICE_OK) (GetPositionUm w).
Proof. unfold GetPositionUm. returns_ok. Qed.

Lemma GetVelParam_returns (w : Responses) :
  returns (fun v => fst v = DEVICE_OK) (GetVelParam w).
Proof. unfold GetVelParam. returns_ok. Qed.

Lemma SetVelParam_returns (vel : double) :
  returns (fun z => z = DEVICE_OK) (SetVelParam vel).
Proof. unfold SetVelParam. returns_ok. Qed.

Lemma Home_returns (w : Responses) : returns (fun z => z = DEVICE_OK) (Home w).
Proof. unfold Home. returns_ok. Qed.

Lemma OnPosition_returns (w : Responses) (v : double) (eAct : ActionType) :
  returns (fun z => z = DEVICE_OK) (OnPosition w v eAct).
Proof.
  unfold OnPosition. destruct eAct.
  - eapply returns_bind; [apply GetPositionUm_returns|].
    intros [r pos] Hr. simpl in Hr. subst r. simpl. returns_ok.
  - unfold SetPositionUm.
    eapply returns_bind; [apply SetPositionUmFlag_returns|].
    intros r ->. simpl. returns_ok.
  - returns_ok.
Qed.

Lemma OnVelocity_returns (w : Responses) (v : double) (eAct : ActionType) :
  returns (fun z => z = DEVICE_OK) (OnVelocity w v eAct).
Proof.
  unfold OnVelocity. destruct eAct.
  - eapply returns_bind; [apply GetVelParam_returns|].
    intros [r vel] Hr. simpl in Hr. subst r. simpl. returns_ok.
  - eapply returns_bind; [apply SetVelParam_returns|].
    intros r ->. simpl. returns_ok.
  - returns_ok.
Qed.

Lemma OnHome_returns (w : Responses) (v : Z) (eAct : ActionType) :
  returns (fun z => z = DEVICE_OK) (OnHome w v eAct).
Proof.
  unfold OnHome. destruct eAct.
  - returns_ok.
  - eapply returns_bind; [apply Home_returns|].
    intros r ->. simpl. returns_ok.
  - returns_ok.
Qed.

(** [UpdateStatus] returns the status of the host. *)
Lemma CDeviceBase_UpdateStatus_returns (w : Responses) :
  returns (fun z => z = UpdateStatus_result w) (CDeviceBase_UpdateStatus w).
Proof.
  unfold CDeviceBase_UpdateStatus.
  eapply returns_bind; [ apply returns_anything | intros ? _ ].
  eapply returns_bind; [ apply returns_anything | intros ? _ ].
  apply returns_ret. reflexivity.
Qed.

Lemma Initialize_returns (w : Responses) :
  returns (fun z => z = DEVICE_OK \/ z = UpdateStatus_result w) (Initialize w).
Proof.
  unfold Initialize.
  repeat lazymatch goal with
         | |- returns _ (bind (CDeviceBase_UpdateStatus _) _) =>
             eapply returns_bind;
             [ apply CDeviceBase_UpdateStatus_returns | intros ? -> ]
         | |- returns _ (bind _ _) =>
             eapply returns_bind; [ apply returns_anything | intros ? _ ]
         | |- returns _ (match ?x with pair _ _ => _ end) => destruct x
         end.
  destruct (negb (UpdateStatus_result w =? DEVICE_OK)).
  - apply returns_ret. right. reflexivity.
  - eapply returns_bind; [ apply returns_anything | intros ? _ ].
    apply returns_ret. left. reflexivity.
Qed.

(** X4: the only status codes an operation returns are [DEVICE_OK],
    [DEVICE_UNSUPPORTED_COMMAND] from [SetOrigin], and from [Initialize]
    the result of [UpdateStatus]; no answer of the Kinesis library ever
    turns into an error status. *)
Theorem status_codes (w : Responses) (o : Operation) (a : ThorlabsKinesisTCubeServo)
    (z : Z) :
  status w o a = Some z ->
  z = DEVICE_OK \/
  (o = op_SetOrigin /\ z = DEVICE_UNSUPPORTED_COMMAND) \/
  (o = op_Initialize /\ z = UpdateStatus_result w).
Proof.
  destruct o; unfold status; try discriminate; intros H; injection H as <-.
  - destruct (Initialize_returns w a) as [H | H]; auto.
  - left. rewrite Shutdown_run. reflexivity.
  - left. apply (SetPositionUmFlag_returns posUm 1 a).
  - left. apply (SetPositionUmFlag_returns posUm 1 a).
  - left. apply (GetPositionUm_returns w a).
  - left. reflexivity.
  - left. reflexivity.
  - right. left. split; reflexivity.
  - left. reflexivity.
  - left. reflexivity.
  - left. reflexivity.
  - left. revert a. change (returns (fun z => z = DEVICE_OK) (OnSerialNumber value eAct)).
    unfold OnSerialNumber. returns_ok.
  - left. revert a. change (returns (fun z => z = DEVICE_OK) (OnChannelNumber value eAct)).
    unfold OnChannelNumber. returns_ok.
  - left. revert a. change (returns (fun z => z = DEVICE_OK) (OnMinPosUm value eAct)).
    unfold OnMinPosUm. returns_ok.
  - left. revert a. change (returns (fun z => z = DEVICE_OK) (OnMaxPosUm value eAct)).
    unfold OnMaxPosUm. returns_ok.
  - left. apply (OnPosition_returns w value eAct a).
  - left. apply (OnVelocity_returns w value eAct a).
  - left. apply (OnHome_returns w value eAct a).
  - left. apply (Home_returns w a).
  - left. apply (GetVelParam_returns w a).
  - left. reflexivity.
Qed.

Lemma status_codes_witness :
  status (device_at 0 true) (op_OnPosition (F64.of_Z 7) AfterSet) fresh = Some DEVICE_OK /\
  (DEVICE_OK = DEVICE_OK \/
   (op_OnPosition (F64.of_Z 7) AfterSet = op_SetOrigin /\
    DEVICE_OK = DEVICE_UNSUPPORTED_COMMAND) \/
   (op_OnPosition (F64.of_Z 7) AfterSet = op_Initialize /\
    DEVICE_OK = UpdateStatus_result (device_at 0 true))).
Proof.
  split; [reflexivity | ].
  apply (status_codes (device_at 0 true) (op_OnPosition (F64.of_Z 7) AfterSet) fresh DEVICE_OK).
  reflexivity.
Defined.


(** ** Busy *)

(** Masking with one bit leaves that bit. *)
Lemma land_bit (s : Z) (k : Z) :
  0 <= k -> Z.land s (2 ^ k) = if Z.testbit s k then 2 ^ k else 0.
Proof.
  intros Hk. apply Z.bits_inj'. intros n Hn.
  rewrite Z.land_spec, Z.pow2_bits_eqb by exact Hk.
  destruct (Z.eqb_spec k n) as [<- | Hne].
  - rewrite andb_true_r. destruct (Z.testbit s k) eqn:E.
    + rewrite Z.pow2_bits_eqb by exact Hk. rewrite Z.eqb_refl. reflexivity.
    + rewrite Z.bits_0. reflexivity.
  - rewrite andb_false_r. destruct (Z.testbit s k).
    + rewrite Z.pow2_bits_eqb by exact Hk.
      symmetry. apply Z.eqb_neq. exact Hne.
    + rewrite Z.bits_0. reflexivity.
Qed.

(** X6: [Busy] is true exactly when bit 4 or bit 5 of the status word is
    set; it requests the status, sleeps 200 ms, reads the status, and
    leaves the object unchanged. *)
Theorem Busy_bits (w : Responses) (a : ThorlabsKinesisTCubeServo) :
  Busy w a =
  (Z.testbit (CC_GetStatusBits_result w) 4 || Z.testbit (CC_GetStatusBits_result w) 5,
   a,
   [CC_RequestStatusBits (serialNumber_ a); Sleep 200;
    CC_GetStatusBits (serialNumber_ a) (CC_GetStatusBits_result w)]).
Proof.
  unfold Busy. exec. simpl app.
  change 16 with (2 ^ 4). change 32 with (2 ^ 5).
  rewrite !land_bit by lia.
  destruct (Z.testbit (CC_GetStatusBits_result w) 4),
           (Z.testbit (CC_GetStatusBits_result w) 5); reflexivity.
Qed.

(** ** Device enumeration in the constructor *)

Lemma calls_of_bind {A B : Type} (c : M A) (k : A -> M B) (a : ThorlabsKinesisTCubeServo) :
  calls_of (bind c k a) =
  calls_of (c a) ++ calls_of (k (value_of (c a)) (object_of (c a))).
Proof. rewrite bind_run. reflexivity. Qed.

(** The calls of the enumeration loop do not depend on the object. *)
Lemma enumerate_calls_cons (d : DeviceEntry) (rest : list DeviceEntry)
    (a : ThorlabsKinesisTCubeServo) :
  calls_of (enumerate (d :: rest) a) =
  let serialNO := substring 0 8 (deviceInfo_serialNo d) in
  [TLI_GetDeviceInfo (token d); CC_Open serialNO (CC_Open_result d)] ++
  (if CC_Open_result d =? 0
   then [CC_StartPolling serialNO 200; CC_LoadSettings serialNO]
   else []) ++
  [CreateProperty g_SerialNumberProp (PStr serialNO) MM_String false
     (Some H_OnSerialNumber) true;
   AddAllowedValue g_SerialNumberProp (PStr serialNO)] ++
  calls_of (enumerate rest a).
Proof.
  simpl enumerate. cbv zeta.
  repeat (rewrite calls_of_bind; cbv beta).
  destruct (CC_Open_result d =? 0);
    repeat (rewrite calls_of_bind; cbv beta); reflexivity.
Qed.

Lemma enumerate_StartPolling (l : list DeviceEntry) (a : ThorlabsKinesisTCubeServo)
    (s : string) (ms : Z) :
  In (CC_StartPolling s ms) (calls_of (enumerate l a)) <->
  ms = 200 /\
  exists d, In d l /\ substring 0 8 (deviceInfo_serialNo d) = s /\ CC_Open_result d = 0.
Proof.
  induction l as [|d rest IH].
  - simpl. split; [intros [] | intros (_ & d & [] & _)].
  - rewrite enumerate_calls_cons. cbv zeta.
    rewrite !in_app_iff, IH. clear IH. split.
    + intros [H | [H | [H | H]]].
      * simpl in H. destruct H as [H | [H | []]]; discriminate H.
      * destruct (Z.eqb_spec (CC_Open_result d) 0) as [E | E]; [ | destruct H].
        destruct H as [H | [H | []]]; [ | discriminate H].
        injection H as <- <-. split; [reflexivity|].
        exists d. split; [left; reflexivity | split; [reflexivity | exact E]].
      * simpl in H. destruct H as [H | [H | []]]; discriminate H.
      * destruct H as (Hms & d' & Hin & Hs & Ho). split; [exact Hms|].
        exists d'. split; [right; exact Hin | split; assumption].
    + intros (Hms & d' & [<- | Hin] & Hs & Ho).
      * right. left. rewrite Ho. simpl. left. subst. reflexivity.
      * right. right. right. split; [exact Hms|]. exists d'. auto.
Qed.

Lemma enumerate_calls_indep (l : list DeviceEntry) (a b : ThorlabsKinesisTCubeServo) :
  calls_of (enumerate l a) = calls_of (enumerate l b).
Proof.
  induction l as [|d rest IH]; [reflexivity|].
  rewrite !enumerate_calls_cons. cbv zeta. rewrite IH. reflexivity.
Qed.

Lemma enumerate_Open (l : list DeviceEntry) (a : ThorlabsKinesisTCubeServo)
    (s : string) (r : Z) :
  In (CC_Open s r) (calls_of (enumerate l a)) <->
  exists d, In d l /\ substring 0 8 (deviceInfo_serialNo d) = s /\ CC_Open_result d = r.
Proof.
  induction l as [|d rest IH].
  - simpl. split; [intros [] | intros (d & [] & _)].
  - rewrite enumerate_calls_cons. cbv zeta.
    rewrite !in_app_iff, IH. clear IH. split.
    + intros [H | [H | [H | H]]].
      * simpl in H. destruct H as [H | [H | []]]; [discriminate H|].
        injection H as <- <-. exists d. split; [left; reflexivity | split; reflexivity].
      * destruct (CC_Open_result d =? 0); [ | destruct H].
        destruct H as [H | [H | []]]; discriminate H.
      * simpl in H. destruct H as [H | [H | []]]; discriminate H.
      * destruct H as (d' & Hin & Hs & Ho).
        exists d'. split; [right; exact Hin | split; assumption].
    + intros (d' & [<- | Hin] & Hs & Ho).
      * left. simpl. right. left. subst. reflexivity.
      * right. right. right. exists d'. auto.
Qed.

Lemma add_channels_calls (n : nat) (i : Z) (a : ThorlabsKinesisTCubeServo) :
  calls_of (add_channels i n a) =
  map (fun k => AddAllowedValue g_ChannelProp (PLong (i + Z.of_nat k))) (seq 1 n).
Proof.
  revert i a. induction n as [|n IH]; intros i a; [reflexivity|].
  simpl add_channels. rewrite calls_of_bind. cbv beta. rewrite IH.
  change (seq 1 (S n)) with (1%nat :: seq 2 n).
  rewrite <- (seq_shift n 1). cbn [map]. rewrite map_map.
  change (calls_of (call (AddAllowedValue g_ChannelProp (PLong (i + 1))) a))
    with [AddAllowedValue g_ChannelProp (PLong (i + 1))].
  cbn [app]. f_equal.
  apply map_ext. intros k. do 2 f_equal. lia.
Qed.

(** Rules for [emits] and for membership in the calls of a sequence. *)

Lemma emits_ret {A : Type} (Q : Call -> Prop) (x : A) : emits Q (ret x).
Proof. intros a. constructor. Qed.

Lemma emits_this (Q : Call -> Prop) : emits Q this.
Proof. intros a. constructor. Qed.

Lemma emits_assign (Q : Call -> Prop)
    (g : ThorlabsKinesisTCubeServo -> ThorlabsKinesisTCubeServo) :
  emits Q (assign g).
Proof. intros a. constructor. Qed.

Lemma emits_call (Q : Call -> Prop) (c : Call) : Q c -> emits Q (call c).
Proof. intros H a. constructor; [exact H | constructor]. Qed.

Lemma emits_bind {A B : Type} (Q : Call -> Prop) (c : M A) (k : A -> M B) :
  emits Q c -> (forall x, emits Q (k x)) -> emits Q (bind c k).
Proof.
  intros Hc Hk a. rewrite calls_of_bind. apply Forall_app. split; [apply Hc | apply Hk].
Qed.

Lemma in_bind_l {A B : Type} (x : Call) (c : M A) (k : A -> M B)
    (a : ThorlabsKinesisTCubeServo) :
  In x (calls_of (c a)) -> In x (calls_of (bind c k a)).
Proof. intros H. rewrite calls_of_bind. apply in_or_app. left. exact H. Qed.

Lemma in_bind_r {A B : Type} (x : Call) (c : M A) (k : A -> M B)
    (a : ThorlabsKinesisTCubeServo) :
  In x (calls_of (k (value_of (c a)) (object_of (c a)))) ->
  In x (calls_of (bind c k a)).
Proof. intros H. rewrite calls_of_bind. apply in_or_app. right. exact H. Qed.

Lemma enumerate_emits (Q : Call -> Prop) (l : list DeviceEntry) :
  Forall Q (calls_of (enumerate l zeroed)) -> emits Q (enumerate l).
Proof.
  intros H a. rewrite (enumerate_calls_indep l a zeroed). exact H.
Qed.

Lemma add_channels_emits (Q : Call -> Prop) (n : nat) (i : Z) :
  (forall v, Q (AddAllowedValue g_ChannelProp v)) -> emits Q (add_channels i n).
Proof.
  intros H a. rewrite add_channels_calls. apply Forall_forall.
  intros x Hx. apply in_map_iff in Hx. destruct Hx as (k & <- & _). apply H.
Qed.

(** One step of an [emits] proof; [side] proves [Q] of a call. *)
Ltac emits_step side :=
  lazymatch goal with
  | |- emits _ (bind _ _) => apply emits_bind; [ | intro ]
  | |- emits _ (ret _) => apply emits_ret
  | |- emits _ this => apply emits_this
  | |- emits _ (assign _) => apply emits_assign
  | |- emits _ (call _) => apply emits_call; side
  end.

(** The constructor addresses a device only inside the enumeration loop,
    and enters the loop only if [TLI_BuildDeviceList] returned 0. *)
Lemma construct_device_calls (junk : ThorlabsKinesisTCubeServo) (e : Enumeration)
    (deviceName : string) (chNumber : Z) (c : Call) :
  is_device_call c = true ->
  (In c (calls_of (construct junk e deviceName chNumber)) <->
   TLI_BuildDeviceList_result e = 0 /\
   In c (calls_of (enumerate (serialNos e) zeroed))).
Proof.
  intros Hc. split.
  - assert (H : emits (fun c => is_device_call c = true ->
                                TLI_BuildDeviceList_result e = 0 /\
                                In c (calls_of (enumerate (serialNos e) zeroed)))
                      (init e deviceName chNumber)).
    { unfold init.
      repeat emits_step ltac:(intros Hx; discriminate Hx).
      - destruct (Z.eqb_spec (TLI_BuildDeviceList_result e) 0) as [E | E].
        + repeat emits_step ltac:(intros Hx; discriminate Hx).
          apply enumerate_emits. apply Forall_forall. intros c0 Hc0 _. auto.
        + apply emits_ret.
      - apply add_channels_emits. intros v Hx. discriminate Hx. }
    intros Hin. unfold construct in Hin.
    exact (proj1 (Forall_forall _ _) (H (initialiser_list junk)) c Hin Hc).
  - intros [E Hin]. unfold construct, init.
    repeat lazymatch goal with
           | |- In _ (calls_of (bind (if _ then _ else _) _ _)) => fail
           | |- In _ (calls_of (bind _ _ _)) => apply in_bind_r; cbv beta
           end.
    apply in_bind_l. rewrite E. change (0 =? 0) with true. cbv iota.
    do 2 (apply in_bind_r; cbv beta).
    match goal with
    | |- In c (calls_of (enumerate (serialNos e) ?s)) =>
        rewrite (enumerate_calls_indep (serialNos e) s zeroed)
    end.
    exact Hin.
Qed.

Lemma substring_length (m : nat) (s : string) :
  (String.length (substring 0 m s) <= m)%nat.
Proof.
  revert s. induction m as [|m IH]; intros s.
  - destruct s; simpl; lia.
  - destruct s as [|c s]; simpl.
    + lia.
    + specialize (IH s). lia.
Qed.

(** X7: every serial number the constructor passes to [CC_Open] is the
    first eight characters of a serial number reported for an enumerated
    device, so it has at most eight characters; and no device is opened
    unless [TLI_BuildDeviceList] returned 0. *)
Theorem construct_opens (junk : ThorlabsKinesisTCubeServo) (e : Enumeration)
    (deviceName : string) (chNumber : Z) (s : string) (r : Z) :
  In (CC_Open s r) (calls_of (construct junk e deviceName chNumber)) ->
  TLI_BuildDeviceList_result e = 0 /\
  (String.length s <= 8)%nat /\
  exists d, In d (serialNos e) /\
            substring 0 8 (deviceInfo_serialNo d) = s /\ CC_Open_result d = r.
Proof.
  intros H.
  apply (construct_device_calls junk e deviceName chNumber (CC_Open s r) eq_refl) in H.
  destruct H as [E H]. apply enumerate_Open in H.
  destruct H as (d & Hin & Hs & Hr).
  split; [exact E | split].
  - rewrite <- Hs. apply substring_length.
  - exists d. auto.
Qed.

Lemma construct_opens_witness :
  In (CC_Open "83841234"%string 0) (calls_of (construct zeroed one_device "TDC001"%string 1)) /\
  TLI_BuildDeviceList_result one_device = 0 /\
  (String.length "83841234"%string <= 8)%nat /\
  exists d, In d (serialNos one_device) /\
            substring 0 8 (deviceInfo_serialNo d) = "83841234"%string /\
            CC_Open_result d = 0.
Proof.
  assert (H : In (CC_Open "83841234"%string 0)
                (calls_of (construct zeroed one_device "TDC001"%string 1))).
  { vm_compute. repeat (first [left; reflexivity | right]). }
  split; [exact H | ].
  exact (construct_opens zeroed one_device "TDC001"%string 1 "83841234"%string 0 H).
Defined.


(** X8: the constructor starts polling exactly for the enumerated devices
    whose [CC_Open] returned 0, always at 200 ms, and for none if
    [TLI_BuildDeviceList] did not return 0. *)
Theorem construct_polls (junk : ThorlabsKinesisTCubeServo) (e : Enumeration)
    (deviceName : string) (chNumber : Z) (s : string) (ms : Z) :
  In (CC_StartPolling s ms) (calls_of (construct junk e deviceName chNumber)) <->
  ms = 200 /\
  TLI_BuildDeviceList_result e = 0 /\
  exists d, In d (serialNos e) /\
            substring 0 8 (deviceInfo_serialNo d) = s /\ CC_Open_result d = 0.
Proof.
  rewrite (construct_device_calls junk e deviceName chNumber (CC_StartPolling s ms) eq_refl).
  rewrite enumerate_StartPolling. tauto.
Qed.

(** ** The serial number *)

Lemma run_keeps_serial (w : Responses) (o : Operation) (s : string)
    (a : ThorlabsKinesisTCubeServo) :
  writes_serial o = false ->
  serial_is s a -> serial_is s (fst (run w o a)).
Proof.
  intros Hw H.
  destruct o; try discriminate Hw;
    try (destruct eAct; try discriminate Hw);
    clear Hw; run_to_keeps a H; keeps_auto.
Qed.

(** X9: unless the host writes the serial-number property, the serial
    number stays empty through every history of operations, whatever
    devices the constructor found and opened; [Shutdown] then closes the
    device with the empty serial number. *)
Theorem serial_number_stays_empty (junk : ThorlabsKinesisTCubeServo) (e : Enumeration)
    (deviceName : string) (chNumber : Z) (h : list (Responses * Operation)) :
  Forall (fun wo => writes_serial (snd wo) = false) h ->
  let a := run_all h (object_of (construct junk e deviceName chNumber)) in
  serialNumber_ a = EmptyString /\
  Shutdown a = (DEVICE_OK, set_initialized_ false a, [CC_Close EmptyString]).
Proof.
  intros Hh. cbv zeta.
  assert (Hs : serial_is EmptyString
                 (run_all h (object_of (construct junk e deviceName chNumber)))).
  { assert (H0 : serial_is EmptyString (object_of (construct junk e deviceName chNumber)))
      by exact (proj1 (construct_fields junk e deviceName chNumber)).
    revert H0. generalize (object_of (construct junk e deviceName chNumber)).
    induction Hh as [|[w o] rest Ho _ IH]; intros a H0; simpl.
    - exact H0.
    - apply IH. apply run_keeps_serial; assumption. }
  split; [exact Hs|]. rewrite Shutdown_run. rewrite Hs. reflexivity.
Qed.

Lemma serial_number_stays_empty_witness :
  Forall (fun wo => writes_serial (snd wo) = false)
    [(device_at 0 true, op_Initialize);
     (device_at 0 true, op_SetPositionUm (F64.of_Z 7))] /\
  serialNumber_
    (run_all [(device_at 0 true, op_Initialize);
              (device_at 0 true, op_SetPositionUm (F64.of_Z 7))]
       (object_of (construct zeroed one_device "TDC001"%string 1))) = EmptyString.
Proof.
  assert (H : Forall (fun wo => writes_serial (snd wo) = false)
                [(device_at 0 true, op_Initialize);
                 (device_at 0 true, op_SetPositionUm (F64.of_Z 7))]).
  { repeat constructor. }
  split; [exact H | ].
  exact (proj1 (serial_number_stays_empty zeroed one_device "TDC001"%string 1 _ H)).
Defined.


(** ** The acceleration sent by SetVelParam *)

(** X10: no constructor and no operation assigns [pfAccn]: in every state
    reached from a constructed adapter it is what the storage held before
    construction, and that is the acceleration [SetVelParam] sends. *)
Theorem SetVelParam_acceleration (junk : ThorlabsKinesisTCubeServo) (e : Enumeration)
    (deviceName : string) (chNumber : Z) (h : list (Responses * Operation))
    (vel : double) :
  let a := run_all h (object_of (construct junk e deviceName chNumber)) in
  pfAccn a = pfAccn junk /\
  SetVelParam vel a =
    (DEVICE_OK, a, [CC_SetVelParams (serialNumber_ a) (pfAccn junk) (pfMaxVel a)]).
Proof.
  cbv zeta.
  assert (H : hardware_is (S754_zero false) (F32.of_Z 50000) (pfAccn junk)
                (run_all h (object_of (construct junk e deviceName chNumber)))).
  { apply run_all_keeps_hardware.
    destruct (construct_fields junk e deviceName chNumber) as (_ & H1 & H2 & H3).
    repeat split; assumption. }
  destruct H as (_ & _ & H). split; [exact H|].
  rewrite <- H. reflexivity.
Qed.

(** ** The limit properties in reachable states *)

Lemma reachable_bounds (a : ThorlabsKinesisTCubeServo) :
  reachable a ->
  pfMinPos_times_1000 a = F64.of_Z 0 /\
  pfMaxPos_times_1000 a = F64.of_Z 50000000.
Proof.
  intros H. destruct (reachable_hardware a H) as [Hlo Hhi].
  unfold pfMinPos_times_1000, pfMaxPos_times_1000. rewrite Hlo, Hhi.
  split; reflexivity.
Qed.





(** ** Property handlers and the member functions behind them *)

(** X12: writing any value to the "Go Home" property, 0 included, is
    [Home()]; [Home()] sends the home command first in every state, also
    when the adapter is already homed; reading the property sends nothing
    and reports the flag as 1 or 0. *)
Theorem GoHome_property (w : Responses) (a : ThorlabsKinesisTCubeServo) (value : Z) :
  OnHome w value AfterSet a = Home w a /\
  (exists rest, calls_of (Home w a) = CC_Home (serialNumber_ a) :: rest) /\
  OnHome w value BeforeGet a =
    (DEVICE_OK, a, [Prop_Set (PLong (if homed_ a then 1 else 0))]).
Proof.
  split; [ | split; [ | reflexivity]].
  - cbv beta iota zeta delta [OnHome]. rewrite bind_run.
    destruct (homed_ a) eqn:Hh.
    + rewrite (Home_already_homed w a Hh). reflexivity.
    + rewrite (Home_not_yet_homed w a Hh). reflexivity.
  - destruct (homed_ a) eqn:Hh.
    + rewrite (Home_already_homed w a Hh). eexists. reflexivity.
    + rewrite (Home_not_yet_homed w a Hh). eexists. reflexivity.
Qed.

(** ** Writing a property and reading it back *)

Lemma OnSerialNumber_AfterSet (a : ThorlabsKinesisTCubeServo) (v : string) :
  serialNumber_ (object_of (OnSerialNumber v AfterSet a)) = v.
Proof.
  unfold OnSerialNumber. exec.
  destruct (initialized_ a); cbv beta iota; simpl;
    match goal with
    | |- context [if ?b then _ else _] => destruct b
    end; reflexivity.
Qed.

Lemma OnSerialNumber_BeforeGet (a : ThorlabsKinesisTCubeServo) (v : string) :
  exists rest,
    calls_of (OnSerialNumber v BeforeGet a) = Prop_Set (PStr (serialNumber_ a)) :: rest /\
    serialNumber_ (object_of (OnSerialNumber v BeforeGet a)) = serialNumber_ a.
Proof.
  unfold OnSerialNumber. exec.
  destruct (aptInitialized a); cbv beta iota; eexists; split; reflexivity.
Qed.

Lemma OnChannelNumber_AfterSet (a : ThorlabsKinesisTCubeServo) (v : Z) :
  chNumber_ (object_of (OnChannelNumber v AfterSet a)) = v.
Proof.
  unfold OnChannelNumber. exec.
  destruct (initialized_ a); reflexivity.
Qed.

Lemma OnChannelNumber_BeforeGet (a : ThorlabsKinesisTCubeServo) (v : Z) :
  exists rest,
    calls_of (OnChannelNumber v BeforeGet a) = Prop_Set (PLong (chNumber_ a)) :: rest /\
    chNumber_ (object_of (OnChannelNumber v BeforeGet a)) = chNumber_ a.
Proof.
  unfold OnChannelNumber. exec. eexists; split; reflexivity.
Qed.

(** X13: a write to the serial-number or channel property takes effect in
    every state, initialised or not, and a read that follows hands the
    written value back to the host. *)
Theorem property_write_then_read (a : ThorlabsKinesisTCubeServo)
    (serial serial' : string) (channel channel' : Z) :
  let a1 := object_of (OnSerialNumber serial AfterSet a) in
  let a2 := object_of (OnChannelNumber channel AfterSet a) in
  serialNumber_ a1 = serial /\
  chNumber_ a2 = channel /\
  (exists rest,
     calls_of (OnSerialNumber serial' BeforeGet a1) = Prop_Set (PStr serial) :: rest) /\
  (exists rest,
     calls_of (OnChannelNumber channel' BeforeGet a2) = Prop_Set (PLong channel) :: rest).
Proof.
  cbv zeta.
  pose proof (OnSerialNumber_AfterSet a serial) as Hs.
  pose proof (OnChannelNumber_AfterSet a channel) as Hc.
  split; [exact Hs | split; [exact Hc | split]].
  - destruct (OnSerialNumber_BeforeGet (object_of (OnSerialNumber serial AfterSet a)) serial')
      as (rest & H & _).
    rewrite Hs in H. exists rest. exact H.
  - destruct (OnChannelNumber_BeforeGet (object_of (OnChannelNumber channel AfterSet a)) channel')
      as (rest & H & _).
    rewrite Hc in H. exists rest. exact H.
Qed.

(** ** Reading a limit property *)

Ltac read_limit_cases a :=
  exec; cbv beta iota;
  (destruct (F64.gtb _ (pfMaxPos_times_1000 a));
   [ | destruct (F64.ltb _ (pfMinPos_times_1000 a)) ]);
  cbv beta iota; eexists; repeat split; reflexivity.

Lemma OnMinPosUm_BeforeGet (a : ThorlabsKinesisTCubeServo) (v : double) :
  exists rest,
    calls_of (OnMinPosUm v BeforeGet a) =
      Prop_Set (PDouble (limited a (minTravelUm_ a))) :: rest /\
    minTravelUm_ (object_of (OnMinPosUm v BeforeGet a)) = limited a (minTravelUm_ a) /\
    maxTravelUm_ (object_of (OnMinPosUm v BeforeGet a)) = maxTravelUm_ a.
Proof.
  unfold OnMinPosUm, limit_minTravelUm_, limited. read_limit_cases a.
Qed.

Lemma OnMaxPosUm_BeforeGet (a : ThorlabsKinesisTCubeServo) (v : double) :
  exists rest,
    calls_of (OnMaxPosUm v BeforeGet a) =
      Prop_Set (PDouble (limited a (maxTravelUm_ a))) :: rest /\
    maxTravelUm_ (object_of (OnMaxPosUm v BeforeGet a)) = limited a (maxTravelUm_ a) /\
    minTravelUm_ (object_of (OnMaxPosUm v BeforeGet a)) = minTravelUm_ a.
Proof.
  unfold OnMaxPosUm, limit_maxTravelUm_, limited. read_limit_cases a.
Qed.




(** ** Sign symmetry of the unit conversion *)

Lemma binary_round_aux_opp (prec emax : Z) (s : bool) (m e : Z) (l : location) :
  SFopp (binary_round_aux prec emax s m e l) =
  binary_round_aux prec emax (negb s) m e l.
Proof.
  unfold binary_round_aux.
  destruct (shr_fexp prec emax m e l) as [mrs e'].
  destruct (shr_fexp prec emax
              (round_nearest_even (shr_m mrs) (loc_of_shr_record mrs)) e' loc_Exact)
    as [mrs' e''].
  destruct (shr_m mrs') as [|p|p]; [reflexivity | | reflexivity].
  destruct (e'' <=? emax - prec); reflexivity.
Qed.

Lemma binary_round_opp (prec emax : Z) (s : bool) (m : positive) (e : Z) :
  SFopp (binary_round prec emax s m e) = binary_round prec emax (negb s) m e.
Proof.
  unfold binary_round.
  destruct (shl_align m e (fexp prec emax (Z.pos (digits2_pos m) + e))) as [mz ez].
  apply binary_round_aux_opp.
Qed.

Lemma xorb_negb_l (a b : bool) : xorb (negb a) b = negb (xorb a b).
Proof. destruct a, b; reflexivity. Qed.

Lemma SFmul_opp (prec emax : Z) (x y : spec_float) :
  SFmul prec emax (SFopp x) y = SFopp (SFmul prec emax x y).
Proof.
  destruct x as [sx|sx| |sx mx ex], y as [sy|sy| |sy my ey]; simpl;
    rewrite ?xorb_negb_l, ?binary_round_aux_opp; reflexivity.
Qed.

Lemma SFdiv_opp (prec emax : Z) (x y : spec_float) :
  SFdiv prec emax (SFopp x) y = SFopp (SFdiv prec emax x y).
Proof.
  destruct x as [sx|sx| |sx mx ex], y as [sy|sy| |sy my ey]; simpl;
    rewrite ?xorb_negb_l; try reflexivity.
  destruct (SFdiv_core_binary prec emax (Z.pos mx) ex (Z.pos my) ey) as [[mz ez] lz].
  rewrite binary_round_aux_opp. reflexivity.
Qed.

Lemma double_to_float_opp (x : double) :
  double_to_float (SFopp x) = SFopp (double_to_float x).
Proof.
  destruct x as [s|s| |s m e]; simpl; try reflexivity.
  rewrite binary_round_opp. reflexivity.
Qed.

Lemma float_to_double_opp (x : float) :
  float_to_double (SFopp x) = SFopp (float_to_double x).
Proof.
  destruct x as [s|s| |s m e]; simpl; try reflexivity.
  rewrite binary_round_opp. reflexivity.
Qed.

Lemma um_to_counts_opp (x : float) :
  um_to_counts (SFopp x) = SFopp (um_to_counts x).
Proof.
  unfold um_to_counts, F32.mul, F32.div. rewrite SFdiv_opp, SFmul_opp. reflexivity.
Qed.

Lemma counts_to_um_opp (x : float) :
  counts_to_um (SFopp x) = SFopp (counts_to_um x).
Proof.
  unfold counts_to_um, F64.mul, F64.div.
  rewrite float_to_double_opp, SFdiv_opp, SFmul_opp, double_to_float_opp. reflexivity.
Qed.

Lemma F32_of_Z_opp (z : Z) : z <> 0 -> F32.of_Z (- z) = SFopp (F32.of_Z z).
Proof.
  unfold F32.of_Z, binary_normalize. destruct z as [|p|p]; intros Hz.
  - contradiction.
  - simpl Z.opp. rewrite binary_round_opp. reflexivity.
  - simpl Z.opp. rewrite binary_round_opp. reflexivity.
Qed.

(** X15: the unit conversion is symmetric about zero.  If two moves
    hand on opposite positions, the cached positions and the encoder
    counts issued are opposite; if two devices report opposite non-zero
    counts, the positions [GetPositionUm] returns and caches are
    opposite. *)
Theorem conversion_is_odd (w w' : Responses) (a a' : ThorlabsKinesisTCubeServo)
    (p p' : double) :
  clamped a' p' = SFopp (clamped a p) ->
  CC_GetPosition_result w <> 0 ->
  CC_GetPosition_result w' = - CC_GetPosition_result w ->
  curPosUm_ (object_of (SetPositionUm p' a')) =
    SFopp (curPosUm_ (object_of (SetPositionUm p a))) /\
  newPosition (object_of (SetPositionUm p' a')) =
    SFopp (newPosition (object_of (SetPositionUm p a))) /\
  snd (value_of (GetPositionUm w' a')) = SFopp (snd (value_of (GetPositionUm w a))) /\
  curPosUm_ (object_of (GetPositionUm w' a')) =
    SFopp (curPosUm_ (object_of (GetPositionUm w a))).
Proof.
  intros Hc Hz Hw.
  assert (Hcur : curPosUm_ (object_of (SetPositionUm p' a')) =
                 SFopp (curPosUm_ (object_of (SetPositionUm p a)))).
  { rewrite !SetPositionUm_run. cbv zeta.
    change (double_to_float (clamped a' p') = SFopp (double_to_float (clamped a p))).
    rewrite Hc. apply double_to_float_opp. }
  split; [exact Hcur | split; [ | split]].
  - rewrite !SetPositionUm_counts, Hcur. apply um_to_counts_opp.
  - change (snd (value_of (GetPositionUm w' a')))
      with (float_to_double (counts_to_um (F32.of_Z (CC_GetPosition_result w')))).
    change (snd (value_of (GetPositionUm w a)))
      with (float_to_double (counts_to_um (F32.of_Z (CC_GetPosition_result w)))).
    rewrite Hw, (F32_of_Z_opp _ Hz), counts_to_um_opp, float_to_double_opp.
    reflexivity.
  - rewrite !GetPositionUm_um, Hw, (F32_of_Z_opp _ Hz). apply counts_to_um_opp.
Qed.

Lemma conversion_is_odd_witness :
  clamped symmetric (F64.of_Z (-1000)) = SFopp (clamped symmetric (F64.of_Z 1000)) /\
  CC_GetPosition_result (device_at 34304 true) <> 0 /\
  CC_GetPosition_result (device_at (-34304) true) =
    - CC_GetPosition_result (device_at 34304 true) /\
  newPosition (object_of (SetPositionUm (F64.of_Z (-1000)) symmetric)) =
    SFopp (newPosition (object_of (SetPositionUm (F64.of_Z 1000) symmetric))) /\
  snd (value_of (GetPositionUm (device_at (-34304) true) symmetric)) =
    SFopp (snd (value_of (GetPositionUm (device_at 34304 true) symmetric))).
Proof.
  assert (Hz : CC_GetPosition_result (device_at 34304 true) <> 0) by discriminate.
  split; [reflexivity | split; [exact Hz | split; [reflexivity | ]]].
  pose proof (conversion_is_odd (device_at 34304 true) (device_at (-34304) true)
                symmetric symmetric (F64.of_Z 1000) (F64.of_Z (-1000))
                eq_refl Hz eq_refl) as (_ & H1 & H2 & _).
  split; assumption.
Defined.


(** ** The initialized flag in the property handlers *)

Ltac split_ifs :=
  repeat match goal with
         | |- context [if ?b then _ else _] => destruct b; cbv beta iota
         end.

Ltac same_either_way a b :=
  destruct a as [? ? ? ? ? ini ? ? ? ? ? ? ? ? ? ? ? ? apt];
  destruct b, ini; exec;
  unfold pfMinPos_times_1000, pfMaxPos_times_1000; simpl;
  split_ifs; split; reflexivity.

(** X16: [initialized_] gates nothing.  The test of the flag in the
    handlers of the serial-number, channel and limit properties changes
    nothing, and the motion commands do not look at it: a property write, a
    move, a home command and a velocity command make the same calls and
    leave the same object, the flag apart, whether the flag is set or
    not, so also after [Shutdown]. *)
Theorem initialized_gates_nothing (w : Responses) (a : ThorlabsKinesisTCubeServo)
    (b : bool) (serial : string) (channel : Z) (limit pos vel : double) :
  let same {A : Type} (c : M A) :=
    calls_of (c (set_initialized_ b a)) = calls_of (c a) /\
    set_initialized_ b (object_of (c a)) = object_of (c (set_initialized_ b a)) in
  same (OnSerialNumber serial AfterSet) /\
  same (OnChannelNumber channel AfterSet) /\
  same (OnMinPosUm limit AfterSet) /\
  same (OnMaxPosUm limit AfterSet) /\
  same (SetPositionUm pos) /\
  same (Home w) /\
  same (SetVelParam vel).
Proof.
  cbv zeta. repeat apply conj.
  - unfold OnSerialNumber. same_either_way a b.
  - unfold OnSerialNumber. same_either_way a b.
  - unfold OnChannelNumber. same_either_way a b.
  - unfold OnChannelNumber. same_either_way a b.
  - unfold OnMinPosUm, limit_minTravelUm_. same_either_way a b.
  - unfold OnMinPosUm, limit_minTravelUm_. same_either_way a b.
  - unfold OnMaxPosUm, limit_maxTravelUm_. same_either_way a b.
  - unfold OnMaxPosUm, limit_maxTravelUm_. same_either_way a b.
  - rewrite !SetPositionUm_run. reflexivity.
  - rewrite !SetPositionUm_run. reflexivity.
  - destruct (homed_ a) eqn:Hh.
    + rewrite (Home_already_homed w a Hh),
              (Home_already_homed w (set_initialized_ b a) Hh). reflexivity.
    + rewrite (Home_not_yet_homed w a Hh),
              (Home_not_yet_homed w (set_initialized_ b a) Hh). reflexivity.
  - destruct (homed_ a) eqn:Hh.
    + rewrite (Home_already_homed w a Hh),
              (Home_already_homed w (set_initialized_ b a) Hh). reflexivity.
    + rewrite (Home_not_yet_homed w a Hh),
              (Home_not_yet_homed w (set_initialized_ b a) Hh). reflexivity.
  - reflexivity.
  - reflexivity.
Qed.

(** ** What UpdateStatus does to the members *)

Lemma leads_bind {A B : Type} (P R Q : ThorlabsKinesisTCubeServo -> Prop)
    (c : M A) (k : A -> M B) :
  leads P R c -> (forall x, leads R Q (k x)) -> leads P Q (bind c k).
Proof.
  intros Hc Hk a H. rewrite object_of_bind. apply Hk, Hc, H.
Qed.

Lemma keeps_leads {A : Type} (P : ThorlabsKinesisTCubeServo -> Prop) (c : M A) :
  keeps P c -> leads P P c.
Proof. intros H. exact H. Qed.

Lemma leads_anywhere {A : Type} (P : ThorlabsKinesisTCubeServo -> Prop) (c : M A) :
  leads P (fun _ => True) c.
Proof. intros a _. exact I. Qed.

(** The member function at the head of a sequence keeps the property. *)
Ltac kept := eapply leads_bind; [ apply keeps_leads; keeps_auto | intros _ ].

(** The member function at the head of a sequence is passed over. *)
Ltac passed := eapply leads_bind; [ apply leads_anywhere | intros _ ].

(** [limited] depends on the adapter through its hardware bounds only. *)
Lemma limited_bounds (a b : ThorlabsKinesisTCubeServo) (v : double) :
  pfMinPos b = pfMinPos a -> pfMaxPos b = pfMaxPos a -> limited b v = limited a v.
Proof.
  unfold limited, pfMinPos_times_1000, pfMaxPos_times_1000.
  intros -> ->. reflexivity.
Qed.

Lemma OnMinPosUm_BeforeGet_leads (a : ThorlabsKinesisTCubeServo) (min max v : double) :
  leads (limits_and_bounds (pfMinPos a) (pfMaxPos a) min max)
        (limits_and_bounds (pfMinPos a) (pfMaxPos a) (limited a min) max)
        (OnMinPosUm v BeforeGet).
Proof.
  intros x (Hlo & Hhi & Hmin & Hmax).
  destruct (OnMinPosUm_BeforeGet x v) as (rest & _ & Hmin' & Hmax').
  assert (K : keeps (hardware_is (pfMinPos a) (pfMaxPos a) (pfAccn x))
                (OnMinPosUm v BeforeGet)) by keeps_auto.
  destruct (K x (conj Hlo (conj Hhi eq_refl))) as (Hlo' & Hhi' & _).
  repeat split; try assumption.
  - rewrite Hmin', Hmin. apply limited_bounds; assumption.
  - rewrite Hmax'. exact Hmax.
Qed.

Lemma OnMaxPosUm_BeforeGet_leads (a : ThorlabsKinesisTCubeServo) (min max v : double) :
  leads (limits_and_bounds (pfMinPos a) (pfMaxPos a) min max)
        (limits_and_bounds (pfMinPos a) (pfMaxPos a) min (limited a max))
        (OnMaxPosUm v BeforeGet).
Proof.
  intros x (Hlo & Hhi & Hmin & Hmax).
  destruct (OnMaxPosUm_BeforeGet x v) as (rest & _ & Hmax' & Hmin').
  assert (K : keeps (hardware_is (pfMinPos a) (pfMaxPos a) (pfAccn x))
                (OnMaxPosUm v BeforeGet)) by keeps_auto.
  destruct (K x (conj Hlo (conj Hhi eq_refl))) as (Hlo' & Hhi' & _).
  repeat split; try assumption.
  - rewrite Hmin'. exact Hmin.
  - rewrite Hmax', Hmax. apply limited_bounds; assumption.
Qed.

(** [UpdateStatus] clamps both travel limits into the hardware bounds: the
    actions of the two limit properties run with [BeforeGet]. *)
Lemma CDeviceBase_UpdateStatus_limits (w : Responses) (a : ThorlabsKinesisTCubeServo)
    (min max : double) :
  leads (limits_and_bounds (pfMinPos a) (pfMaxPos a) min max)
        (limits_and_bounds (pfMinPos a) (pfMaxPos a) (limited a min) (limited a max))
        (CDeviceBase_UpdateStatus w).
Proof.
  unfold CDeviceBase_UpdateStatus, registered_actions. simpl UpdateAll. unfold Update.
  eapply leads_bind; [ | intros _; apply keeps_leads; keeps_auto ].
  kept. kept.
  eapply leads_bind; [ apply OnMinPosUm_BeforeGet_leads | intros _ ].
  eapply leads_bind; [ apply OnMaxPosUm_BeforeGet_leads | intros _ ].
  kept. kept. kept.
  apply keeps_leads; keeps_auto.
Qed.

(** [UpdateStatus] reads the position of the device into [pfPosition] and
    [curPosUm_]: the action of the position property runs with
    [BeforeGet]. *)
Lemma CDeviceBase_UpdateStatus_position (w : Responses) :
  leads (fun _ => True)
        (fun x => pfPosition x = F32.of_Z (CC_GetPosition_result w) /\
                  curPosUm_ x = counts_to_um (F32.of_Z (CC_GetPosition_result w)))
        (CDeviceBase_UpdateStatus w).
Proof.
  unfold CDeviceBase_UpdateStatus, registered_actions. simpl UpdateAll. unfold Update.
  eapply leads_bind; [ | intros _; apply keeps_leads; keeps_auto ].
  passed. passed. passed. passed. passed.
  eapply leads_bind;
    [ | intros _; kept; apply keeps_leads; keeps_auto ].
  intros x _. split; reflexivity.
Qed.

(** [UpdateStatus] reads the velocity limits of the device again: the
    action of the velocity property runs with [BeforeGet]. *)
Lemma CDeviceBase_UpdateStatus_velocity (w : Responses) :
  leads (fun _ => True)
        (fun x => pfMaxVel x = CC_GetMotorVelocityLimits_maxVelocity w /\
                  pfMaxAccn x = CC_GetMotorVelocityLimits_maxAcceleration w)
        (CDeviceBase_UpdateStatus w).
Proof.
  unfold CDeviceBase_UpdateStatus, registered_actions. simpl UpdateAll. unfold Update.
  eapply leads_bind; [ | intros _; apply keeps_leads; keeps_auto ].
  passed. passed. passed. passed. passed. passed.
  eapply leads_bind; [ | intros _; apply keeps_leads; keeps_auto ].
  intros x _. split; reflexivity.
Qed.

(** The members [UpdateStatus] leaves alone. *)
Lemma CDeviceBase_UpdateStatus_keeps (w : Responses) (i p : bool) (u : double)
    (s : string) :
  keeps (fun x => initialized_ x = i /\ aptInitialized x = p /\
                  posUm_ x = u /\ serialNumber_ x = s)
        (CDeviceBase_UpdateStatus w).
Proof. keeps_auto. Qed.

(** ** Initialize *)

(** What [Initialize] returns and assigns. *)
Lemma Initialize_fields (w : Responses) (a : ThorlabsKinesisTCubeServo) :
  value_of (Initialize w a) = UpdateStatus_result w /\
  initialized_ (object_of (Initialize w a)) =
    (if UpdateStatus_result w =? DEVICE_OK then true else initialized_ a) /\
  aptInitialized (object_of (Initialize w a)) = true /\
  pfMaxVel (object_of (Initialize w a)) = CC_GetMotorVelocityLimits_maxVelocity w /\
  pfMaxAccn (object_of (Initialize w a)) = CC_GetMotorVelocityLimits_maxAcceleration w /\
  posUm_ (object_of (Initialize w a)) = F64.of_Z (CC_GetPosition_result w) /\
  pfPosition (object_of (Initialize w a)) = F32.of_Z (CC_GetPosition_result w) /\
  curPosUm_ (object_of (Initialize w a)) =
    counts_to_um (F32.of_Z (CC_GetPosition_result w)) /\
  minTravelUm_ (object_of (Initialize w a)) = limited a (minTravelUm_ a) /\
  maxTravelUm_ (object_of (Initialize w a)) = limited a (maxTravelUm_ a) /\
  serialNumber_ (object_of (Initialize w a)) = serialNumber_ a.
Proof.
  unfold Initialize.
  rewrite value_of_bind, object_of_bind.
  change (value_of (GetLimits a)) with (DEVICE_OK, minTravelUm_ a, maxTravelUm_ a).
  cbv beta iota zeta.
  repeat (rewrite value_of_bind; cbv beta).
  repeat (rewrite object_of_bind; cbv beta).
  match goal with
  | |- context [CDeviceBase_UpdateStatus w ?s] => set (before := s)
  end.
  pose proof (CDeviceBase_UpdateStatus_returns w before) as Hret.
  cbv beta in Hret.
  pose proof (CDeviceBase_UpdateStatus_limits w a (minTravelUm_ a) (maxTravelUm_ a)
                before (conj eq_refl (conj eq_refl (conj eq_refl eq_refl))))
    as (_ & _ & Hmin & Hmax).
  pose proof (CDeviceBase_UpdateStatus_position w before I) as (Hpos & Hcur).
  pose proof (CDeviceBase_UpdateStatus_velocity w before I) as (Hvel & Haccn).
  pose proof (CDeviceBase_UpdateStatus_keeps w (initialized_ a) true
                (F64.of_Z (CC_GetPosition_result w)) (serialNumber_ a)
                before (conj eq_refl (conj eq_refl (conj eq_refl eq_refl))))
    as (Hini & Hapt & Hum & Hser).
  revert Hret Hmin Hmax Hpos Hcur Hvel Haccn Hini Hapt Hum Hser.
  generalize (CDeviceBase_UpdateStatus w before). clear before.
  intros [[z after] trace]. unfold value_of, object_of; simpl.
  intros -> Hmin Hmax Hpos Hcur Hvel Haccn Hini Hapt Hum Hser.
  destruct (Z.eqb_spec (UpdateStatus_result w) DEVICE_OK) as [He | Hne];
    simpl; repeat split; try assumption.
  symmetry. exact He.
Qed.


(** ** Writing the velocity property *)

(** X17: after [Initialize], writing any value to the velocity property
    sends the maximum velocity that [CC_GetMotorVelocityLimits] reported
    during [Initialize] as the velocity, with the acceleration member as
    it was before; the value written plays no part. *)
Theorem velocity_write_sends_maximum (w w' : Responses)
    (a : ThorlabsKinesisTCubeServo) (vel : double) :
  calls_of (OnVelocity w' vel AfterSet (object_of (Initialize w a))) =
  [CC_SetVelParams (serialNumber_ a) (pfAccn a)
     (CC_GetMotorVelocityLimits_maxVelocity w)].
Proof.
  destruct (Initialize_fields w a)
    as (_ & _ & _ & Hvel & _ & _ & _ & _ & _ & _ & Hserial).
  assert (K : keeps (hardware_is (pfMinPos a) (pfMaxPos a) (pfAccn a)) (Initialize w))
    by keeps_auto.
  destruct (K a (conj eq_refl (conj eq_refl eq_refl))) as (_ & _ & Haccn).
  revert Hvel Hserial Haccn.
  generalize (object_of (Initialize w a)). intros b Hvel Hserial Haccn.
  change (OnVelocity w' vel AfterSet b) with (SetVelParam vel b).
  change (calls_of (SetVelParam vel b))
    with [CC_SetVelParams (serialNumber_ b) (pfAccn b) (pfMaxVel b)].
  rewrite Hvel, Hserial, Haccn. reflexivity.
Qed.

(** ** The travel-limit invariant *)

Lemma run_Initialize (w : Responses) (a : ThorlabsKinesisTCubeServo) :
  fst (run w op_Initialize a) = object_of (Initialize w a).
Proof. cbv beta iota zeta delta [run fst]. reflexivity. Qed.

(** Clamping two ordered values into ordered bounds leaves them ordered. *)
Lemma limited_ordered (a : ThorlabsKinesisTCubeServo) (x y : double) :
  F64.leb (pfMinPos_times_1000 a) (pfMaxPos_times_1000 a) = true ->
  F64.leb x y = true ->
  F64.leb (limited a x) (limited a y) = true.
Proof.
  intros Hb Hxy.
  destruct (leb_not_nan _ _ Hb) as [Hlo Hhi].
  destruct (leb_not_nan _ _ Hxy) as [Hx Hy].
  unfold limited.
  destruct (F64.gtb x (pfMaxPos_times_1000 a)) eqn:Ex.
  - assert (Ey : F64.gtb y (pfMaxPos_times_1000 a) = true)
      by (unfold F64.gtb in *; exact (ltb_leb_trans _ _ _ Ex Hxy)).
    rewrite Ey. apply leb_refl. exact Hhi.
  - destruct (F64.ltb x (pfMinPos_times_1000 a)) eqn:Ex'.
    + destruct (F64.gtb y (pfMaxPos_times_1000 a)); [exact Hb | ].
      destruct (F64.ltb y (pfMinPos_times_1000 a)) eqn:Ey'.
      * apply leb_refl. exact Hlo.
      * apply not_ltb_leb; assumption.
    + destruct (F64.gtb y (pfMaxPos_times_1000 a)).
      * apply not_ltb_leb; assumption.
      * destruct (F64.ltb y (pfMinPos_times_1000 a)) eqn:Ey'; [ | exact Hxy].
        rewrite (leb_ltb_trans _ _ _ Hxy Ey') in Ex'. discriminate Ex'.
Qed.

(** C5, amended: the limits are ordered after construction (0 and 50000).
    Every operation other than [SetLimits], [Initialize] and the handlers
    of the two limit properties leaves both limits as they are, so it
    preserves the order.  [Initialize], whose [UpdateStatus] runs the two
    limit handlers with [BeforeGet], replaces each limit by its clamp into
    the hardware range, which is [0, 50 000 000] in every reachable state:
    it can change the limits, and it keeps them ordered.
    [SetLimits(min, max)] leaves the limits ordered exactly when
    [min <= max]. *)
Theorem limits_ordered_kept :
  (forall junk e deviceName chNumber,
      limits_ordered (object_of (construct junk e deviceName chNumber))) /\
  (forall junk e, limits_ordered (object_of (construct_default junk e))) /\
  (forall w o a,
      writes_limits o = false ->
      limits_ordered a ->
      limits_ordered (fst (run w o a)) /\
      minTravelUm_ (fst (run w o a)) = minTravelUm_ a /\
      maxTravelUm_ (fst (run w o a)) = maxTravelUm_ a) /\
  (forall w a,
      reachable a ->
      limits_ordered a ->
      limits_ordered (fst (run w op_Initialize a)) /\
      minTravelUm_ (fst (run w op_Initialize a)) = limited a (minTravelUm_ a) /\
      maxTravelUm_ (fst (run w op_Initialize a)) = limited a (maxTravelUm_ a) /\
      pfMinPos_times_1000 a = F64.of_Z 0 /\
      pfMaxPos_times_1000 a = F64.of_Z 50000000) /\
  (forall a min max,
      limits_ordered (object_of (SetLimits min max a)) <-> F64.leb min max = true).
Proof.
  repeat apply conj.
  - intros junk e deviceName chNumber. unfold limits_ordered.
    destruct (construct_limits junk e deviceName chNumber) as [-> ->]. reflexivity.
  - intros junk e. unfold limits_ordered.
    destruct (construct_default_limits junk e) as [-> ->]. reflexivity.
  - intros w o a Hw H.
    destruct (run_keeps_limits w o (minTravelUm_ a) (maxTravelUm_ a) a Hw
                (conj eq_refl eq_refl)) as [Hmin Hmax].
    unfold limits_ordered. rewrite Hmin, Hmax. auto.
  - intros w a Hr H.
    destruct (reachable_bounds a Hr) as [Hlo Hhi].
    destruct (Initialize_fields w a)
      as (_ & _ & _ & _ & _ & _ & _ & _ & Hmin & Hmax & _).
    rewrite run_Initialize. unfold limits_ordered. rewrite Hmin, Hmax.
    repeat split; try assumption.
    apply limited_ordered; [ | exact H].
    rewrite Hlo, Hhi. reflexivity.
  - intros a min max. unfold limits_ordered. simpl. tauto.
Qed.

Lemma limits_ordered_kept_witness :
  reachable lowered /\
  limits_ordered lowered /\
  limits_ordered (fst (run (device_at 0 true) op_Initialize lowered)) /\
  minTravelUm_ (fst (run (device_at 0 true) op_Initialize lowered)) =
    limited lowered (minTravelUm_ lowered).
Proof.
  assert (Hr : reachable lowered).
  { unfold lowered. apply reachable_run.
    exact (reachable_construct_default zeroed no_devices). }
  split; [exact Hr | split; [reflexivity | ]].
  destruct (proj1 (proj2 (proj2 (proj2 limits_ordered_kept)))
              (device_at 0 true) lowered Hr eq_refl) as (H1 & H2 & _).
  split; assumption.
Defined.

(** * The unit conversion in real numbers *)

(** The conversions between micrometres and encoder counts are followed
    through the roundings of [SpecFloat]: each operation returns a number
    near the exact result, and the distances add up. *)

(** ** Powers of two *)

Lemma bpow_pos (e : Z) : (0 < bpow e)%R.
Proof. apply powerRZ_lt. lra. Qed.

Lemma bpow_0 : bpow 0 = 1%R.
Proof. reflexivity. Qed.

Lemma bpow_1 : bpow 1 = 2%R.
Proof. unfold bpow. simpl. lra. Qed.

Lemma bpow_add (a b : Z) : bpow (a + b) = (bpow a * bpow b)%R.
Proof. apply powerRZ_add. lra. Qed.

Lemma bpow_IZR (n : Z) : 0 <= n -> bpow n = IZR (2 ^ n).
Proof.
  intros Hn. unfold bpow.
  rewrite <- (Z2Nat.id n Hn) at 1.
  rewrite <- pow_powerRZ.
  rewrite pow_IZR. rewrite Z2Nat.id by exact Hn. reflexivity.
Qed.

Lemma bpow_lt (a b : Z) : a < b -> (bpow a < bpow b)%R.
Proof.
  intros H.
  replace b with (a + (b - a)) by lia.
  rewrite bpow_add.
  assert (H1 : (1 < bpow (b - a))%R).
  { rewrite bpow_IZR by lia. apply IZR_lt.
    change 1 with (2 ^ 0). apply Z.pow_lt_mono_r; lia. }
  pose proof (bpow_pos a). nra.
Qed.

Lemma bpow_le (a b : Z) : a <= b -> (bpow a <= bpow b)%R.
Proof.
  intros H. destruct (Z.eq_dec a b) as [-> | Hne]; [lra | ].
  apply Rlt_le, bpow_lt. lia.
Qed.

Lemma bpow_le_inv (a b : Z) : (bpow a <= bpow b)%R -> a <= b.
Proof.
  intros H. destruct (Z_le_gt_dec a b) as [Hle | Hgt]; [exact Hle | ].
  assert (b < a) by lia. pose proof (bpow_lt b a H0). lra.
Qed.

Lemma bpow_lt_inv (a b : Z) : (bpow a < bpow b)%R -> a < b.
Proof.
  intros H. destruct (Z_lt_le_dec a b) as [Hlt | Hge]; [exact Hlt | ].
  pose proof (bpow_le b a Hge). lra.
Qed.

(** ** Binary digits *)

Lemma digits2_pos_size (p : positive) : digits2_pos p = Pos.size p.
Proof. induction p; simpl; congruence. Qed.

Lemma Zdigits2_bounds (m : Z) :
  0 < m -> 2 ^ (Zdigits2 m - 1) <= m < 2 ^ Zdigits2 m.
Proof.
  destruct m as [|p|p]; try lia. intros _. simpl Zdigits2.
  rewrite digits2_pos_size.
  pose proof (Pos.size_gt p) as Hgt. pose proof (Pos.size_le p) as Hle.
  assert (H1 : Zpos (2 ^ Pos.size p) = 2 ^ Zpos (Pos.size p))
    by (rewrite Pos2Z.inj_pow; reflexivity).
  split.
  - assert (2 ^ Zpos (Pos.size p) <= 2 * Zpos p).
    { rewrite <- H1. change (2 * Zpos p) with (Zpos p~0). lia. }
    replace (Zpos (Pos.size p)) with (Zpos (Pos.size p) - 1 + 1) in H by lia.
    rewrite Z.pow_add_r in H by lia. lia.
  - rewrite <- H1. lia.
Qed.

Lemma Zdigits2_nonneg (m : Z) : 0 <= m -> 0 <= Zdigits2 m.
Proof. destruct m; simpl; lia. Qed.

Lemma Zdigits2_pos (m : Z) : 0 < m -> 0 < Zdigits2 m.
Proof. destruct m; simpl; lia. Qed.

(** A lower bound on the number gives one on its digits. *)
Lemma Zdigits2_ge (m k : Z) : 0 <= k -> 2 ^ k <= m -> k + 1 <= Zdigits2 m.
Proof.
  intros Hk H.
  assert (Hm : 0 < m) by (pose proof (Z.pow_pos_nonneg 2 k); lia).
  destruct (Zdigits2_bounds m Hm) as [_ Hup].
  assert (2 ^ k < 2 ^ Zdigits2 m) by lia.
  apply Z.pow_lt_mono_r_iff in H0; try lia.
  pose proof (Zdigits2_nonneg m). lia.
Qed.

Lemma Zdigits2_le (m k : Z) : 0 <= m -> 0 <= k -> m < 2 ^ k -> Zdigits2 m <= k.
Proof.
  intros Hm Hk H.
  destruct (Z.eq_dec m 0) as [-> | Hne]; [simpl; lia | ].
  destruct (Zdigits2_bounds m ltac:(lia)) as [Hlo _].
  assert (2 ^ (Zdigits2 m - 1) < 2 ^ k) by lia.
  apply Z.pow_lt_mono_r_iff in H0; lia.
Qed.

Lemma Zdigits2_mono (m n : Z) : 0 <= m -> m <= n -> Zdigits2 m <= Zdigits2 n.
Proof.
  intros Hm H.
  destruct (Z.eq_dec n 0) as [-> | Hn].
  - assert (m = 0) by lia. subst. lia.
  - destruct (Zdigits2_bounds n ltac:(lia)) as [_ Hup].
    apply Zdigits2_le; try lia. apply Zdigits2_nonneg. lia.
Qed.

(** ** Shifting right *)

Lemma shr_1_m (mrs : shr_record) :
  0 <= shr_m mrs -> shr_m (shr_1 mrs) = shr_m mrs / 2.
Proof.
  destruct mrs as [m r s]. simpl. intros H.
  destruct m as [|[p|p|]|p]; try lia; rewrite <- Z.div2_div; reflexivity.
Qed.

Lemma iter_pos_shr_1_m (p : positive) (mrs : shr_record) :
  0 <= shr_m mrs ->
  shr_m (iter_pos shr_1 p mrs) = shr_m mrs / 2 ^ Zpos p.
Proof.
  revert mrs. induction p as [p IH | p IH | ]; intros mrs H; simpl iter_pos.
  - assert (H1 : 0 <= shr_m (shr_1 mrs)).
    { rewrite shr_1_m by exact H. apply Z.div_pos; lia. }
    assert (H2 : 0 <= shr_m (iter_pos shr_1 p (shr_1 mrs))).
    { rewrite IH by exact H1. apply Z.div_pos; [exact H1 | apply Z.pow_pos_nonneg; lia]. }
    rewrite IH by exact H2. rewrite IH by exact H1. rewrite shr_1_m by exact H.
    rewrite !Z.div_div by (try apply Z.pow_pos_nonneg; lia).
    rewrite <- Z.pow_add_r by lia. rewrite <- Z.pow_succ_r by lia.
    f_equal. f_equal. lia.
  - assert (H2 : 0 <= shr_m (iter_pos shr_1 p mrs)).
    { rewrite IH by exact H. apply Z.div_pos; [exact H | apply Z.pow_pos_nonneg; lia]. }
    rewrite IH by exact H2. rewrite IH by exact H.
    rewrite !Z.div_div by (try apply Z.pow_pos_nonneg; lia).
    rewrite <- Z.pow_add_r by lia.
    f_equal. f_equal. lia.
  - rewrite shr_1_m by exact H. reflexivity.
Qed.

Lemma shr_record_of_loc_m (m : Z) (l : location) : shr_m (shr_record_of_loc m l) = m.
Proof. destruct l as [|[ | | ]]; reflexivity. Qed.




Lemma trunc_bounds (m n : Z) :
  0 <= m -> 0 <= n ->
  0 <= m / 2 ^ n /\ m / 2 ^ n * 2 ^ n <= m < (m / 2 ^ n + 1) * 2 ^ n.
Proof.
  intros Hm Hn.
  assert (Hp : 0 < 2 ^ n) by (apply Z.pow_pos_nonneg; lia).
  split; [apply Z.div_pos; lia | ].
  pose proof (Z.div_mod m (2 ^ n) ltac:(lia)) as Hdm.
  pose proof (Z.mod_pos_bound m (2 ^ n) Hp). nia.
Qed.

Lemma trunc_real (m n e : Z) (x : R) :
  0 <= m -> 0 <= n ->
  (IZR m * bpow e <= x < IZR (m + 1) * bpow e)%R ->
  (IZR (m / 2 ^ n) * bpow (e + n) <= x < IZR (m / 2 ^ n + 1) * bpow (e + n))%R.
Proof.
  intros Hm Hn [Hlo Hhi].
  destruct (trunc_bounds m n Hm Hn) as (Hq & H1 & H2).
  rewrite bpow_add, (bpow_IZR n Hn).
  pose proof (bpow_pos e) as He.
  apply IZR_le in H1. rewrite mult_IZR in H1.
  assert (H3 : m + 1 <= (m / 2 ^ n + 1) * 2 ^ n) by lia.
  apply IZR_le in H3. rewrite mult_IZR in H3.
  split.
  - apply Rle_trans with (IZR m * bpow e)%R; [ | exact Hlo].
    replace (IZR (m / 2 ^ n) * (bpow e * IZR (2 ^ n)))%R
      with (IZR (m / 2 ^ n) * IZR (2 ^ n) * bpow e)%R by ring.
    apply Rmult_le_compat_r; lra.
  - apply Rlt_le_trans with (IZR (m + 1) * bpow e)%R; [exact Hhi | ].
    replace (IZR (m / 2 ^ n + 1) * (bpow e * IZR (2 ^ n)))%R
      with (IZR (m / 2 ^ n + 1) * IZR (2 ^ n) * bpow e)%R by ring.
    apply Rmult_le_compat_r; lra.
Qed.

Lemma digits_real (m : Z) :
  0 < m -> (bpow (Zdigits2 m - 1) <= IZR m < bpow (Zdigits2 m))%R.
Proof.
  intros Hm. destruct (Zdigits2_bounds m Hm) as [Hlo Hhi].
  pose proof (Zdigits2_pos m Hm).
  rewrite !bpow_IZR by lia.
  split; [apply IZR_le | apply IZR_lt]; assumption.
Qed.

Lemma trunc_digits (m n : Z) :
  0 < m -> 0 <= n -> n < Zdigits2 m -> Zdigits2 m - n <= Zdigits2 (m / 2 ^ n).
Proof.
  intros Hm Hn Hd.
  destruct (Zdigits2_bounds m Hm) as [Hlo _].
  assert (H : 2 ^ (Zdigits2 m - 1 - n) <= m / 2 ^ n).
  { rewrite Z.pow_sub_r by lia.
    apply Z.div_le_mono; [apply Z.pow_pos_nonneg; lia | exact Hlo]. }
  pose proof (Zdigits2_ge (m / 2 ^ n) (Zdigits2 m - 1 - n) ltac:(lia) H). lia.
Qed.




Lemma iter_xO (m k : positive) : Zpos (Pos.iter xO m k) = Zpos m * 2 ^ Zpos k.
Proof.
  induction k as [|k IH] using Pos.peano_ind.
  - simpl. lia.
  - rewrite Pos.iter_succ, Pos2Z.inj_xO, IH, Pos2Z.inj_succ, Z.pow_succ_r by lia. lia.
Qed.

Lemma signed_abs (s : bool) (x : R) : (0 <= x)%R -> Rabs (signed s x) = x.
Proof.
  intros H. destruct s; simpl.
  - rewrite Rabs_Ropp. apply Rabs_pos_eq. exact H.
  - apply Rabs_pos_eq. exact H.
Qed.

Lemma real_value_signed (s : bool) (m : positive) (e : Z) :
  real_value (S754_finite s m e) = signed s (IZR (Zpos m) * bpow e).
Proof. destruct s; simpl; ring. Qed.

Lemma signed_xorb (a b : bool) (x y : R) :
  signed (xorb a b) (x * y) = (signed a x * signed b y)%R.
Proof. destruct a, b; simpl; ring. Qed.

Section Format.

Variables prec emax : Z.
Hypothesis Hprec : 0 < prec.
Hypothesis Hemax : prec < emax.

(** [shr_fexp] drops the digits below the exponent of the format. *)
Lemma shr_fexp_m (m e : Z) (l : location) :
  0 <= m ->
  let n := Z.max 0 (fexp prec emax (Zdigits2 m + e) - e) in
  shr_m (fst (shr_fexp prec emax m e l)) = m / 2 ^ n /\
  snd (shr_fexp prec emax m e l) = e + n.
Proof.
  intros Hm. cbv zeta. unfold shr_fexp, shr.
  destruct (fexp prec emax (Zdigits2 m + e) - e) as [|p|p] eqn:E; simpl fst; simpl snd.
  - rewrite shr_record_of_loc_m. simpl. rewrite Z.div_1_r. split; lia.
  - rewrite iter_pos_shr_1_m by (rewrite shr_record_of_loc_m; exact Hm).
    rewrite shr_record_of_loc_m.
    rewrite Z.max_r by lia. split; reflexivity.
  - rewrite shr_record_of_loc_m. rewrite Z.max_l by lia.
    simpl. rewrite Z.div_1_r. split; lia.
Qed.

Lemma round_nearest_even_range (m : Z) (l : location) :
  m <= round_nearest_even m l <= m + 1.
Proof.
  destruct l as [|[ | | ]]; simpl; try lia.
  destruct (Z.even m); lia.
Qed.


Lemma emin_bounds :
  emin prec emax <= 0 /\ emin prec emax <= emax - prec /\ emin prec emax <= emax - 2.
Proof. unfold emin. lia. Qed.

Lemma fexp_ge_emin (k : Z) : emin prec emax <= fexp prec emax k.
Proof. unfold fexp. lia. Qed.

Lemma real_value_finite (s : bool) (p : positive) (e : Z) (x : R) :
  (real_value (S754_finite s p e) - signed s x =
   (if s then -1 else 1) * (IZR (Zpos p) * bpow e - x))%R.
Proof. simpl. destruct s; simpl; ring. Qed.

Lemma Rabs_signed (s : bool) (y : R) :
  Rabs ((if s then -1 else 1) * y) = Rabs y.
Proof.
  destruct s.
  - replace (-1 * y)%R with (- y)%R by ring. apply Rabs_Ropp.
  - replace (1 * y)%R with y by ring. reflexivity.
Qed.

(** The result of [binary_round_aux] on a number [x] that lies between
    [m * 2^e] and [(m + 1) * 2^e], when [m] has at least the digits of the
    format and [x] is far below the largest number: the result is finite,
    it is within [6 * 2^-prec * x + 3 * 2^emin] of [x], and it has at least
    the digits of the format again. *)
Lemma binary_round_aux_error (s : bool) (m e : Z) (l : location) (x : R) :
  0 <= m ->
  (IZR m * bpow e <= x < IZR (m + 1) * bpow e)%R ->
  e <= fexp prec emax (Zdigits2 m + e) ->
  (x <= bpow (emax - 2))%R ->
  well_formed prec emax (binary_round_aux prec emax s m e l) /\
  (Rabs (real_value (binary_round_aux prec emax s m e l) - signed s x)
   <= 6 * bpow (- prec) * x + 3 * bpow (emin prec emax))%R.
Proof.
  intros Hm Hx Hn1 Hbig.
  destruct emin_bounds as (Hemin0 & Hemin1 & Hemin2).
  unfold binary_round_aux.
  pose proof (shr_fexp_m m e l Hm) as S1. cbv zeta in S1.
  destruct (shr_fexp prec emax m e l) as [mrs1 E1]. simpl in S1.
  destruct S1 as [Sm1 SE1].
  rewrite Z.max_r in Sm1, SE1 by lia.
  remember (Zdigits2 m) as d eqn:Hd.
  remember (fexp prec emax (d + e) - e) as n1 eqn:Hn1def.
  assert (HE1 : E1 = fexp prec emax (d + e)) by lia.
  pose proof (round_nearest_even_range (shr_m mrs1) (loc_of_shr_record mrs1)) as Hmr.
  remember (round_nearest_even (shr_m mrs1) (loc_of_shr_record mrs1)) as mr eqn:Hmrdef.
  rewrite Sm1 in Hmr.
  assert (Hn1' : 0 <= n1) by lia.
  destruct (trunc_bounds m n1 Hm Hn1') as (Hm1 & Hm1lo & Hm1hi).
  pose proof (trunc_real m n1 e x Hm Hn1' Hx) as Hx1.
  remember (m / 2 ^ n1) as m1 eqn:Hm1def.
  replace (e + n1) with E1 in Hx1 by lia.
  assert (Hmr0 : 0 <= mr) by lia.
  pose proof (shr_fexp_m mr E1 loc_Exact Hmr0) as S2. cbv zeta in S2.
  destruct (shr_fexp prec emax mr E1 loc_Exact) as [mrs2 E2]. simpl in S2.
  destruct S2 as [Sm2 SE2].
  remember (Zdigits2 mr) as dr eqn:Hdr.
  remember (fexp prec emax (dr + E1) - E1) as n2 eqn:Hn2def.
  remember (Z.max 0 n2) as k2 eqn:Hk2.
  assert (Hk2' : 0 <= k2) by lia.
  destruct (trunc_bounds mr k2 Hmr0 Hk2') as (Hm2 & Hm2lo & Hm2hi).
  remember (shr_m mrs2) as m2 eqn:Hm2def.
  rewrite <- Sm2 in Hm2, Hm2lo, Hm2hi.
  (* the two exponents *)
  pose proof (fexp_ge_emin (d + e)) as HE1min. rewrite <- HE1 in HE1min.
  pose proof (bpow_pos e) as Hbe.
  pose proof (bpow_pos E1) as HbE1.
  pose proof (bpow_pos E2) as HbE2.
  pose proof (bpow_pos (- prec)) as Hu.
  pose proof (bpow_pos (emin prec emax)) as Hbmin.
  assert (Hx0 : (0 <= x)%R).
  { apply Rle_trans with (IZR m * bpow e)%R; [ | apply Hx].
    apply Rmult_le_pos; [apply IZR_le; exact Hm | lra]. }
  assert (Hu2 : (2 * bpow (- prec) <= 1)%R).
  { rewrite <- bpow_1 at 1. rewrite <- bpow_add, <- bpow_0. apply bpow_le. lia. }
  (* either the first exponent is [emin], or [m] is positive and the
     exponent follows its digits *)
  assert (Hcase1 : E1 = emin prec emax \/
                   (0 < m /\ E1 = d + e - prec /\ n1 = d - prec /\
                    (bpow (d - 1 + e) <= x)%R)).
  { unfold fexp in HE1, Hn1.
    destruct (Z_le_gt_dec (d + e - prec) (emin prec emax)) as [Hc | Hc].
    - left. lia.
    - right.
      assert (Hmpos : 0 < m).
      { destruct (Z.eq_dec m 0) as [-> | Hne]; [ | lia].
        simpl in Hd. subst d. lia. }
      repeat split; try lia.
      destruct (digits_real m Hmpos) as [Hdl _]. rewrite <- Hd in Hdl.
      rewrite bpow_add.
      apply Rle_trans with (IZR m * bpow e)%R; [ | apply Hx].
      apply Rmult_le_compat_r; lra. }
  assert (HB1 : (bpow E1 <= 2 * bpow (- prec) * x + bpow (emin prec emax))%R).
  { assert (Hux : (0 <= 2 * bpow (- prec) * x)%R) by nra.
    destruct Hcase1 as [-> | (Hmpos & -> & _ & Hdx)]; [lra | ].
    replace (d + e - prec) with (1 + - prec + (d - 1 + e)) by lia.
    rewrite (bpow_add (1 + - prec)), (bpow_add 1), bpow_1.
    assert ((2 * bpow (- prec) * bpow (d - 1 + e) <= 2 * bpow (- prec) * x)%R).
    { apply Rmult_le_compat_l; [lra | exact Hdx]. }
    lra. }
  assert (HE1max : E1 <= emax - 2 /\ E1 <= emax - prec).
  { destruct Hcase1 as [-> | (Hmpos & -> & _ & Hdx)]; [lia | ].
    assert (d - 1 + e <= emax - 2) by (apply bpow_le_inv; lra). lia. }
  (* the rounded mantissa *)
  assert (HR2 : (IZR mr * bpow E1 - bpow E1 <= x <= IZR mr * bpow E1 + bpow E1)%R).
  { destruct Hx1 as [Hx1lo Hx1hi]. rewrite plus_IZR in Hx1hi.
    assert (H1 : (IZR m1 <= IZR mr)%R) by (apply IZR_le; lia).
    assert (H2 : (IZR mr <= IZR m1 + 1)%R)
      by (rewrite <- plus_IZR; apply IZR_le; lia).
    split; nra. }
  (* the second shift *)
  assert (HE2 : E2 = E1 + k2) by lia.
  assert (HR3 : (IZR m2 * bpow E2 <= IZR mr * bpow E1)%R /\
                (0 < n2 -> (IZR mr * bpow E1 < IZR m2 * bpow E2 + bpow E2)%R) /\
                (n2 <= 0 -> (IZR m2 * bpow E2 = IZR mr * bpow E1)%R)).
  { rewrite HE2, bpow_add, (bpow_IZR k2 Hk2').
    apply IZR_le in Hm2lo. rewrite mult_IZR in Hm2lo.
    apply IZR_lt in Hm2hi. rewrite mult_IZR, plus_IZR in Hm2hi.
    repeat split.
    - nra.
    - intros _. nra.
    - intros Hle. rewrite Sm2. replace k2 with 0 by lia.
      change (2 ^ 0) with 1. rewrite Z.div_1_r. ring. }
  assert (Hcase2 : n2 <= 0 \/
                   (0 < n2 /\ 0 < mr /\ E2 = dr + E1 - prec /\ k2 = dr - prec /\
                    (bpow (dr - 1 + E1) <= x + bpow E1)%R)).
  { destruct (Z_le_gt_dec n2 0) as [Hc | Hc]; [left; exact Hc | right].
    assert (Hmrpos : 0 < mr).
    { destruct (Z.eq_dec mr 0) as [Hz | Hne]; [ | lia].
      rewrite Hz in Hdr. simpl in Hdr. subst dr. unfold fexp in Hn2def. lia. }
    unfold fexp in Hn2def.
    repeat split; try lia.
    destruct (digits_real mr Hmrpos) as [Hdl _]. rewrite <- Hdr in Hdl.
    rewrite bpow_add.
    apply Rle_trans with (IZR mr * bpow E1)%R; [ | lra].
    apply Rmult_le_compat_r; lra. }
  assert (HB2 : 0 < n2 -> (bpow E2 <= 2 * bpow (- prec) * x + bpow E1)%R).
  { intros Hpos. destruct Hcase2 as [Hc | (_ & _ & -> & _ & Hdx)]; [lia | ].
    replace (dr + E1 - prec) with (1 + - prec + (dr - 1 + E1)) by lia.
    rewrite (bpow_add (1 + - prec)), (bpow_add 1), bpow_1.
    assert ((2 * bpow (- prec) * bpow (dr - 1 + E1)
             <= 2 * bpow (- prec) * (x + bpow E1))%R).
    { apply Rmult_le_compat_l; [lra | exact Hdx]. }
    assert ((2 * bpow (- prec) * bpow E1 <= bpow E1)%R) by nra.
    lra. }
  (* the distance *)
  assert (Herr : (Rabs (IZR m2 * bpow E2 - x)
                  <= 6 * bpow (- prec) * x + 3 * bpow (emin prec emax))%R).
  { destruct HR3 as (H3a & H3b & H3c).
    assert (Hux : (0 <= bpow (- prec) * x)%R) by nra.
    apply Rabs_le.
    destruct (Z_le_gt_dec n2 0) as [Hc | Hc].
    - rewrite (H3c Hc). split; lra.
    - specialize (H3b ltac:(lia)). specialize (HB2 ltac:(lia)). split; lra. }
  (* the result *)
  destruct m2 as [|p2|p2]; [ | | lia].
  - split; [exact I | ].
    simpl real_value. simpl in Herr.
    replace (0 - signed s x)%R with ((if s then -1 else 1) * (0 * bpow E2 - x))%R
      by (destruct s; simpl; ring).
    rewrite Rabs_signed. exact Herr.
  - assert (HE2max : E2 <= emax - prec).
    { destruct Hcase2 as [Hc | (_ & _ & -> & _ & Hdx)]; [lia | ].
      assert ((bpow (dr - 1 + E1) <= bpow (emax - 1))%R).
      { replace (emax - 1) with (1 + (emax - 2)) by lia.
        rewrite (bpow_add 1), bpow_1.
        pose proof (bpow_le E1 (emax - 2) (proj1 HE1max)). lra. }
      assert (dr - 1 + E1 <= emax - 1) by (apply bpow_le_inv; assumption). lia. }
    apply Z.leb_le in HE2max. rewrite HE2max.
    split.
    + (* at least the digits of the format *)
      change (E2 <= fexp prec emax (Zdigits2 (Zpos p2) + E2)). unfold fexp.
      destruct Hcase2 as [Hc | (Hc & Hmrpos & HE2' & Hk2'' & _)].
      * assert (k2 = 0) by lia. assert (E2 = E1) by lia.
        assert (Hmeq : Zpos p2 = mr).
        { rewrite Sm2. replace k2 with 0 by lia. simpl. rewrite Z.div_1_r. reflexivity. }
        rewrite Hmeq, <- Hdr.
        destruct Hcase1 as [He | (Hmpos & HE1' & Hn1'' & _)]; [lia | ].
        assert (d - n1 <= Zdigits2 m1).
        { rewrite Hm1def, Hd. apply trunc_digits; rewrite <- ?Hd; lia. }
        assert (Zdigits2 m1 <= dr).
        { rewrite Hdr. apply Zdigits2_mono; lia. }
        lia.
      * assert (prec <= Zdigits2 (Zpos p2)).
        { rewrite Sm2, Hk2''.
          pose proof (trunc_digits mr (dr - prec) Hmrpos ltac:(lia)
                        ltac:(rewrite <- Hdr; lia)) as Ht.
          rewrite <- Hdr in Ht. lia. }
        lia.
    + rewrite real_value_finite, Rabs_signed. exact Herr.
Qed.


Lemma fexp_mono (a b : Z) : a <= b -> fexp prec emax a <= fexp prec emax b.
Proof. unfold fexp. lia. Qed.

(** [binary_round_aux] on an exact input. *)
Lemma binary_round_aux_exact (s : bool) (m : positive) (e : Z) :
  e <= fexp prec emax (Zdigits2 (Zpos m) + e) ->
  (IZR (Zpos m) * bpow e <= bpow (emax - 2))%R ->
  rounds_to prec emax (signed s (IZR (Zpos m) * bpow e))
    (binary_round_aux prec emax s (Zpos m) e loc_Exact).
Proof.
  intros He Hbig.
  pose proof (bpow_pos e) as Hbe.
  assert (H0 : (0 <= IZR (Zpos m) * bpow e)%R).
  { apply Rmult_le_pos; [apply IZR_le; lia | lra]. }
  unfold rounds_to. rewrite signed_abs by exact H0.
  apply binary_round_aux_error; try assumption; try lia.
  split; [lra | ].
  rewrite plus_IZR. lra.
Qed.

(** Rounding a number to the format. *)
Lemma binary_round_rounds (s : bool) (m : positive) (e : Z) :
  (IZR (Zpos m) * bpow e <= bpow (emax - 2))%R ->
  rounds_to prec emax (real_value (S754_finite s m e)) (binary_round prec emax s m e).
Proof.
  intros Hbig. rewrite real_value_signed.
  unfold binary_round, shl_align.
  change (Z.pos (digits2_pos m)) with (Zdigits2 (Zpos m)).
  remember (fexp prec emax (Zdigits2 (Zpos m) + e)) as t eqn:Ht.
  destruct (t - e) as [|k|k] eqn:Ek.
  - apply binary_round_aux_exact; [lia | exact Hbig].
  - apply binary_round_aux_exact; [lia | exact Hbig].
  - assert (Hv : (IZR (Zpos (Pos.iter xO m k)) * bpow t = IZR (Zpos m) * bpow e)%R).
    { rewrite iter_xO, mult_IZR.
      replace e with (t + Zpos k) by lia.
      rewrite bpow_add, (bpow_IZR (Zpos k)) by lia. ring. }
    rewrite <- Hv.
    apply binary_round_aux_exact; [ | rewrite Hv; exact Hbig].
    rewrite Ht at 1. apply fexp_mono.
    assert (Zdigits2 (Zpos m) + Zpos k <= Zdigits2 (Zpos (Pos.iter xO m k))).
    { destruct (Zdigits2_bounds (Zpos m) ltac:(lia)) as [Hlo _].
      pose proof (Zdigits2_pos (Zpos m) ltac:(lia)).
      assert (H2 : 2 ^ (Zdigits2 (Zpos m) - 1 + Zpos k) <= Zpos (Pos.iter xO m k)).
      { rewrite iter_xO, Z.pow_add_r by lia.
        apply Z.mul_le_mono_nonneg_r; [apply Z.pow_nonneg; lia | exact Hlo]. }
      pose proof (Zdigits2_ge (Zpos (Pos.iter xO m k))
                    (Zdigits2 (Zpos m) - 1 + Zpos k) ltac:(lia) H2). lia. }
    lia.
Qed.

(** Conversion of an integer. *)
Lemma binary_normalize_rounds (z : Z) :
  (Rabs (IZR z) <= bpow (emax - 2))%R ->
  rounds_to prec emax (IZR z) (binary_normalize prec emax z 0 false).
Proof.
  intros Hbig. destruct z as [|p|p]; simpl binary_normalize.
  - split; [exact I | ]. simpl. rewrite Rminus_diag, Rabs_R0.
    pose proof (bpow_pos (emin prec emax)). lra.
  - replace (IZR (Zpos p)) with (real_value (S754_finite false p 0))
      by (unfold real_value; rewrite bpow_0; ring).
    apply binary_round_rounds.
    rewrite bpow_0, Rmult_1_r. rewrite Rabs_pos_eq in Hbig; [exact Hbig | ].
    apply IZR_le. lia.
  - replace (IZR (Zneg p)) with (real_value (S754_finite true p 0))
      by (unfold real_value; rewrite bpow_0; change (Zneg p) with (- Zpos p); rewrite opp_IZR; ring).
    apply binary_round_rounds.
    rewrite bpow_0, Rmult_1_r.
    change (Zneg p) with (- Zpos p) in Hbig. rewrite opp_IZR, Rabs_Ropp in Hbig.
    rewrite Rabs_pos_eq in Hbig; [exact Hbig | ].
    apply IZR_le. lia.
Qed.

Lemma rounds_to_zero (s : bool) : rounds_to prec emax 0 (S754_zero s).
Proof.
  split; [exact I | ]. simpl. rewrite Rminus_diag, Rabs_R0.
  pose proof (bpow_pos (emin prec emax)). lra.
Qed.

(** Multiplication. *)
Lemma SFmul_rounds (x y : spec_float) :
  well_formed prec emax x -> well_formed prec emax y ->
  (Rabs (real_value x * real_value y) <= bpow (emax - 2))%R ->
  rounds_to prec emax (real_value x * real_value y) (SFmul prec emax x y).
Proof.
  destruct emin_bounds as (Hemin0 & _ & _).
  destruct x as [sx|sx| |sx mx ex], y as [sy|sy| |sy my ey];
    cbv beta iota delta [well_formed]; try contradiction; intros Hx Hy Hbig.
  - simpl. rewrite Rmult_0_l. apply rounds_to_zero.
  - simpl SFmul. simpl real_value at 1. rewrite Rmult_0_l. apply rounds_to_zero.
  - simpl SFmul. simpl real_value at 2. rewrite Rmult_0_r. apply rounds_to_zero.
  - rewrite !real_value_signed in *. rewrite <- signed_xorb in *.
    replace (IZR (Zpos mx) * bpow ex * (IZR (Zpos my) * bpow ey))%R
      with (IZR (Zpos (mx * my)) * bpow (ex + ey))%R in *
      by (rewrite Pos2Z.inj_mul, mult_IZR, bpow_add; ring).
    assert (H0 : (0 <= IZR (Zpos (mx * my)) * bpow (ex + ey))%R).
    { apply Rmult_le_pos; [apply IZR_le; lia | apply Rlt_le, bpow_pos]. }
    rewrite signed_abs in Hbig by exact H0.
    simpl SFmul. apply binary_round_aux_exact; [ | exact Hbig].
    (* the product has at least the digits of the format *)
    destruct (Zdigits2_bounds (Zpos mx) ltac:(lia)) as [Hxlo _].
    destruct (Zdigits2_bounds (Zpos my) ltac:(lia)) as [Hylo _].
    pose proof (Zdigits2_pos (Zpos mx) ltac:(lia)) as Hdx.
    pose proof (Zdigits2_pos (Zpos my) ltac:(lia)) as Hdy.
    assert (Hd : Zdigits2 (Zpos mx) + Zdigits2 (Zpos my) - 1
                 <= Zdigits2 (Zpos (mx * my))).
    { assert (H2 : 2 ^ (Zdigits2 (Zpos mx) - 1 + (Zdigits2 (Zpos my) - 1))
                   <= Zpos (mx * my)).
      { rewrite Z.pow_add_r, Pos2Z.inj_mul by lia.
        apply Z.mul_le_mono_nonneg; try assumption; apply Z.pow_nonneg; lia. }
      pose proof (Zdigits2_ge (Zpos (mx * my))
                    (Zdigits2 (Zpos mx) - 1 + (Zdigits2 (Zpos my) - 1))
                    ltac:(lia) H2). lia. }
    unfold fexp in *. lia.
Qed.

(** Division by a number that is not zero. *)
Lemma SFdiv_rounds (x : spec_float) (sy : bool) (my : positive) (ey : Z) :
  is_finite x = true ->
  (Rabs (real_value x / real_value (S754_finite sy my ey)) <= bpow (emax - 2))%R ->
  rounds_to prec emax (real_value x / real_value (S754_finite sy my ey))
    (SFdiv prec emax x (S754_finite sy my ey)).
Proof.
  destruct emin_bounds as (Hemin0 & _ & _).
  destruct x as [sx|sx| |sx mx ex]; try discriminate; intros _ Hbig.
  - simpl SFdiv. simpl real_value at 1.
    unfold Rdiv. rewrite Rmult_0_l. apply rounds_to_zero.
  - pose proof (bpow_pos ex) as Hbx. pose proof (bpow_pos ey) as Hby.
    assert (Hmx : (0 < IZR (Zpos mx))%R) by (apply IZR_lt; lia).
    assert (Hmy : (0 < IZR (Zpos my))%R) by (apply IZR_lt; lia).
    assert (Hden : (0 < IZR (Zpos my) * bpow ey)%R) by (apply Rmult_lt_0_compat; lra).
    assert (Hq : (real_value (S754_finite sx mx ex) / real_value (S754_finite sy my ey)
                  = signed (xorb sx sy)
                      (IZR (Zpos mx) * bpow ex / (IZR (Zpos my) * bpow ey)))%R).
    { rewrite !real_value_signed. destruct sx, sy; simpl; field; lra. }
    rewrite Hq in *.
    set (X := (IZR (Zpos mx) * bpow ex / (IZR (Zpos my) * bpow ey))%R) in *.
    assert (HX0 : (0 < X)%R).
    { unfold X. apply Rdiv_lt_0_compat; [apply Rmult_lt_0_compat; lra | lra]. }
    rewrite signed_abs in Hbig by lra.
    unfold rounds_to. rewrite signed_abs by lra.
    simpl SFdiv. unfold SFdiv_core_binary.
    remember (Zdigits2 (Zpos mx)) as d1 eqn:Hd1.
    remember (Zdigits2 (Zpos my)) as d2 eqn:Hd2.
    remember (Z.min (fexp prec emax (d1 + ex - (d2 + ey))) (ex - ey)) as e' eqn:He'.
    remember (ex - ey - e') as sh eqn:Hsh.
    assert (Hsh0 : 0 <= sh) by lia.
    remember (match sh with
              | 0 => Zpos mx
              | Zpos _ => Z.shiftl (Zpos mx) sh
              | Zneg _ => 0
              end) as m' eqn:Hm'.
    assert (Hm'v : m' = Zpos mx * 2 ^ sh).
    { rewrite Hm'. destruct sh as [|p|p]; [simpl; lia | | lia].
      apply Z.shiftl_mul_pow2. lia. }
    clear Hm'.
    pose proof (Z.div_eucl_eq m' (Zpos my) ltac:(lia)) as Hdiv.
    pose proof (Z.mod_pos_bound m' (Zpos my) ltac:(lia)) as Hmod.
    unfold Z.modulo in Hmod.
    destruct (Z.div_eucl m' (Zpos my)) as [q r]. cbv beta iota in Hdiv, Hmod.
    assert (Hpow : 0 < 2 ^ sh) by (apply Z.pow_pos_nonneg; lia).
    assert (Hq0 : 0 <= q) by nia.
    (* the quotient brackets the exact value *)
    assert (HXv : (X = IZR m' / IZR (Zpos my) * bpow e')%R).
    { unfold X. rewrite Hm'v, mult_IZR.
      replace ex with (sh + e' + ey) by lia.
      rewrite !bpow_add, (bpow_IZR sh Hsh0). field. lra. }
    assert (Hbr : (IZR q * bpow e' <= X < IZR (q + 1) * bpow e')%R).
    { pose proof (bpow_pos e') as Hbe'.
      rewrite HXv, Hdiv, plus_IZR, mult_IZR, plus_IZR.
      assert (Hr1 : (0 <= IZR r)%R) by (apply IZR_le; lia).
      assert (Hr2 : (IZR r < IZR (Zpos my))%R) by (apply IZR_lt; lia).
      replace ((IZR (Zpos my) * IZR q + IZR r) / IZR (Zpos my))%R
        with (IZR q + IZR r / IZR (Zpos my))%R by (field; lra).
      assert (Hf1 : (0 <= IZR r / IZR (Zpos my))%R).
      { apply Rmult_le_pos; [exact Hr1 | apply Rlt_le, Rinv_0_lt_compat; lra]. }
      assert (Hf2 : (IZR r / IZR (Zpos my) < 1)%R).
      { apply Rmult_lt_reg_r with (IZR (Zpos my)); [lra | ].
        unfold Rdiv. rewrite Rmult_assoc, Rinv_l by lra. lra. }
      split; nra. }
    apply binary_round_aux_error; try assumption.
    (* the quotient has at least the digits of the format *)
    unfold fexp in *.
    destruct (Z_le_gt_dec e' (emin prec emax)) as [Hc | Hc]; [lia | ].
    assert (Hs : prec + d2 - d1 <= sh) by lia.
    destruct (Zdigits2_bounds (Zpos mx) ltac:(lia)) as [Hxlo _]. rewrite <- Hd1 in Hxlo.
    destruct (Zdigits2_bounds (Zpos my) ltac:(lia)) as [_ Hyhi]. rewrite <- Hd2 in Hyhi.
    pose proof (Zdigits2_pos (Zpos mx) ltac:(lia)) as Hdx. rewrite <- Hd1 in Hdx.
    pose proof (Zdigits2_pos (Zpos my) ltac:(lia)) as Hdy. rewrite <- Hd2 in Hdy.
    assert (H1 : 2 ^ (prec - 1) * 2 ^ d2 <= m').
    { rewrite Hm'v, <- Z.pow_add_r by lia.
      apply Z.le_trans with (2 ^ (d1 - 1) * 2 ^ sh).
      - rewrite <- Z.pow_add_r by lia. apply Z.pow_le_mono_r; lia.
      - apply Z.mul_le_mono_nonneg_r; lia. }
    assert (H2 : 2 ^ (prec - 1) <= q).
    { assert (0 < 2 ^ (prec - 1)) by (apply Z.pow_pos_nonneg; lia).
      assert (0 < 2 ^ d2) by (apply Z.pow_pos_nonneg; lia).
      nia. }
    pose proof (Zdigits2_ge q (prec - 1) ltac:(lia) H2). lia.
Qed.

End Format.



Lemma Rabs_le_both (x a : R) : (Rabs x <= a)%R <-> (- a <= x <= a)%R.
Proof.
  split.
  - intros H. unfold Rabs in H. destruct (Rcase_abs x); lra.
  - apply Rabs_le.
Qed.

Lemma well_formed_finite (prec emax : Z) (x : spec_float) :
  well_formed prec emax x -> is_finite x = true.
Proof. destruct x; simpl; intros H; try contradiction; reflexivity. Qed.

(** Powers of two as numbers. *)
Lemma bpow_neg (k : Z) : 0 <= k -> bpow (- k) = (/ IZR (2 ^ k))%R.
Proof.
  intros Hk. unfold bpow. rewrite powerRZ_neg'. fold (bpow k).
  rewrite bpow_IZR by exact Hk. reflexivity.
Qed.

Lemma bpow_m2 : bpow (-2) = (/ 4)%R.
Proof. exact (bpow_neg 2 ltac:(lia)). Qed.

Lemma bpow_m3 : bpow (-3) = (/ 8)%R.
Proof. exact (bpow_neg 3 ltac:(lia)). Qed.

Lemma bpow_m24 : bpow (-24) = (/ 16777216)%R.
Proof. exact (bpow_neg 24 ltac:(lia)). Qed.

Lemma bpow_m50 : bpow (-50) = (/ 1125899906842624)%R.
Proof. exact (bpow_neg 50 ltac:(lia)). Qed.

Lemma bpow_m100 : bpow (-100) = (/ 1267650600228229401496703205376)%R.
Proof. exact (bpow_neg 100 ltac:(lia)). Qed.

Lemma bpow_126 : bpow 126 = 85070591730234615865843651857942052864%R.
Proof. exact (bpow_IZR 126 ltac:(lia)). Qed.

(** What a rounding gives, as an interval. *)
Lemma rounds_to_interval (prec emax : Z) (X B : R) (r : spec_float) :
  rounds_to prec emax X r ->
  (Rabs X <= B)%R ->
  well_formed prec emax r /\
  (X - (6 * bpow (- prec) * B + 3 * bpow (emin prec emax)) <= real_value r
   <= X + (6 * bpow (- prec) * B + 3 * bpow (emin prec emax)))%R.
Proof.
  intros [Hwf Herr] HB. split; [exact Hwf | ].
  pose proof (bpow_pos (- prec)) as Hu.
  apply Rabs_le_both in Herr.
  assert ((6 * bpow (- prec) * Rabs X <= 6 * bpow (- prec) * B)%R).
  { apply Rmult_le_compat_l; [lra | exact HB]. }
  lra.
Qed.

(** In [float]: within [6 * 2^-24 * B + 2^-100]. *)
Lemma rounds_to_float (X B : R) (r : float) :
  rounds_to F32.prec F32.emax X r ->
  (Rabs X <= B)%R ->
  well_formed F32.prec F32.emax r /\
  (X - (6 / 16777216 * B + / 1267650600228229401496703205376) <= real_value r
   <= X + (6 / 16777216 * B + / 1267650600228229401496703205376))%R.
Proof.
  intros H HB.
  destruct (rounds_to_interval _ _ _ _ _ H HB) as [Hwf Hi].
  split; [exact Hwf | ].
  change (- F32.prec) with (-24) in Hi. rewrite bpow_m24 in Hi.
  assert (He : (3 * bpow (emin F32.prec F32.emax) <= / 1267650600228229401496703205376)%R).
  { change (emin F32.prec F32.emax) with (-2 + -147).
    rewrite bpow_add, bpow_m2.
    pose proof (bpow_le (-147) (-100) ltac:(lia)) as H1.
    rewrite bpow_m100 in H1. pose proof (bpow_pos (-147)). lra. }
  lra.
Qed.

(** In [double]: within [2^-50 * B + 2^-100]. *)
Lemma rounds_to_double (X B : R) (r : double) :
  rounds_to F64.prec F64.emax X r ->
  (Rabs X <= B)%R ->
  well_formed F64.prec F64.emax r /\
  (X - (/ 1125899906842624 * B + / 1267650600228229401496703205376) <= real_value r
   <= X + (/ 1125899906842624 * B + / 1267650600228229401496703205376))%R.
Proof.
  intros H HB.
  assert (HB0 : (0 <= B)%R) by (pose proof (Rabs_pos X); lra).
  destruct (rounds_to_interval _ _ _ _ _ H HB) as [Hwf Hi].
  split; [exact Hwf | ].
  assert (Hu : (6 * bpow (- F64.prec) <= / 1125899906842624)%R).
  { change (- F64.prec) with (-3 + -50).
    rewrite bpow_add, bpow_m3, bpow_m50. lra. }
  assert (He : (3 * bpow (emin F64.prec F64.emax) <= / 1267650600228229401496703205376)%R).
  { change (emin F64.prec F64.emax) with (-2 + -1072).
    rewrite bpow_add, bpow_m2.
    pose proof (bpow_le (-1072) (-100) ltac:(lia)) as H1.
    rewrite bpow_m100 in H1. pose proof (bpow_pos (-1072)). lra. }
  assert ((6 * bpow (- F64.prec) * B <= / 1125899906842624 * B)%R).
  { apply Rmult_le_compat_r; assumption. }
  lra.
Qed.

Lemma float_range (X : R) :
  (Rabs X <= 85070591730234615865843651857942052864)%R -> (Rabs X <= bpow (F32.emax - 2))%R.
Proof.
  intros H. change (F32.emax - 2) with 126. rewrite bpow_126. exact H.
Qed.

Lemma double_range (X : R) :
  (Rabs X <= 85070591730234615865843651857942052864)%R -> (Rabs X <= bpow (F64.emax - 2))%R.
Proof.
  intros H. pose proof (bpow_le 126 (F64.emax - 2) ltac:(vm_compute; discriminate)) as H1.
  rewrite bpow_126 in H1. lra.
Qed.

(** The conversions between the two formats. *)
Lemma double_to_float_rounds (x : double) :
  is_finite x = true ->
  (Rabs (real_value x) <= 85070591730234615865843651857942052864)%R ->
  rounds_to F32.prec F32.emax (real_value x) (double_to_float x).
Proof.
  intros Hf Hbig. apply float_range in Hbig.
  destruct x as [s|s| |s m e]; try discriminate.
  - apply rounds_to_zero.
  - simpl double_to_float.
    apply binary_round_rounds; try (vm_compute; reflexivity).
    rewrite real_value_signed, signed_abs in Hbig; [exact Hbig | ].
    apply Rmult_le_pos; [apply IZR_le; lia | apply Rlt_le, bpow_pos].
Qed.

Lemma float_to_double_rounds (x : float) :
  is_finite x = true ->
  (Rabs (real_value x) <= 85070591730234615865843651857942052864)%R ->
  rounds_to F64.prec F64.emax (real_value x) (float_to_double x).
Proof.
  intros Hf Hbig. apply double_range in Hbig.
  destruct x as [s|s| |s m e]; try discriminate.
  - apply rounds_to_zero.
  - simpl float_to_double.
    apply binary_round_rounds; try (vm_compute; reflexivity).
    rewrite real_value_signed, signed_abs in Hbig; [exact Hbig | ].
    apply Rmult_le_pos; [apply IZR_le; lia | apply Rlt_le, bpow_pos].
Qed.

(** The constants of the two conversions. *)
Lemma F32_1000 :
  F32.of_Z 1000 = S754_finite false 16384000 (-14) /\
  real_value (F32.of_Z 1000) = 1000%R.
Proof.
  split; [reflexivity | ].
  change (F32.of_Z 1000) with (S754_finite false 16384000 (-14)).
  assert (E : bpow (-14) = (/ 16384)%R) by exact (bpow_neg 14 ltac:(lia)).
  unfold real_value. rewrite E. lra.
Qed.

Lemma F32_34304 :
  well_formed F32.prec F32.emax (F32.of_Z 34304) /\
  real_value (F32.of_Z 34304) = 34304%R.
Proof.
  change (F32.of_Z 34304) with (S754_finite false 8781824 (-8)).
  split; [vm_compute; discriminate | ].
  assert (E : bpow (-8) = (/ 256)%R) by exact (bpow_neg 8 ltac:(lia)).
  unfold real_value. rewrite E. lra.
Qed.

Lemma F64_34304 :
  F64.of_Z 34304 = S754_finite false 4714705859903488 (-37) /\
  real_value (F64.of_Z 34304) = 34304%R.
Proof.
  split; [reflexivity | ].
  change (F64.of_Z 34304) with (S754_finite false 4714705859903488 (-37)).
  assert (E : bpow (-37) = (/ 137438953472)%R) by exact (bpow_neg 37 ltac:(lia)).
  unfold real_value. rewrite E. lra.
Qed.

Lemma F64_1000 :
  well_formed F64.prec F64.emax (F64.of_Z 1000) /\
  real_value (F64.of_Z 1000) = 1000%R.
Proof.
  change (F64.of_Z 1000) with (S754_finite false 8796093022208000 (-43)).
  split; [vm_compute; discriminate | ].
  assert (E : bpow (-43) = (/ 8796093022208)%R) by exact (bpow_neg 43 ltac:(lia)).
  unfold real_value. rewrite E. lra.
Qed.

Lemma F32_format : 0 < F32.prec /\ F32.prec < F32.emax.
Proof. split; reflexivity. Qed.

Lemma F64_format : 0 < F64.prec /\ F64.prec < F64.emax.
Proof. split; reflexivity. Qed.

(** Micrometres to counts: for a position of at most 10^36 micrometres the
    counts issued are is_finite and differ from 34.304 times the position by
    at most 3.69 * 10^-5 times the position (and 10^-25). *)
Lemma um_to_counts_error (p : double) :
  is_finite p = true ->
  (Rabs (real_value p) <= 10 ^ 36)%R ->
  well_formed F32.prec F32.emax (um_to_counts (double_to_float p)) /\
  (Rabs (real_value (um_to_counts (double_to_float p)) - real_value p * 34304 / 1000)
   <= 369 / 10 ^ 7 * Rabs (real_value p) + / 10 ^ 25)%R.
Proof.
  intros Hf HP.
  destruct F32_format as [Hprec Hemax].
  pose proof (Rabs_pos (real_value p)) as HA0.
  pose proof (Rabs_le_both (real_value p) (Rabs (real_value p))) as [HPP _].
  specialize (HPP (Rle_refl _)).
  remember (Rabs (real_value p)) as A eqn:EA.
  assert (HP' : (Rabs (real_value p) <= 85070591730234615865843651857942052864)%R) by (rewrite <- EA; lra).
  assert (HPA : (Rabs (real_value p) <= A)%R) by (rewrite <- EA; lra).
  destruct (rounds_to_float _ _ _ (double_to_float_rounds p Hf HP') HPA) as [Wf If].
  remember (real_value p) as P eqn:EP.
  remember (double_to_float p) as f eqn:Ef.
  unfold um_to_counts, F32.div, F32.mul.
  destruct F32_1000 as [E1000 V1000]. rewrite E1000 in V1000 |- *.
  destruct F32_34304 as [W34304 V34304].
  (* the division *)
  assert (Bq : (Rabs (real_value f / real_value (S754_finite false 16384000 (-14)))
                <= (1 + 4 / 10 ^ 7) * A / 1000 + / 10 ^ 30)%R).
  { rewrite V1000. apply Rabs_le_both. lra. }
  assert (Hq : rounds_to F32.prec F32.emax
                 (real_value f / real_value (S754_finite false 16384000 (-14)))
                 (SFdiv F32.prec F32.emax f (S754_finite false 16384000 (-14)))).
  { apply SFdiv_rounds; try assumption.
    - exact (well_formed_finite _ _ _ Wf).
    - apply float_range. lra. }
  destruct (rounds_to_float _ _ _ Hq Bq) as [Wq Iq].
  rewrite V1000 in Iq.
  remember (SFdiv F32.prec F32.emax f (S754_finite false 16384000 (-14))) as q eqn:Eq.
  (* the multiplication *)
  assert (Bc : (Rabs (real_value q * real_value (F32.of_Z 34304))
                <= 34304 * ((1 + 8 / 10 ^ 7) * A / 1000 + 2 / 10 ^ 30))%R).
  { rewrite V34304. apply Rabs_le_both. lra. }
  assert (Hc : rounds_to F32.prec F32.emax
                 (real_value q * real_value (F32.of_Z 34304))
                 (SFmul F32.prec F32.emax q (F32.of_Z 34304))).
  { apply SFmul_rounds; try assumption. apply float_range. lra. }
  destruct (rounds_to_float _ _ _ Hc Bc) as [Wc Ic].
  rewrite V34304 in Ic.
  split; [exact Wc | ].
  apply Rabs_le_both. lra.
Qed.

(** Counts to micrometres: from a [float] within [a] counts of [C], the
    position read is is_finite and within [a] counts, 4 * 10^-7 of the
    position and 10^-25 micrometres of [C / 34.304]. *)
Lemma counts_to_um_error (g : float) (C a : R) :
  well_formed F32.prec F32.emax g ->
  (Rabs (real_value g - C) <= a)%R ->
  (Rabs C + a <= 4 * 10 ^ 37)%R ->
  is_finite (float_to_double (counts_to_um g)) = true /\
  (Rabs (real_value (float_to_double (counts_to_um g)) - C * 1000 / 34304)
   <= (a + 4 / 10 ^ 7 * (Rabs C + a)) * 1000 / 34304 + / 10 ^ 25)%R.
Proof.
  intros Wg Hg HC.
  destruct F64_format as [Hprec Hemax].
  pose proof (Rabs_pos C) as HA0.
  pose proof (Rabs_le_both C (Rabs C)) as [HCC _].
  specialize (HCC (Rle_refl _)).
  remember (Rabs C) as A eqn:EA.
  apply Rabs_le_both in Hg.
  assert (Ha0 : (0 <= a)%R) by lra.
  unfold counts_to_um, F64.div, F64.mul.
  destruct F64_34304 as [E34304 V34304]. rewrite E34304 in V34304 |- *.
  destruct F64_1000 as [W1000 V1000].
  (* widening *)
  assert (Bg : (Rabs (real_value g) <= A + a)%R) by (apply Rabs_le_both; lra).
  assert (Hh : rounds_to F64.prec F64.emax (real_value g) (float_to_double g)).
  { apply float_to_double_rounds; [exact (well_formed_finite _ _ _ Wg) | lra]. }
  destruct (rounds_to_double _ _ _ Hh Bg) as [Wh Ih].
  remember (float_to_double g) as h eqn:Eh.
  (* the division *)
  assert (Bd : (Rabs (real_value h / real_value (S754_finite false 4714705859903488 (-37)))
                <= ((1 + / 10 ^ 15) * (A + a) + / 10 ^ 30) / 34304)%R).
  { rewrite V34304. apply Rabs_le_both. lra. }
  assert (Hd : rounds_to F64.prec F64.emax
                 (real_value h / real_value (S754_finite false 4714705859903488 (-37)))
                 (SFdiv F64.prec F64.emax h
                    (S754_finite false 4714705859903488 (-37)))).
  { apply SFdiv_rounds; try assumption.
    - exact (well_formed_finite _ _ _ Wh).
    - apply double_range. lra. }
  destruct (rounds_to_double _ _ _ Hd Bd) as [Wd Id].
  rewrite V34304 in Id.
  remember (SFdiv F64.prec F64.emax h (S754_finite false 4714705859903488 (-37)))
    as d1 eqn:Ed1.
  (* the multiplication *)
  assert (Bm : (Rabs (real_value d1 * real_value (F64.of_Z 1000))
                <= 1000 * ((1 + 3 / 10 ^ 15) * (A + a) / 34304 + 2 / 10 ^ 30))%R).
  { rewrite V1000. apply Rabs_le_both. lra. }
  assert (Hm : rounds_to F64.prec F64.emax
                 (real_value d1 * real_value (F64.of_Z 1000))
                 (SFmul F64.prec F64.emax d1 (F64.of_Z 1000))).
  { apply SFmul_rounds; try assumption. apply double_range. lra. }
  destruct (rounds_to_double _ _ _ Hm Bm) as [Wm Im].
  rewrite V1000 in Im.
  remember (SFmul F64.prec F64.emax d1 (F64.of_Z 1000)) as d2 eqn:Ed2.
  (* narrowing *)
  assert (Br : (Rabs (real_value d2) <= (1 + 5 / 10 ^ 15) * (A + a) * 1000 / 34304 + / 10 ^ 26)%R)
    by (apply Rabs_le_both; lra).
  assert (Hr : rounds_to F32.prec F32.emax (real_value d2) (double_to_float d2)).
  { apply double_to_float_rounds; [exact (well_formed_finite _ _ _ Wm) | lra]. }
  destruct (rounds_to_float _ _ _ Hr Br) as [Wr Ir].
  remember (double_to_float d2) as r eqn:Er.
  (* widening *)
  assert (Bo : (Rabs (real_value r) <= (1 + 4 / 10 ^ 7) * (A + a) * 1000 / 34304 + / 10 ^ 25)%R)
    by (apply Rabs_le_both; lra).
  assert (Ho : rounds_to F64.prec F64.emax (real_value r) (float_to_double r)).
  { apply float_to_double_rounds; [exact (well_formed_finite _ _ _ Wr) | lra]. }
  destruct (rounds_to_double _ _ _ Ho Bo) as [Wo Io].
  split; [exact (well_formed_finite _ _ _ Wo) | ].
  apply Rabs_le_both. lra.
Qed.

(** The round trip of the two conversions. *)
Lemma round_trip_bound (p : double) :
  is_finite p = true ->
  (Rabs (real_value p) <= 10 ^ 36)%R ->
  is_finite (um_to_counts (double_to_float p)) = true /\
  is_finite (round_trip p) = true /\
  (Rabs (real_value (round_trip p) - real_value p)
   <= 15 / 10 ^ 7 * Rabs (real_value p) + / 10 ^ 24)%R.
Proof.
  intros Hf HP.
  destruct (um_to_counts_error p Hf HP) as [Wc Hc].
  pose proof (Rabs_pos (real_value p)) as HA0.
  assert (HC : (Rabs (real_value p * 34304 / 1000)
                <= 34304 / 1000 * Rabs (real_value p))%R).
  { pose proof (Rabs_le_both (real_value p) (Rabs (real_value p))) as [HPP _].
    specialize (HPP (Rle_refl _)). apply Rabs_le_both. lra. }
  pose proof (Rabs_pos (real_value p * 34304 / 1000)) as HC0.
  destruct (counts_to_um_error _ _ _ Wc Hc ltac:(lra)) as [Ho Hr].
  split; [exact (well_formed_finite _ _ _ Wc) | ].
  split; [exact Ho | ].
  unfold round_trip.
  replace (real_value p * 34304 / 1000 * 1000 / 34304)%R with (real_value p) in Hr
    by field.
  lra.
Qed.

(** The position read from a device that holds a whole number of counts
    within one count of the counts issued. *)
Lemma position_read_bound (p : double) (n : Z) :
  is_finite p = true ->
  (Rabs (real_value p) <= 10 ^ 36)%R ->
  (Rabs (IZR n - real_value (um_to_counts (double_to_float p))) <= 1)%R ->
  is_finite (float_to_double (counts_to_um (F32.of_Z n))) = true /\
  (Rabs (real_value (float_to_double (counts_to_um (F32.of_Z n))) - real_value p)
   <= 2 / 10 ^ 6 * Rabs (real_value p) + 292 / 10 ^ 4)%R.
Proof.
  intros Hf HP Hn.
  destruct (um_to_counts_error p Hf HP) as [Wc Hc].
  destruct F32_format as [Hprec Hemax].
  pose proof (Rabs_pos (real_value p)) as HA0.
  assert (HC : (Rabs (real_value p * 34304 / 1000)
                <= 34304 / 1000 * Rabs (real_value p))%R).
  { pose proof (Rabs_le_both (real_value p) (Rabs (real_value p))) as [HPP _].
    specialize (HPP (Rle_refl _)). apply Rabs_le_both. lra. }
  pose proof (Rabs_pos (real_value p * 34304 / 1000)) as HC0.
  apply Rabs_le_both in Hn. apply Rabs_le_both in Hc.
  pose proof (Rabs_le_both (real_value p * 34304 / 1000)
                (Rabs (real_value p * 34304 / 1000))) as [HCC _].
  specialize (HCC (Rle_refl _)).
  remember (real_value p * 34304 / 1000)%R as C eqn:EC.
  remember (Rabs C) as AC eqn:EAC.
  remember (Rabs (real_value p)) as A eqn:EA.
  assert (Bn : (Rabs (IZR n) <= AC + (369 / 10 ^ 7 * A + / 10 ^ 25) + 1)%R)
    by (apply Rabs_le_both; lra).
  assert (Hg : rounds_to F32.prec F32.emax (IZR n) (F32.of_Z n)).
  { apply binary_normalize_rounds; try assumption. apply float_range. lra. }
  destruct (rounds_to_float _ _ _ Hg Bn) as [Wg Ig].
  assert (Hgc : (Rabs (real_value (F32.of_Z n) - C)
                 <= 1 + 4 / 10 ^ 7 + 492 / 10 ^ 7 * A)%R)
    by (apply Rabs_le_both; lra).
  destruct (counts_to_um_error _ _ _ Wg Hgc ltac:(rewrite <- EAC; lra)) as [Ho Hr].
  split; [exact Ho | ].
  rewrite <- EAC in Hr.
  replace (C * 1000 / 34304)%R with (real_value p) in Hr by (rewrite EC; field).
  lra.
Qed.

(** ** The round trip through the adapter *)

(** C2, as stated, fails, whatever the tolerance: after
    [SetLimits(0, 1e38)] the position 10^38 is within the limits, and the
    counts computed for it exceed the largest [float], so the position
    converted back is an infinity. *)
Lemma round_trip_as_specified_fails :
  ~ exists tolerance : R, round_trip_as_specified tolerance.
Proof.
  intros [tolerance H].
  assert (Hr : reachable widened).
  { exact (reachable_run (device_at 0 true)
             (op_SetLimits (F64.of_Z 0) double_1e38) fresh
             (reachable_construct_default zeroed no_devices)). }
  destruct (H widened double_1e38 Hr eq_refl eq_refl eq_refl) as [Hfin _].
  vm_compute in Hfin. discriminate Hfin.
Qed.

(** C2, amended: for every finite position [p] within the limits and of
    at most 10^36 micrometres, the counts [SetPositionUm(p)] issues are
    [(float)p / 1000 * 34304], a finite number, and converting them back as
    [GetPositionUm] does recovers [p] within [1.5 * 10^-6 * |p| + 10^-24]
    micrometres.  The device holds whole counts: if it reports a count
    within one count of the counts issued, [GetPositionUm] returns a
    position within [2 * 10^-6 * |p| + 0.0292] micrometres of [p] (one count
    is 0.02915 micrometres). *)
Theorem round_trip_within (a b : ThorlabsKinesisTCubeServo) (w : Responses)
    (p : double) :
  is_finite p = true ->
  (Rabs (real_value p) <= 10 ^ 36)%R ->
  F64.leb (minTravelUm_ a) p = true ->
  F64.leb p (maxTravelUm_ a) = true ->
  let counts := newPosition (object_of (SetPositionUm p a)) in
  counts = um_to_counts (double_to_float p) /\
  is_finite counts = true /\
  is_finite (round_trip p) = true /\
  (Rabs (real_value (round_trip p) - real_value p)
   <= 15 / 10 ^ 7 * Rabs (real_value p) + / 10 ^ 24)%R /\
  ((Rabs (IZR (CC_GetPosition_result w) - real_value counts) <= 1)%R ->
   is_finite (snd (value_of (GetPositionUm w b))) = true /\
   (Rabs (real_value (snd (value_of (GetPositionUm w b))) - real_value p)
    <= 2 / 10 ^ 6 * Rabs (real_value p) + 292 / 10 ^ 4)%R).
Proof.
  intros Hf HP Hlo Hhi. cbv zeta.
  assert (Hc : newPosition (object_of (SetPositionUm p a))
               = um_to_counts (double_to_float p)).
  { rewrite SetPositionUm_run. cbv zeta. unfold clamped.
    rewrite (leb_not_gtb _ _ Hlo), (leb_not_above _ _ Hhi). reflexivity. }
  destruct (round_trip_bound p Hf HP) as (H1 & H2 & H3).
  rewrite Hc. repeat split; try assumption.
  - change (snd (value_of (GetPositionUm w b)))
      with (float_to_double (counts_to_um (F32.of_Z (CC_GetPosition_result w)))).
    apply (position_read_bound p (CC_GetPosition_result w) Hf HP H).
  - change (snd (value_of (GetPositionUm w b)))
      with (float_to_double (counts_to_um (F32.of_Z (CC_GetPosition_result w)))).
    apply (position_read_bound p (CC_GetPosition_result w) Hf HP H).
Qed.

Lemma double_0_1_value :
  (Rabs (real_value double_0_1) <= 10 ^ 36)%R.
Proof.
  change double_0_1 with (S754_finite false 7205759403792794 (-56)).
  unfold real_value.
  assert (E : bpow (-56) = (/ 72057594037927936)%R) by exact (bpow_neg 56 ltac:(lia)).
  rewrite E. apply Rabs_le_both. lra.
Qed.

Lemma round_trip_within_witness :
  is_finite double_0_1 = true /\
  F64.leb (minTravelUm_ fresh) double_0_1 = true /\
  F64.leb double_0_1 (maxTravelUm_ fresh) = true /\
  (Rabs (real_value (round_trip double_0_1) - real_value double_0_1)
   <= 15 / 10 ^ 7 * Rabs (real_value double_0_1) + / 10 ^ 24)%R.
Proof.
  split; [reflexivity | split; [reflexivity | split; [reflexivity | ]]].
  exact (proj1 (proj2 (proj2 (proj2
           (round_trip_within fresh fresh (device_at 0 true) double_0_1
              eq_refl double_0_1_value eq_refl eq_refl))))).
Defined.
